(** * oats-generator: the OpenAPI importer, embedded in Rocq

    A shallow embedding of [src/scripts/import-open-api.ts]: the reference
    resolver, the scalar/type resolver, the discriminator propagator, the
    operation synthesizer and the assembler, followed by the properties the
    specification states about them.

    The OpenAPI document is a parsed JSON/YAML value and the TypeScript code
    inspects it dynamically (truthiness tests, optional fields, strict
    equality with literals), so documents are modelled as untyped JavaScript
    values and every field access follows the JavaScript semantics.  An
    object is an association list, because the order of its keys is the
    order of the generated declarations.

    Code that can throw returns a [result]; the list of operation identifiers
    that [generateRestfulComponent] updates is passed in and returned.  The
    four mutually recursive functions of the type resolver are defined by
    recursion on fuel and run with enough of it for the document at hand,
    which is proved below, together with the equations of the source.

    [pascal] (package [case]) is a parameter of the development.  The lodash
    functions are modelled on the arguments the importer gives them. *)

From Stdlib Require Import String Ascii List Bool Arith Lia ZArith DecimalString.
Import ListNotations.
Open Scope string_scope.

(* ================================================================== *)
(** ** JavaScript strings *)
(* ================================================================== *)

Module Str.

(** Characters that cannot be written inside a Rocq string literal. *)
Definition dq : string := String (ascii_of_nat 34) EmptyString.
Definition nl : string := String (ascii_of_nat 10) EmptyString.

Definition nonEmpty (s : string) : bool :=
  match s with EmptyString => false | String _ _ => true end.

Fixpoint drop (n : nat) (s : string) : string :=
  match n, s with
  | S n', String _ r => drop n' r
  | _, _ => s
  end.

(** [s.startsWith(p)] *)
Fixpoint startsWith (s p : string) {struct p} : bool :=
  match p with
  | EmptyString => true
  | String c p' =>
      match s with
      | EmptyString => false
      | String d s' => Ascii.eqb c d && startsWith s' p'
      end
  end.

(** [s.includes(p)] *)
Fixpoint includes (s p : string) : bool :=
  if startsWith s p then true
  else match s with
       | EmptyString => false
       | String _ r => includes r p
       end.

(** [s.replace(pat, rep)] with a string pattern: only the first occurrence
    is replaced.  None of the replacement strings used by the importer
    contains a dollar pattern. *)
Fixpoint replace (s pat rep : string) : string :=
  if startsWith s pat then rep ++ drop (String.length pat) s
  else match s with
       | EmptyString => EmptyString
       | String c r => String c (replace r pat rep)
       end.

(** [l.join(sep)] on an array of strings. *)
Definition join (sep : string) (l : list string) : string := String.concat sep l.

(** [s.split("\n")] *)
Fixpoint splitLines (s : string) : list string :=
  match s with
  | EmptyString => [EmptyString]
  | String c r =>
      if Ascii.eqb c (ascii_of_nat 10) then EmptyString :: splitLines r
      else match splitLines r with
           | [] => [String c EmptyString]
           | h :: t => String c h :: t
           end
  end.

(** [s.repeat(n)] *)
Fixpoint repeat (s : string) (n : nat) : string :=
  match n with
  | 0 => EmptyString
  | S n' => s ++ repeat s n'
  end.

Definition inRange (lo hi : nat) (c : ascii) : bool :=
  Nat.leb lo (nat_of_ascii c) && Nat.leb (nat_of_ascii c) hi.

Definition isDigit (c : ascii) : bool := inRange 48 57 c.
Definition isLetter (c : ascii) : bool := inRange 65 90 c || inRange 97 122 c.

(** The regular expression class [\w]: letters, digits and underscore. *)
Definition isWordChar (c : ascii) : bool :=
  isLetter c || isDigit c || Ascii.eqb c "_"%char.

Fixpoint all (p : ascii -> bool) (s : string) : bool :=
  match s with
  | EmptyString => true
  | String c r => p c && all p r
  end.

(** [\w+] *)
Definition isWord (s : string) : bool := nonEmpty s && all isWordChar s.

(** Number of occurrences of a character. *)
Fixpoint count (c : ascii) (s : string) : nat :=
  match s with
  | EmptyString => 0
  | String d r => (if Ascii.eqb c d then 1 else 0) + count c r
  end.

(** The longest prefix of word characters, and what follows it: how a
    greedy [\w+] consumes its input. *)
Fixpoint spanWord (s : string) : string * string :=
  match s with
  | EmptyString => (EmptyString, EmptyString)
  | String c r =>
      if isWordChar c
      then let (w, rest) := spanWord r in (String c w, rest)
      else (EmptyString, s)
  end.

(** The line terminators of JavaScript, which the [.] of a regular
    expression does not match: line feed, carriage return, and the line
    and paragraph separators U+2028 and U+2029.  A text is held as its
    UTF-8 bytes, in which each separator is a sequence of three bytes that
    occurs nowhere else. *)
Definition cr : string := String (ascii_of_nat 13) EmptyString.

Definition lineSeparator : string :=
  String (ascii_of_nat 226)
         (String (ascii_of_nat 128) (String (ascii_of_nat 168) EmptyString)).

Definition paragraphSeparator : string :=
  String (ascii_of_nat 226)
         (String (ascii_of_nat 128) (String (ascii_of_nat 169) EmptyString)).

Definition lineTerminatorAt (s : string) : bool :=
  startsWith s nl || startsWith s cr
  || startsWith s lineSeparator || startsWith s paragraphSeparator.

(** Decimal rendering of integers, as [String(n)] prints them. *)
Definition ofNat (n : nat) : string := NilZero.string_of_uint (Nat.to_uint n).
Definition ofZ (z : Z) : string := NilZero.string_of_int (Z.to_int z).

End Str.

(* ================================================================== *)
(** ** Results of fallible code *)
(* ================================================================== *)

(** What a JavaScript [throw] carries: an [Error] built by the importer with
    its message, or a [TypeError] raised by the runtime (a method missing on a
    value, a property read on [null] or [undefined]). *)
Inductive exn : Type :=
| Error (msg : string)
| TypeError.

(** [OutOfFuel] is the third outcome of the fuelled recursive resolver only;
    the resolver is shown below never to produce it with the fuel it is run
    with. *)
Inductive result (A : Type) : Type :=
| Ok (a : A)
| Throw (e : exn)
| OutOfFuel.

Arguments Ok {A} a.
Arguments Throw {A} e.
Arguments OutOfFuel {A}.

Definition bind {A B : Type} (m : result A) (k : A -> result B) : result B :=
  match m with
  | Ok a => k a
  | Throw e => Throw e
  | OutOfFuel => OutOfFuel
  end.

Declare Scope result_scope.
Delimit Scope result_scope with result.
Notation "x <- m ;; k" := (bind m (fun x => k))
  (at level 61, m at next level, right associativity) : result_scope.
Open Scope result_scope.

(** [l.map(f)] when the callback may throw: elements are visited in order
    and the first exception aborts the traversal. *)
Fixpoint mapM {A B : Type} (f : A -> result B) (l : list A) : result (list B) :=
  match l with
  | [] => Ok []
  | x :: r => y <- f x ;; ys <- mapM f r ;; Ok (y :: ys)
  end.

Definition isOk {A : Type} (r : result A) : bool :=
  match r with Ok _ => true | _ => false end.

Definition isThrow {A : Type} (r : result A) : bool :=
  match r with Throw _ => true | _ => false end.

(* ================================================================== *)
(** ** JavaScript values *)
(* ================================================================== *)

(** A parsed document.  Numbers are integers (the importer only tests them
    for truthiness and prints them).  An object is the list of its own
    properties in the order [Object.entries] reports them; keys are assumed
    distinct, and a lookup takes the first binding. *)
#[warnings="-register-all"] Inductive value : Type :=
| VUndefined
| VNull
| VBool (b : bool)
| VNum (n : Z)
| VStr (s : string)
| VArr (elems : list value)
| VObj (fields : list (string * value)).

(** [Boolean(v)], the test behind [if (v)], [!v], [a && b] and [a || b]. *)
Definition truthy (v : value) : bool :=
  match v with
  | VUndefined | VNull => false
  | VBool b => b
  | VNum n => negb (Z.eqb n 0)
  | VStr s => Str.nonEmpty s
  | VArr _ | VObj _ => true
  end.

Definition isNullish (v : value) : bool :=
  match v with VUndefined | VNull => true | _ => false end.

(** [typeof v === "object" && v !== null] *)
Definition isObject (v : value) : bool :=
  match v with VArr _ | VObj _ => true | _ => false end.

Fixpoint assoc (k : string) (fs : list (string * value)) : value :=
  match fs with
  | [] => VUndefined
  | (k', v) :: r => if String.eqb k k' then v else assoc k r
  end.

Fixpoint hasKey (k : string) (fs : list (string * value)) : bool :=
  match fs with
  | [] => false
  | (k', _) :: r => String.eqb k k' || hasKey k r
  end.

(** [v.k] for one of the field names the importer reads ([type], [items],
    [$ref], ...): the own property of an object, [undefined] on every other
    value that is not [null] or [undefined] (none of these names is a
    built-in property of a string, number, boolean or array). *)
Definition field (v : value) (k : string) : value :=
  match v with
  | VObj fs => assoc k fs
  | _ => VUndefined
  end.

Notation "v $. k" := (field v k) (at level 8, left associativity, format "v $. k").

(** [v.k] where [v] may be [null] or [undefined]: reading a property of
    either throws. *)
Definition getProp (v : value) (k : string) : result value :=
  if isNullish v then Throw TypeError else Ok (field v k).

(** [v === "lit"] *)
Definition isStr (v : value) (lit : string) : bool :=
  match v with VStr s => String.eqb s lit | _ => false end.

(** [v === true] *)
Definition isTrue (v : value) : bool :=
  match v with VBool true => true | _ => false end.

(** The element conversion of [Array.prototype.join], and [String(v)]
    (also what a template literal applies to an interpolated value). *)
Fixpoint toString (v : value) : string :=
  match v with
  | VUndefined => "undefined"
  | VNull => "null"
  | VBool true => "true"
  | VBool false => "false"
  | VNum n => Str.ofZ n
  | VStr s => s
  | VArr l =>
      Str.join "," (map (fun x => match x with
                                  | VUndefined | VNull => EmptyString
                                  | _ => toString x
                                  end) l)
  | VObj _ => "[object Object]"
  end.

Definition joinElem (v : value) : string :=
  if isNullish v then EmptyString else toString v.

(** [l.join(sep)] on an array of values. *)
Definition joinValues (sep : string) (l : list value) : string :=
  Str.join sep (map joinElem l).

Definition indexed {A : Type} (l : list A) : list (string * A) :=
  combine (map Str.ofNat (seq 0 (length l))) l.

Definition chars (s : string) : list value :=
  map (fun c => VStr (String c EmptyString)) (list_ascii_of_string s).

(** [Object.entries(v)] *)
Definition entries (v : value) : result (list (string * value)) :=
  match v with
  | VUndefined | VNull => Throw TypeError
  | VObj fs => Ok fs
  | VArr l => Ok (indexed l)
  | VStr s => Ok (indexed (chars s))
  | VBool _ | VNum _ => Ok []
  end.

(** [[...v]]: arrays and strings are iterable, nothing else in a document
    is. *)
Definition spread (v : value) : result (list value) :=
  match v with
  | VArr l => Ok l
  | VStr s => Ok (chars s)
  | _ => Throw TypeError
  end.

(** [v.map(f)]: only arrays have the method. *)
Definition arrayMap {B : Type} (f : value -> result B) (v : value)
  : result (list B) :=
  match v with
  | VArr l => mapM f l
  | _ => Throw TypeError
  end.

(** [v.includes(key)] for a string [key]: membership in an array, substring
    test on a string, no such method elsewhere. *)
Definition includesKey (v : value) (key : string) : result bool :=
  match v with
  | VArr l => Ok (existsb (fun x => isStr x key) l)
  | VStr s => Ok (Str.includes s key)
  | _ => Throw TypeError
  end.

(** SameValueZero, the comparison of [Array.prototype.includes].  Two
    objects are the same only if they are one object; distinct nodes of a
    parsed document never are, so object operands compare unequal. *)
Definition sameValueZero (a b : value) : bool :=
  match a, b with
  | VUndefined, VUndefined => true
  | VNull, VNull => true
  | VBool x, VBool y => Bool.eqb x y
  | VNum x, VNum y => Z.eqb x y
  | VStr x, VStr y => String.eqb x y
  | _, _ => false
  end.

(** Nesting depth of a document, the measure of the resolver's recursion. *)
Fixpoint depth (v : value) : nat :=
  match v with
  | VArr l => S (list_max (map depth l))
  | VObj fs => S (list_max (map (fun kv => depth (snd kv)) fs))
  | _ => 0
  end.

(* ================================================================== *)
(** ** The lodash functions the importer calls *)
(* ================================================================== *)

Module Lodash.

(** The functions are modelled on parsed documents: trees of objects and
  arrays, with own properties only.  One thing of lodash is outside this
  model and is named here so that the properties below can exclude it: a
  key that names a member every object inherits from [Object.prototype],
  for which [object[key]] is that member, a function, and not
  [undefined]. *)

(** The keys on which lodash's [baseSet] gives up and returns the object
    as it is at that point. *)
Definition unsafeKey (k : string) : bool :=
  String.eqb k "__proto__" || String.eqb k "constructor"
  || String.eqb k "prototype".


(** [uniq]: first occurrences, in order. *)
Fixpoint uniqFrom (seen l : list string) : list string :=
  match l with
  | [] => []
  | x :: r =>
      if existsb (String.eqb x) seen then uniqFrom seen r
      else x :: uniqFrom (x :: seen) r
  end.

Definition uniq (l : list string) : list string := uniqFrom [] l.

(** [isEmpty]: no own key for an object, length zero for an array or a
    string, [true] for every other value. *)
Definition isEmpty (v : value) : bool :=
  match v with
  | VObj fs => match fs with [] => true | _ => false end
  | VArr l => match l with [] => true | _ => false end
  | VStr s => negb (Str.nonEmpty s)
  | _ => true
  end.


(** *** Paths

    [stringToPath] collects the matches of one regular expression, tried
    at every position from left to right.  Its alternatives are, in this
    order: a run of characters other than dot and brackets; a bracketed
    index (an optional minus sign, digits, optionally a dot and digits) or
    a bracketed quoted key; and the empty key, at a dot or at a pair of
    brackets with a dot, a pair of brackets or the end of the path right
    behind it. *)

Definition isPathPunct (c : ascii) : bool :=
  Ascii.eqb c "."%char || Ascii.eqb c "["%char || Ascii.eqb c "]"%char.

(** The longest prefix with no dot and no bracket, and what follows. *)
Fixpoint spanKey (s : string) : string * string :=
  match s with
  | EmptyString => (EmptyString, EmptyString)
  | String c r =>
      if isPathPunct c then (EmptyString, s)
      else let (k, rest) := spanKey r in (String c k, rest)
  end.

Fixpoint spanDigits (s : string) : string * string :=
  match s with
  | EmptyString => (EmptyString, EmptyString)
  | String c r =>
      if Str.isDigit c
      then let (d, rest) := spanDigits r in (String c d, rest)
      else (EmptyString, s)
  end.

(** After an opening bracket: a numeral and the closing bracket.  The
    numeral and the text after the bracket. *)
Definition matchNumber (s : string) : option (string * string) :=
  let (sign, s1) :=
    match s with
    | String c r => if Ascii.eqb c "-"%char then ("-", r) else (EmptyString, s)
    | EmptyString => (EmptyString, s)
    end in
  let (d1, s2) := spanDigits s1 in
  if Str.nonEmpty d1 then
    match s2 with
    | String c r =>
        if Ascii.eqb c "]"%char then Some (sign ++ d1, r)
        else if Ascii.eqb c "."%char then
          let (d2, s3) := spanDigits r in
          if Str.nonEmpty d2 then
            match s3 with
            | String e r' =>
                if Ascii.eqb e "]"%char
                then Some (sign ++ d1 ++ "." ++ d2, r') else None
            | EmptyString => None
            end
          else None
        else None
    | EmptyString => None
    end
  else None.

Definition backslash : ascii := ascii_of_nat 92.
Definition doubleQuote : ascii := ascii_of_nat 34.
Definition singleQuote : ascii := ascii_of_nat 39.

(** After an opening quote [q]: the fewest characters, a backslash
    counting with the character it escapes, up to a quote [q] that is
    followed by the closing bracket.  The text between the quotes and the
    text after the bracket. *)
Fixpoint matchQuoted (q : ascii) (s : string) : option (string * string) :=
  match s with
  | EmptyString => None
  | String c r =>
      if Ascii.eqb c q then
        match r with
        | String d rest =>
            if Ascii.eqb d "]"%char then Some (EmptyString, rest) else None
        | EmptyString => None
        end
      else if Ascii.eqb c backslash then
        match r with
        | String d r' =>
            if Str.lineTerminatorAt r then None
            else match matchQuoted q r' with
                 | Some (sub, rest) => Some (String c (String d sub), rest)
                 | None => None
                 end
        | EmptyString => None
        end
      else match matchQuoted q r with
           | Some (sub, rest) => Some (String c sub, rest)
           | None => None
           end
  end.

(** The escapes of a quoted key: a backslash is dropped, two of them in
    a row give one. *)
Fixpoint unescape (s : string) : string :=
  match s with
  | EmptyString => EmptyString
  | String c r =>
      if Ascii.eqb c backslash then
        match r with
        | String d r' =>
            if Ascii.eqb d backslash then String backslash (unescape r')
            else unescape r
        | EmptyString => EmptyString
        end
      else String c (unescape r)
  end.

Definition isQuote (c : ascii) : bool :=
  Ascii.eqb c doubleQuote || Ascii.eqb c singleQuote.

(** After an opening bracket: the key of a bracketed index or of a
    bracketed quoted key, and the text after the closing bracket. *)
Definition matchBracket (s : string) : option (string * string) :=
  match matchNumber s with
  | Some found => Some found
  | None =>
      match s with
      | String q r =>
          if isQuote q then
            match matchQuoted q r with
            | Some (sub, rest) => Some (unescape sub, rest)
            | None => None
            end
          else None
      | EmptyString => None
      end
  end.

(** The empty key matches here. *)
Definition emptyKeyAt (s : string) : bool :=
  let follows (t : string) :=
    negb (Str.nonEmpty t) || Str.startsWith t "." || Str.startsWith t "[]" in
  (Str.startsWith s "." && follows (Str.drop 1 s))
  || (Str.startsWith s "[]" && follows (Str.drop 2 s)).

(** The keys matched from the current position on.  After a key the
    search goes on behind it; after the empty key, and where nothing
    matches, it goes on one character further. *)
Fixpoint scanPath (fuel : nat) (s : string) : list string :=
  match fuel with
  | 0 => []
  | S n =>
      match s with
      | EmptyString => []
      | String c r =>
          if negb (isPathPunct c) then
            let (k, rest) := spanKey s in k :: scanPath n rest
          else
            match (if Ascii.eqb c "["%char then matchBracket r else None) with
            | Some (k, rest) => k :: scanPath n rest
            | None =>
                if emptyKeyAt s then EmptyString :: scanPath n r
                else scanPath n r
            end
      end
  end.

(** [stringToPath]: a path that starts with a dot has the empty key
    first. *)
Definition stringToPath (s : string) : list string :=
  ((if Str.startsWith s "." then [EmptyString] else []) ++
   scanPath (String.length s) s)%list.

(** After an opening bracket: no bracket up to a closing one. *)
Fixpoint closesBracket (s : string) : bool :=
  match s with
  | EmptyString => false
  | String c r =>
      if Ascii.eqb c "]"%char then true
      else if Ascii.eqb c "["%char then false
      else closesBracket r
  end.

Definition quotedBracket (s : string) : bool :=
  match s with
  | String q r =>
      isQuote q && match matchQuoted q r with Some _ => true | None => false end
  | EmptyString => false
  end.

(** The test of lodash for a path of several keys: a dot, or a bracketed
    part, somewhere in it. *)
Fixpoint isDeepProp (s : string) : bool :=
  match s with
  | EmptyString => false
  | String c r =>
      Ascii.eqb c "."%char
      || (Ascii.eqb c "["%char && (closesBracket r || quotedBracket r))
      || isDeepProp r
  end.

(** [castPath(path, object)] for a path string: the string is one key
    when it does not look like a path of several keys, and when [object]
    has it as a key; it is parsed otherwise. *)
Definition castPath (path : string) (object : value) : list string :=
  if isDeepProp path then
    match object with
    | VObj fs => if hasKey path fs then [path] else stringToPath path
    | _ => stringToPath path
    end
  else [path].

Fixpoint digitsValue (acc : N) (s : string) : N :=
  match s with
  | EmptyString => acc
  | String c r => digitsValue (acc * 10 + N.of_nat (nat_of_ascii c - 48)) r
  end.

(** A canonical decimal numeral ([0], or digits not starting with [0]). *)
Definition parseIndex (k : string) : option N :=
  match k with
  | EmptyString => None
  | String c r =>
      if Str.all Str.isDigit k
         && (negb (Ascii.eqb c "0"%char) || negb (Str.nonEmpty r))
      then Some (digitsValue 0 k)
      else None
  end.

(** lodash's [isIndex]: a numeral below [Number.MAX_SAFE_INTEGER]. *)
Definition isIndex (k : string) : bool :=
  match parseIndex k with
  | Some n => N.ltb n 9007199254740991
  | None => false
  end.

(** An array index in the sense of the property order of objects. *)
Definition arrayIndex (k : string) : option N :=
  match parseIndex k with
  | Some n => if N.ltb n 4294967295 then Some n else None
  | None => None
  end.

(** [object[key]] for a key that is an own property or names nothing at
    all: an inherited member ([inheritedKey] on an object, a method or the
    length of an array or of a string) is not a value of a document. *)
Definition getOwn (object : value) (key : string) : value :=
  match object with
  | VObj fs => assoc key fs
  | VArr l =>
      match parseIndex key with
      | Some n => nth (N.to_nat n) l VUndefined
      | None => VUndefined
      end
  | _ => VUndefined
  end.

(** A fresh property of an object: integer keys come first in ascending
    order, every other key goes last. *)
Fixpoint insertKey (k : string) (v : value) (fs : list (string * value))
  : list (string * value) :=
  match fs with
  | [] => [(k, v)]
  | (k', v') :: r =>
      match arrayIndex k, arrayIndex k' with
      | Some n, Some n' =>
          if N.ltb n n' then (k, v) :: fs else (k', v') :: insertKey k v r
      | Some _, None => (k, v) :: fs
      | None, _ => (k', v') :: insertKey k v r
      end
  end.

Fixpoint replaceKey (k : string) (v : value) (fs : list (string * value))
  : list (string * value) :=
  match fs with
  | [] => []
  | (k', v') :: r =>
      if String.eqb k k' then (k, v) :: r else (k', v') :: replaceKey k v r
  end.

Fixpoint setNth (n : nat) (v : value) (l : list value) : list value :=
  match n, l with
  | 0, [] => [v]
  | 0, _ :: r => v :: r
  | S n', [] => VUndefined :: setNth n' v []
  | S n', x :: r => x :: setNth n' v r
  end.

(** [object[key] = v].  Array nodes carry no named property in this
    model: assigning one to an array leaves it as it is.  No such
    assignment arises on a document whose path nodes are objects. *)
Definition assignValue (object : value) (key : string) (v : value) : value :=
  match object with
  | VObj fs =>
      VObj (if hasKey key fs then replaceKey key v fs else insertKey key v fs)
  | VArr l =>
      match parseIndex key with
      | Some n => VArr (setNth (N.to_nat n) v l)
      | None => object
      end
  | _ => object
  end.

(** [baseSet]: walks the keys, keeps the object found under a key or puts
    a new container there (an array if the next key is an index, an
    object if not), and assigns the value under the last key.  The walk
    stops at an unsafe key: the containers put in place on the way to it
    stay, and nothing is written at it or below it. *)
Fixpoint baseSet (path : list string) (v : value) (nested : value) : value :=
  match path with
  | [] => nested
  | [key] => if unsafeKey key then nested else assignValue nested key v
  | key :: (next :: _) as rest =>
      if unsafeKey key then nested
      else
        let objValue := getOwn nested key in
        let newValue :=
          if isObject objValue then objValue
          else if isIndex next then VArr [] else VObj [] in
        assignValue nested key (baseSet rest v newValue)
  end.

(** [set(object, path, v)] *)
Definition set (object : value) (path : string) (v : value) : value :=
  if isObject object then baseSet (castPath path object) v object
  else object.

Fixpoint baseGet (path : list string) (object : value) : value :=
  match path with
  | [] => object
  | key :: rest =>
      if isNullish object then VUndefined
      else baseGet rest (getOwn object key)
  end.

(** [get(object, path)]: a path with no key at all reads nothing. *)
Definition get (object : value) (path : string) : value :=
  if isNullish object then VUndefined
  else match castPath path object with
       | [] => VUndefined
       | keys => baseGet keys object
       end.

(** [groupBy(l, prop)[key]], with the default [[]] the importer gives a
    missing group: the elements whose [prop], as a property key, is [key].
    The property of a [null] or [undefined] element reads as [undefined]. *)
Definition groupBy (l : list value) (prop key : string) : list value :=
  filter (fun x => String.eqb (toString (field x prop)) key) l.

End Lodash.

(* ================================================================== *)
(** ** The importer *)
(* ================================================================== *)

Section Importer.

(** [pascal] of the [case] package, an external collaborator: PascalCase
    conversion of an identifier.  The importer is parametric in it. *)
Variable pascal : string -> string.

(** [IdentifierRegexp.test(s)], for [/^[a-zA-Z_$][a-zA-Z0-9_$]*$/]. *)
Definition IdentifierRegexp (s : string) : bool :=
  match s with
  | EmptyString => false
  | String c r =>
      (Str.isLetter c || Ascii.eqb c "_"%char || Ascii.eqb c "$"%char)
      && Str.all (fun d => Str.isWordChar d || Ascii.eqb d "$"%char) r
  end.

(** [isReference]: [Boolean(property && property.$ref)]. *)
Definition isReference (property : value) : bool :=
  truthy property && truthy property$."$ref".

(** *** Reference resolver *)

Definition unsupportedRef : exn :=
  Error "This library only resolve $ref that are include into `#/components/*` for now".

Definition getRef (ref : string) : result string :=
  if Str.startsWith ref "#/components/schemas" then
    Ok (pascal (Str.replace ref "#/components/schemas/" EmptyString))
  else if Str.startsWith ref "#/components/responses" then
    Ok (pascal (Str.replace ref "#/components/responses/" EmptyString) ++ "Response")
  else if Str.startsWith ref "#/components/parameters" then
    Ok (pascal (Str.replace ref "#/components/parameters/" EmptyString) ++ "Parameter")
  else if Str.startsWith ref "#/components/requestBodies" then
    Ok (pascal (Str.replace ref "#/components/requestBodies/" EmptyString) ++ "RequestBody")
  else Throw unsupportedRef.

(** [getRef(x.$ref)] at a call site, where [x.$ref] is truthy but has not
    been checked to be a string: [startsWith] exists on strings only. *)
Definition getRefOf (ref : value) : result string :=
  match ref with
  | VStr r => getRef r
  | _ => Throw TypeError
  end.

(** *** Doc comments *)

Definition formatDescription (description : string) (tabSize : nat) : string :=
  if Str.nonEmpty description then
    "/**" ++ Str.nl
    ++ Str.join Str.nl
         (map (fun i => Str.repeat " " tabSize ++ " * " ++ i)
              (Str.splitLines description))
    ++ Str.nl ++ Str.repeat " " tabSize ++ " */" ++ Str.nl
    ++ Str.repeat " " tabSize
  else EmptyString.

(** [formatDescription(x.description, tabSize)] on a field of the
    document: a truthy description that is not a string has no [split]. *)
Definition formatDescriptionOf (description : value) (tabSize : nat)
  : result string :=
  if truthy description then
    match description with
    | VStr s => Ok (formatDescription s tabSize)
    | _ => Throw TypeError
    end
  else Ok EmptyString.

(** *** Scalar/type resolver

    [getScalar], [getArray], [getObject] and [resolveValue] call each other.
    Each body is written over the functions it calls; the four are then
    tied together by recursion on fuel. *)

Definition missingItems : exn :=
  Error "All arrays must have an `items` key define".

Definition isNumericType (type : value) : bool :=
  isStr type "int32" || isStr type "int64" || isStr type "number"
  || isStr type "integer" || isStr type "long" || isStr type "float"
  || isStr type "double".

Definition isStringType (type : value) : bool :=
  isStr type "string" || isStr type "byte" || isStr type "binary"
  || isStr type "date" || isStr type "dateTime" || isStr type "date-time"
  || isStr type "password".

(** The quoted union of the enum values: a double quote, the values
    joined by [" | "], a double quote. *)
Definition enumUnion (enum : value) : result string :=
  match enum with
  | VArr l =>
      Ok (Str.dq ++ joinValues (Str.dq ++ " | " ++ Str.dq) l ++ Str.dq)
  | _ => Throw TypeError
  end.

Section Bodies.

Variable resolveValue' : value -> result string.
Variable getArray' : value -> result string.
Variable getObject' : value -> result string.
Variable getScalar' : value -> result string.

Definition getScalar_body (item : value) : result string :=
  if negb (truthy item) then Ok EmptyString
  else
    let nullable := if truthy item$."nullable" then " | null" else EmptyString in
    let type := item$."type" in
    if isNumericType type then Ok ("number" ++ nullable)
    else if isStr type "boolean" then Ok ("boolean" ++ nullable)
    else if isStr type "array" then
      t <- getArray' item ;; Ok (t ++ nullable)
    else if isStringType type then
      t <- (if truthy item$."enum" then enumUnion item$."enum"
            else Ok "string") ;;
      Ok (t ++ nullable)
    else
      t <- getObject' item ;; Ok (t ++ nullable).

Definition getArray_body (item : value) : result string :=
  let items := item$."items" in
  if truthy items then
    if negb (isReference items)
       && (truthy items$."oneOf" || truthy items$."allOf"
           || truthy items$."enum")
    then t <- resolveValue' items ;; Ok ("(" ++ t ++ ")[]")
    else t <- resolveValue' items ;; Ok (t ++ "[]")
  else Throw missingItems.

(** The callback of [Object.entries(item.properties).map(...)]. *)
Definition propertyLine (item : value) (entry : string * value)
  : result string :=
  let (key, prop) := entry in
  doc <- (if isReference prop then Ok EmptyString
          else d <- getProp prop "description" ;; formatDescriptionOf d 2) ;;
  isRequired <- (if truthy item$."required"
                 then includesKey item$."required" key
                 else Ok false) ;;
  let processedKey :=
    if IdentifierRegexp key then key else Str.dq ++ key ++ Str.dq in
  t <- resolveValue' prop ;;
  Ok ("  " ++ doc ++ processedKey
      ++ (if isRequired : bool then EmptyString else "?") ++ ": " ++ t ++ ";").

Definition getObject_body (item : value) : result string :=
  let properties := item$."properties" in
  let additionalProperties := item$."additionalProperties" in
  if isReference item then getRefOf item$."$ref"
  else if truthy item$."allOf" then
    ts <- arrayMap resolveValue' item$."allOf" ;; Ok (Str.join " & " ts)
  else if truthy item$."oneOf" then
    ts <- arrayMap resolveValue' item$."oneOf" ;; Ok (Str.join " | " ts)
  else if negb (truthy item$."type") && negb (truthy properties)
          && negb (truthy additionalProperties) then Ok "{}"
  else if isStr item$."type" "object" && negb (truthy properties)
          && (negb (truthy additionalProperties)
              || isTrue additionalProperties
              || Lodash.isEmpty additionalProperties)
  then Ok "{[key: string]: any}"
  else
    output <- (if truthy properties then
                 es <- entries properties ;;
                 ls <- mapM (propertyLine item) es ;;
                 Ok ("{" ++ Str.nl ++ Str.join Str.nl ls)
               else Ok ("{" ++ Str.nl)) ;;
    output <- (if truthy additionalProperties then
                 t <- (if isTrue additionalProperties then Ok "any"
                       else resolveValue' additionalProperties) ;;
                 Ok ((if truthy properties then output ++ Str.nl else output)
                     ++ "  [key: string]: " ++ t ++ ";")
               else Ok output) ;;
    if truthy properties || truthy additionalProperties then
      if String.eqb output ("{" ++ Str.nl) then Ok "{}"
      else Ok (output ++ Str.nl ++ "}")
    else Ok (if isStr item$."type" "object" then "{[key: string]: any}"
             else "any").

Definition resolveValue_body (schema : value) : result string :=
  if isReference schema then getRefOf schema$."$ref"
  else getScalar' schema.

End Bodies.

Fixpoint getScalar_fuel (fuel : nat) (item : value) : result string :=
  match fuel with
  | 0 => OutOfFuel
  | S n => getScalar_body (getArray_fuel n) (getObject_fuel n) item
  end
with getArray_fuel (fuel : nat) (item : value) : result string :=
  match fuel with
  | 0 => OutOfFuel
  | S n => getArray_body (resolveValue_fuel n) item
  end
with getObject_fuel (fuel : nat) (item : value) : result string :=
  match fuel with
  | 0 => OutOfFuel
  | S n => getObject_body (resolveValue_fuel n) item
  end
with resolveValue_fuel (fuel : nat) (schema : value) : result string :=
  match fuel with
  | 0 => OutOfFuel
  | S n => resolveValue_body (getScalar_fuel n) schema
  end.

(** Three calls lead from a node to its children ([resolveValue] to
    [getScalar] to [getObject] or [getArray] to [resolveValue]), so this
    much fuel is enough for a document of the given depth. *)
Definition fuelFor (v : value) : nat := 3 * S (depth v).

Definition getScalar (item : value) : result string :=
  getScalar_fuel (fuelFor item) item.

Definition getArray (item : value) : result string :=
  getArray_fuel (fuelFor item) item.

Definition getObject (item : value) : result string :=
  getObject_fuel (fuelFor item) item.

Definition resolveValue (schema : value) : result string :=
  resolveValue_fuel (fuelFor schema) schema.

(** *** Responses and request bodies *)

Definition isJsonOrBinary (contentType : string) : bool :=
  Str.startsWith contentType "application/json"
  || Str.startsWith contentType "application/octet-stream".

(** The [for] loop over [Object.keys(res.content)]: the first media type
    entry whose content type is JSON or an octet stream. *)
Fixpoint findContent (content : list (string * value)) : option value :=
  match content with
  | [] => None
  | (contentType, media) :: r =>
      if isJsonOrBinary contentType then Some media else findContent r
  end.

(** The callback of [responsesOrRequests.map(...)] in [getResReqTypes]. *)
Definition resReqType (res : value) : result string :=
  if negb (truthy res) then Ok "void"
  else if isReference res then getRefOf res$."$ref"
  else if truthy res$."content" then
    content <- entries res$."content" ;;
    match findContent content with
    | Some media => schema <- getProp media "schema" ;; resolveValue schema
    | None => Ok "void"
    end
  else Ok "void".

Definition getResReqTypes (responsesOrRequests : list (string * value))
  : result string :=
  ts <- mapM (fun entry => resReqType (snd entry)) responsesOrRequests ;;
  Ok (Str.join " | " (Lodash.uniq ts)).

(** *** Route templates *)

(** [route.replace(/\{/g, "${")] *)
Fixpoint replaceBraces (route : string) : string :=
  match route with
  | EmptyString => EmptyString
  | String c r =>
      if Ascii.eqb c "{"%char then "${" ++ replaceBraces r
      else String c (replaceBraces r)
  end.

(** [/\{(\w+)}/] tried at the start of [s]: the captured name and the text
    after the match. *)
Definition matchParam (s : string) : option (string * string) :=
  match s with
  | String c r =>
      if Ascii.eqb c "{"%char then
        let (w, rest) := Str.spanWord r in
        match rest with
        | String d rest' =>
            if Str.nonEmpty w && Ascii.eqb d "}"%char then Some (w, rest')
            else None
        | EmptyString => None
        end
      else None
  | EmptyString => None
  end.

(** The [exec] loop of [getParamsInPath]: the leftmost match from the
    current position, then on from the end of that match. *)
Fixpoint scanParams (fuel : nat) (s : string) : list string :=
  match fuel with
  | 0 => []
  | S n =>
      match matchParam s with
      | Some (w, rest) => w :: scanParams n rest
      | None =>
          match s with
          | EmptyString => []
          | String _ r => scanParams n r
          end
      end
  end.

Definition getParamsInPath (path : string) : list string :=
  scanParams (String.length path) path.

(** [/\/\$\{(\w+)\}\/?$/] tried at the start of [s]: the whole of [s]
    must be a slash, a placeholder and at most one more slash. *)
Definition matchLastParam (s : string) : option string :=
  match s with
  | String c1 (String c2 (String c3 r)) =>
      if Ascii.eqb c1 "/"%char && Ascii.eqb c2 "$"%char && Ascii.eqb c3 "{"%char
      then
        let (w, rest) := Str.spanWord r in
        if Str.nonEmpty w && (String.eqb rest "}" || String.eqb rest "}/")
        then Some w else None
      else None
  | _ => None
  end.

(** The leftmost match of that expression in [s]: the text before it and
    the captured name. *)
Fixpoint searchLastParam (s : string) : option (string * string) :=
  match matchLastParam s with
  | Some w => Some (EmptyString, w)
  | None =>
      match s with
      | EmptyString => None
      | String c r =>
          match searchLastParam r with
          | Some (before, w) => Some (String c before, w)
          | None => None
          end
      end
  end.

(** The route of the component and [lastParamInTheRoute]: braces are
    rewritten, and for the verb [delete] a final placeholder is cut off. *)
Definition routeOf (verb route : string) : string * option string :=
  let route := replaceBraces route in
  if String.eqb verb "delete" then
    match searchLastParam route with
    | Some (before, w) => (before, Some w)
    | None => (route, None)
    end
  else (route, None).

Definition paramsInPathOf (verb route : string) : list string :=
  let (route, lastParamInTheRoute) := routeOf verb route in
  filter (fun param =>
            negb (String.eqb verb "delete"
                  && match lastParamInTheRoute with
                     | Some w => String.eqb param w
                     | None => false
                     end))
         (getParamsInPath route).

(** *** Operation synthesizer *)

Record TypeNames : Type := {
  response : string;
  query : string;
  body : string
}.

(** The descriptor returned for one operation. *)
Record component : Type := {
  componentName : string;
  verb : string;
  route : string;
  description : string;
  typeNames : TypeNames;
  errorTypes : string;
  headerParams : list value;
  paramsInPath : list string;
  paramsTypes : string;
  operation : value
}.

(** [object.key = v] in strict mode: a property cannot be created on a
    primitive.  (An array keeps no named property in this model.) *)
Definition assignProp (object : value) (key : string) (v : value)
  : result value :=
  match object with
  | VObj _ | VArr _ => Ok (Lodash.assignValue object key v)
  | _ => Throw TypeError
  end.

Definition missingOperationId (verb route : string) : exn :=
  Error ("Every path must have a operationId - No operationId set for "
         ++ verb ++ " " ++ route).

Definition duplicatedOperationId (operationId : value) : exn :=
  Error (Str.dq ++ toString operationId ++ Str.dq
         ++ " is duplicated in your schema definition!").

Definition pathParamNotFound (p : string) (operationId : value) : exn :=
  Error ("The path params " ++ p ++ " can't be found in parameters ("
         ++ toString operationId ++ ")").

(** The identifier of the operation, generated and stored in the operation
    when it has none: the identifier and the operation as it is then. *)
Definition operationIdOf (operation : value) (verb route : string)
           (customOperationNameGenerator : option (string -> string -> string))
  : result (value * value) :=
  operationId <- getProp operation "operationId" ;;
  if truthy operationId then Ok (operationId, operation)
  else match customOperationNameGenerator with
       | None => Throw (missingOperationId verb route)
       | Some generator =>
           let operationId := VStr (generator verb route) in
           operation <- assignProp operation "operationId" operationId ;;
           Ok (operationId, operation)
       end.

Definition isOkStatus (entry : string * value) : bool :=
  Str.startsWith (fst entry) "2".

Definition isErrorStatus (entry : string * value) : bool :=
  Str.startsWith (fst entry) "4" || Str.startsWith (fst entry) "5"
  || String.eqb (fst entry) "default".

(** [s || dflt] on strings. *)
Definition orElse (s dflt : string) : string :=
  if Str.nonEmpty s then s else dflt.

Definition responseTypesOf (responses : list (string * value)) : result string :=
  t <- getResReqTypes (filter isOkStatus responses) ;; Ok (orElse t "void").

Definition errorTypesOf (responses : list (string * value)) : result string :=
  t <- getResReqTypes (filter isErrorStatus responses) ;; Ok (orElse t "unknown").

(** The merged parameters, each reference replaced by what it points to
    in the components, in [parameters] (path item) then
    [operation.parameters] order. *)
Definition derefParameter (schemasComponents : value) (p : value) : result value :=
  if isReference p then
    match p$."$ref" with
    | VStr ref =>
        Ok (Lodash.get schemasComponents
              (Str.replace (Str.replace ref "#/components/" EmptyString) "/" "."))
    | _ => Throw TypeError
    end
  else Ok p.

Definition mergedParameters (operation parameters schemasComponents : value)
  : result (list value) :=
  fromPath <- (match parameters with
               | VUndefined => Ok []
               | _ => spread parameters
               end) ;;
  fromOperation <- (if truthy operation$."parameters"
                    then spread operation$."parameters" else Ok []) ;;
  mapM (derefParameter schemasComponents) (fromPath ++ fromOperation).

(** The callback of [paramsInPath.map(...)]: whatever is thrown while the
    parameter is looked up and typed is caught and replaced by the
    not-found error. *)
Definition paramType (operationId : value) (pathParams : list value)
           (p : string) : result string :=
  match
    match find (fun i => isStr i$."name" p) pathParams with
    | None => Throw TypeError
    | Some i =>
        t <- resolveValue i$."schema" ;;
        Ok (p ++ (if truthy i$."required" then EmptyString else "?") ++ ": " ++ t)
    end
  with
  | Ok s => Ok s
  | Throw _ => Throw (pathParamNotFound p operationId)
  | OutOfFuel => OutOfFuel
  end.

Definition queryParamType (p : value) : result string :=
  let name := toString p$."name" in
  let processedName :=
    if IdentifierRegexp name then name else Str.dq ++ name ++ Str.dq in
  doc <- formatDescriptionOf p$."description" 2 ;;
  t <- resolveValue p$."schema" ;;
  Ok (doc ++ processedName
      ++ (if truthy p$."required" then EmptyString else "?") ++ ": " ++ t).

Definition descriptionOf (operation : value) : string :=
  let summary := operation$."summary" in
  let description := operation$."description" in
  formatDescription
    (if truthy summary && truthy description
     then toString summary ++ Str.nl ++ Str.nl ++ toString description
     else (if truthy summary then toString summary else EmptyString)
          ++ (if truthy description then toString description else EmptyString))
    0.

(** [generateRestfulComponent] once the identifier is known and recorded. *)
Definition synthesize (operation operationId : value) (verb route : string)
           (parameters schemasComponents : value)
  : result (string * component) :=
  let componentName := pascal (toString operationId) in
  responses <- entries operation$."responses" ;;
  responseTypes <- responseTypesOf responses ;;
  errorTypes <- errorTypesOf responses ;;
  requestBodyTypes <- getResReqTypes [("body", operation$."requestBody")] ;;
  let needARequestBodyComponent := Str.includes requestBodyTypes "{" in
  let needAResponseComponent := Str.includes responseTypes "{" in
  let paramsInPath := paramsInPathOf verb route in
  merged <- mergedParameters operation parameters schemasComponents ;;
  let queryParams := Lodash.groupBy merged "in" "query" in
  let pathParams := Lodash.groupBy merged "in" "path" in
  let headerParams := Lodash.groupBy merged "in" "header" in
  paramsTypes <- mapM (paramType operationId pathParams) paramsInPath ;;
  queryParamsType <- mapM queryParamType queryParams ;;
  let queryParamsType := Str.join (";" ++ Str.nl ++ "  ") queryParamsType in
  let output1 :=
    if needAResponseComponent then
      Str.nl ++ "      export "
      ++ (if Str.includes responseTypes "|" || Str.includes responseTypes "&"
          then "type " ++ componentName ++ "Response ="
          else "interface " ++ componentName ++ "Response")
      ++ " " ++ responseTypes ++ Str.nl ++ "    "
    else EmptyString in
  let output2 :=
    if Str.nonEmpty queryParamsType then
      Str.nl ++ "      export interface " ++ componentName ++ "QueryParams {"
      ++ Str.nl ++ "        " ++ queryParamsType ++ ";" ++ Str.nl ++ "      }"
      ++ Str.nl ++ "    "
    else EmptyString in
  let output3 :=
    if needARequestBodyComponent then
      Str.nl ++ "      export interface " ++ componentName ++ "RequestBody "
      ++ requestBodyTypes ++ Str.nl ++ "    "
    else EmptyString in
  Ok (output1 ++ output2 ++ output3,
      {| componentName := componentName;
         verb := verb;
         route := fst (routeOf verb route);
         description := descriptionOf operation;
         typeNames :=
           {| response := if needAResponseComponent
                          then componentName ++ "Response" else responseTypes;
              query := if Str.nonEmpty queryParamsType
                       then componentName ++ "QueryParams" else "any";
              body := if needARequestBodyComponent
                      then componentName ++ "RequestBody"
                      else if String.eqb requestBodyTypes "void" then "any"
                           else requestBodyTypes |};
         errorTypes := errorTypes;
         headerParams := headerParams;
         paramsInPath := paramsInPath;
         paramsTypes := Str.join ", " paramsTypes;
         operation := operation |}).

(** [generateRestfulComponent]: the list of identifiers seen so far is
    threaded through, since the function pushes onto it before the rest of
    the synthesis can fail. *)
Definition generateRestfulComponent (operation : value) (verb route : string)
           (operationIds : list value) (parameters schemasComponents : value)
           (customOperationNameGenerator : option (string -> string -> string))
  : list value * result (string * component) :=
  match operationIdOf operation verb route customOperationNameGenerator with
  | Ok (operationId, operation) =>
      if existsb (sameValueZero operationId) operationIds
      then (operationIds, Throw (duplicatedOperationId operationId))
      else ((operationIds ++ [operationId])%list,
            synthesize operation operationId verb route parameters
                       schemasComponents)
  | Throw e => (operationIds, Throw e)
  | OutOfFuel => (operationIds, OutOfFuel)
  end.

(** *** Component definitions *)

Definition generateInterface (name : string) (schema : value) : result string :=
  scalar <- getScalar schema ;;
  description <- getProp schema "description" ;;
  doc <- formatDescriptionOf description 0 ;;
  Ok (doc ++ "export interface " ++ pascal name ++ " " ++ scalar).

(** The test of [generateSchemasDefinition] that selects an interface
    declaration.  The fields are read left to right and the test stops at
    the first conjunct that fails; only the first read can throw. *)
Definition isPlainObjectSchema (schema : value) : result bool :=
  if isReference schema then Ok false
  else
    type <- getProp schema "type" ;;
    Ok ((negb (truthy type) || isStr type "object")
        && negb (truthy schema$."allOf")
        && negb (truthy schema$."oneOf")
        && negb (isReference schema)
        && negb (truthy schema$."nullable")).

(** The callback of [Object.entries(schemas).map(...)]. *)
Definition schemaDefinition (entry : string * value) : result string :=
  let (name, schema) := entry in
  plain <- isPlainObjectSchema schema ;;
  if plain : bool then generateInterface name schema
  else
    doc <- (if isReference schema then Ok EmptyString
            else d <- getProp schema "description" ;; formatDescriptionOf d 0) ;;
    t <- resolveValue schema ;;
    Ok (doc ++ "export type " ++ pascal name ++ " = " ++ t ++ ";").

(** A parameter with the default value [{}]. *)
Definition orEmptyObject (v : value) : value :=
  match v with VUndefined => VObj [] | _ => v end.

Definition generateSchemasDefinition (schemas : value) : result string :=
  let schemas := orEmptyObject schemas in
  if Lodash.isEmpty schemas then Ok EmptyString
  else
    es <- entries schemas ;;
    ds <- mapM schemaDefinition es ;;
    Ok (Str.join (Str.nl ++ Str.nl) ds ++ Str.nl).

(** The callback shared by [generateRequestBodiesDefinition] and
    [generateResponsesDefinition], which differ in the suffix only. *)
Definition bodyDefinition (suffix : string) (entry : string * value)
  : result string :=
  let (name, node) := entry in
  doc <- (if isReference node then Ok EmptyString
          else d <- getProp node "description" ;; formatDescriptionOf d 0) ;;
  type <- getResReqTypes [(EmptyString, node)] ;;
  if String.eqb type "{}" then
    Ok ("// tslint:disable-next-line:no-empty-interface" ++ Str.nl
        ++ "export interface " ++ pascal name ++ suffix ++ " " ++ type)
  else if Str.includes type "{" && negb (Str.includes type "|")
          && negb (Str.includes type "&") then
    Ok (doc ++ "export interface " ++ pascal name ++ suffix ++ " " ++ type)
  else
    Ok (doc ++ "export type " ++ pascal name ++ suffix ++ " = " ++ type ++ ";").

Definition bodiesDefinition (suffix : string) (nodes : value) : result string :=
  let nodes := orEmptyObject nodes in
  if Lodash.isEmpty nodes then Ok EmptyString
  else
    es <- entries nodes ;;
    ds <- mapM (bodyDefinition suffix) es ;;
    Ok (Str.nl ++ Str.join (Str.nl ++ Str.nl) ds ++ Str.nl).

Definition generateRequestBodiesDefinition (requestBodies : value) : result string :=
  bodiesDefinition "RequestBody" requestBodies.

Definition generateResponsesDefinition (responses : value) : result string :=
  bodiesDefinition "Response" responses.

(** *** Discriminator propagator *)

Definition mappingOutsideSchemas : exn :=
  Error "Discriminator mapping outside of `#/components/schemas` is not supported".

(** The callback of [Object.entries(mapping).forEach(...)]: the document
    after the assignment. *)
Definition propagateMapping (propertyName : value) (specs : value)
           (entry : string * value) : result value :=
  let (name, ref) := entry in
  match ref with
  | VStr ref =>
      if negb (Str.startsWith ref "#/components/schemas/")
      then Throw mappingOutsideSchemas
      else Ok (Lodash.set specs
                 ("components.schemas."
                  ++ Str.drop (String.length "#/components/schemas/") ref
                  ++ ".properties." ++ toString propertyName ++ ".enum")
                 (VArr [VStr name]))
  | _ => Throw TypeError
  end.

(** [l.forEach(f)] over a document that [f] updates and may abort. *)
Fixpoint forEachM {A : Type} (f : value -> A -> result value) (l : list A)
         (specs : value) : result value :=
  match l with
  | [] => Ok specs
  | x :: r => specs <- f specs x ;; forEachM f r specs
  end.

(** The callback of [Object.values(specs.components.schemas).forEach(...)].
    The array of schemas is taken once, before the loop, and holds the
    schema objects themselves: an object is seen with the assignments made
    so far, so it is read from the current document under its key, and a
    value that is not an object is the one of the snapshot. *)
Definition propagateSchema (specs : value) (entry : string * value)
  : result value :=
  let (key, snapshot) := entry in
  let schema :=
    if isObject snapshot
    then Lodash.getOwn specs$."components"$."schemas" key
    else snapshot in
  if isReference schema then Ok specs
  else
    discriminator <- getProp schema "discriminator" ;;
    if negb (truthy discriminator) then Ok specs
    else if negb (truthy discriminator$."mapping") then Ok specs
    else
      mapping <- entries discriminator$."mapping" ;;
      forEachM (propagateMapping discriminator$."propertyName") mapping specs.

(** [a && b] as a value. *)
Definition andThen (a b : value) : value := if truthy a then b else a.

(** [resolveDiscriminator] returns the document it has updated in place. *)
Definition resolveDiscriminator (specs : value) : result value :=
  components <- getProp specs "components" ;;
  if truthy (andThen components components$."schemas") then
    schemas <- entries components$."schemas" ;;
    forEachM propagateSchema schemas specs
  else Ok specs.

(** *** Assembler *)

Definition supportedVerb (verb : string) : bool :=
  existsb (String.eqb verb) ["get"; "post"; "patch"; "put"; "delete"].

(** What the loops over routes and verbs accumulate. *)
Record assembly : Type := {
  operationIds : list value;
  output : string;
  components : list component
}.

(** The body of the inner loop, for one verb of a path item.  When the
    synthesis throws nothing of the accumulated state is returned. *)
Definition assembleVerb (specs verbs : value) (route : string)
           (customOperationNameGenerator : option (string -> string -> string))
           (acc : assembly) (entry : string * value) : result assembly :=
  let (verb, operation) := entry in
  if supportedVerb verb then
    let (ids, r) :=
      generateRestfulComponent operation verb route (operationIds acc)
        verbs$."parameters" specs$."components" customOperationNameGenerator in
    generated <- r ;;
    Ok {| operationIds := ids;
          output := output acc ++ fst generated;
          components := (components acc ++ [snd generated])%list |}
  else Ok acc.

Fixpoint foldM {A S : Type} (f : S -> A -> result S) (l : list A) (s : S)
  : result S :=
  match l with
  | [] => Ok s
  | x :: r => s <- f s x ;; foldM f r s
  end.

Definition assembleRoute (specs : value)
           (customOperationNameGenerator : option (string -> string -> string))
           (acc : assembly) (entry : string * value) : result assembly :=
  let (route, verbs) := entry in
  operations <- entries verbs ;;
  foldM (assembleVerb specs verbs route customOperationNameGenerator)
        operations acc.

(** [importOpenApi] from the call of [resolveDiscriminator] to the text
    handed to the formatter.  [specs] is the document after import, the
    optional transformer and the advisory validation. *)
Definition importOpenApi (specs : value) (customImport : string)
           (customGenerator : option (component -> string))
           (customGeneratorWrap : string -> string)
           (customOperationNameGenerator : option (string -> string -> string))
  : result string :=
  specs <- resolveDiscriminator specs ;;
  let comps := specs$."components" in
  schemas <- generateSchemasDefinition (andThen comps comps$."schemas") ;;
  requestBodies <-
    generateRequestBodiesDefinition (andThen comps comps$."requestBodies") ;;
  responses <-
    generateResponsesDefinition (andThen comps comps$."responses") ;;
  paths <- entries specs$."paths" ;;
  acc <- foldM (assembleRoute specs customOperationNameGenerator) paths
           {| operationIds := []; output := schemas ++ requestBodies ++ responses;
              components := [] |} ;;
  let generatorOutput :=
    match customGenerator with
    | Some generator => String.concat EmptyString (map generator (components acc))
    | None => EmptyString
    end in
  Ok ("/* Generated by oats-generator */" ++ Str.nl ++ "  " ++ Str.nl ++ "    "
      ++ (if Str.nonEmpty customImport
          then Str.nl ++ customImport ++ Str.nl else EmptyString)
      ++ Str.nl ++ Str.nl
      ++ output acc ++ customGeneratorWrap generatorOutput).

End Importer.

Arguments getScalar : simpl never.
Arguments getArray : simpl never.
Arguments getObject : simpl never.
Arguments resolveValue : simpl never.

(** A simple instance of [pascal] for running the importer on concrete
    documents: every maximal run of letters and digits starts with an upper
    case letter and the characters between the runs are dropped.  On the
    plain ASCII identifiers used in the examples below this is the result
    of the [case] package. *)
Definition upper (c : ascii) : ascii :=
  if Str.inRange 97 122 c then ascii_of_nat (nat_of_ascii c - 32) else c.

Fixpoint pascalFrom (start : bool) (s : string) : string :=
  match s with
  | EmptyString => EmptyString
  | String c r =>
      if Str.isLetter c || Str.isDigit c
      then String (if start then upper c else c) (pascalFrom false r)
      else pascalFrom true r
  end.

Definition pascalAscii (s : string) : string := pascalFrom true s.

(* ================================================================== *)
(** ** Example documents *)
(* ================================================================== *)

(** A response that refers to the component response [PetOk], and an
    operation whose only response is that one. *)
Definition petOkResponse : value :=
  VObj [("$ref", VStr "#/components/responses/PetOk")].

Definition petOkResponses : list (string * value) := [("200", petOkResponse)].

(** The response of the specification's example: JSON content whose schema
    refers to the component schema [Pet]. *)
Definition petJsonResponse : value :=
  VObj [("content",
         VObj [("application/json",
                VObj [("schema", VObj [("$ref", VStr "#/components/schemas/Pet")])])])].

(** A path parameter [id] of type integer. *)
Definition idParameter : value :=
  VObj [("name", VStr "id"); ("in", VStr "path"); ("required", VBool true);
        ("schema", VObj [("type", VStr "integer")])].

(** A DELETE operation with that parameter and no response. *)
Definition deletePet : value :=
  VObj [("operationId", VStr "deletePet"); ("parameters", VArr [idParameter]);
        ("responses", VObj [])].

(** The same operation with no parameter at all. *)
Definition deletePetNoParameter : value :=
  VObj [("operationId", VStr "deletePet"); ("responses", VObj [])].

(** Two operations whose identifiers differ as written and are the same in
    PascalCase, and a document with the two of them. *)
Definition getPetCamel : value :=
  VObj [("operationId", VStr "getPet"); ("responses", VObj [])].

Definition getPetSnake : value :=
  VObj [("operationId", VStr "get_pet"); ("responses", VObj [])].

Definition twoSpellings : value :=
  VObj [("paths", VObj [("/pet", VObj [("get", getPetCamel)]);
                        ("/pets", VObj [("get", getPetSnake)])])].

(** A document in which two operations have the identifier [getPet]. *)
Definition twiceGetPet : value :=
  VObj [("paths", VObj [("/pet", VObj [("get", getPetCamel)]);
                        ("/pets", VObj [("get", getPetCamel)])])].

(** The discriminator of the specification's example: [Pet] maps the value
    [dog] of [petType] to the schema [Dog]. *)
Definition petTypeProperty : value := VObj [("type", VStr "string")].

Definition dogSchema : value :=
  VObj [("type", VStr "object"); ("properties", VObj [("petType", petTypeProperty)])].

Definition petSchema (target : string) : value :=
  VObj [("discriminator",
         VObj [("propertyName", VStr "petType");
               ("mapping", VObj [("dog", VStr ("#/components/schemas/" ++ target))])])].

Definition petStore : value :=
  VObj [("components",
         VObj [("schemas", VObj [("Pet", petSchema "Dog"); ("Dog", dogSchema)])])].

(** The same document with the target schema named [My.Dog]; a dot is
    allowed in the name of a component. *)
Definition dottedPetStore : value :=
  VObj [("components",
         VObj [("schemas", VObj [("Pet", petSchema "My.Dog"); ("My.Dog", dogSchema)])])].

(** Array schemas: of a union of [A] and [B], of [A], and with no items. *)
Definition arrayOfUnion : value :=
  VObj [("type", VStr "array");
        ("items", VObj [("oneOf", VArr [VObj [("$ref", VStr "#/components/schemas/A")];
                                        VObj [("$ref", VStr "#/components/schemas/B")]])])].

Definition arrayOfA : value :=
  VObj [("type", VStr "array");
        ("items", VObj [("$ref", VStr "#/components/schemas/A")])].

Definition arrayWithoutItems : value := VObj [("type", VStr "array")].

(** A string schema. *)
Definition stringSchema : value := VObj [("type", VStr "string")].

(* ================================================================== *)
(** ** Vocabulary of the properties *)
(* ================================================================== *)

(** The schemas the specification calls plain records: inline, with no type
    tag or the type [object], with no [allOf], no [oneOf], and not
    nullable. *)
Definition plainRecord (schema : value) : Prop :=
  isReference schema = false
  /\ (truthy schema$."type" = false \/ schema$."type" = VStr "object")
  /\ truthy schema$."allOf" = false
  /\ truthy schema$."oneOf" = false
  /\ truthy schema$."nullable" = false.

(** The content entry a response is typed by: the first one, in the order of
    the keys, whose content type is JSON or an octet stream. *)
Definition firstContent (content : list (string * value))
           (contentType : string) (media : value) : Prop :=
  exists before after,
    content = (before ++ (contentType, media) :: after)%list
    /\ isJsonOrBinary contentType = true
    /\ Forall (fun e => isJsonOrBinary (fst e) = false) before.

Definition noContent (content : list (string * value)) : Prop :=
  Forall (fun e => isJsonOrBinary (fst e) = false) content.

(** An entry [(verb, operation)] of the path item of route [r] that is
    synthesized under the identifier [id], be it declared or generated. *)
Definition operationWithId (generator : option (string -> string -> string))
           (id r : string) (entry : string * value) : Prop :=
  supportedVerb (fst entry) = true
  /\ exists op', operationIdOf (snd entry) (fst entry) r generator = Ok (VStr id, op').

(** An entry [(route, path item)] of the paths with such an operation. *)
Definition routeWithId (generator : option (string -> string -> string))
           (id : string) (entry : string * value) : Prop :=
  exists ops e,
    entries (snd entry) = Ok ops /\ In e ops
    /\ operationWithId generator id (fst entry) e.

(** Two operations of the document are synthesized under the identifier
    [id]: two verbs of one path item, or operations of two path items. *)
Definition duplicatedId (generator : option (string -> string -> string))
           (id : string) (paths : list (string * value)) : Prop :=
  (exists r verbs m1 e1 m2 e2 m3,
      In (r, verbs) paths
      /\ entries verbs = Ok (m1 ++ e1 :: m2 ++ e2 :: m3)%list
      /\ operationWithId generator id r e1
      /\ operationWithId generator id r e2)
  \/ (exists p1 r1 p2 r2 p3,
         paths = (p1 ++ r1 :: p2 ++ r2 :: p3)%list
         /\ routeWithId generator id r1
         /\ routeWithId generator id r2).

(** The state of the assembler in which the identifier [id] is recorded. *)
Definition recordedId (id : string) (acc : assembly) : Prop :=
  existsb (sameValueZero (VStr id)) (operationIds acc) = true.




(** A name that is one key of a lodash path: no dot and no bracket. *)
Definition plainKey (s : string) : bool :=
  Str.all (fun c => negb (Lodash.isPathPunct c)) s.


(** The doc comment of a component definition: none for a reference. *)
Definition definitionDoc (schema : value) : result string :=
  if isReference schema then Ok EmptyString
  else formatDescriptionOf schema$."description" 0.

(** The declaration of an entry of the component schemas: an interface
    whose body is the resolved type of a plain record, a type alias of the
    resolved type of every other schema, after the doc comment. *)
Definition declaration (pascal : string -> string) (entry : string * value)
           (text : string) : Prop :=
  isNullish (snd entry) = false
  /\ exists doc t,
       definitionDoc (snd entry) = Ok doc
       /\ ((plainRecord (snd entry)
            /\ getScalar pascal (snd entry) = Ok t
            /\ text = doc ++ "export interface " ++ pascal (fst entry) ++ " " ++ t)
           \/ (~ plainRecord (snd entry)
               /\ resolveValue pascal (snd entry) = Ok t
               /\ text = doc ++ "export type " ++ pascal (fst entry) ++ " = "
                         ++ t ++ ";")).

(** The text the importer puts before the definitions. *)
Definition banner (customImport : string) : string :=
  "/* Generated by oats-generator */" ++ Str.nl ++ "  " ++ Str.nl ++ "    "
  ++ (if Str.nonEmpty customImport
      then Str.nl ++ customImport ++ Str.nl else EmptyString)
  ++ Str.nl ++ Str.nl.

(** A table of component schemas with an object schema and a string
    schema, and a document with that table and no path. *)
Definition dogAndName : list (string * value) :=
  [("Dog", dogSchema); ("Name", stringSchema)].

Definition dogAndNameDocument : value :=
  VObj [("components", VObj [("schemas", VObj dogAndName)]); ("paths", VObj [])].

(** A computation that does not stop for lack of fuel. *)
Definition terminates {A : Type} (r : result A) : Prop := r <> OutOfFuel.

(** Two candidates for [resolveValue] that agree, or one that terminates,
    on everything strictly below a node. *)
Definition agreeBelow (v : value) (F G : value -> result string) : Prop :=
  forall x, depth x < depth v -> F x = G x.

Definition terminatesBelow (v : value) (F : value -> result string) : Prop :=
  forall x, depth x < depth v -> terminates (F x).

(** With fuel [t] or more, [f] gives one and the same result on [v], and
    that result is not [OutOfFuel]. *)
Definition settled (f : nat -> value -> result string) (t : nat) (v : value)
  : Prop :=
  (forall n m, t <= n -> t <= m -> f n v = f m v)
  /\ (forall n, t <= n -> terminates (f n v)).

(* ================================================================== *)
(** ** Further functions of the importer *)
(* ================================================================== *)

(** The rest of the regular expression of [reactPropsValueToObjectValue] on
    the text that follows the opening brace: any characters with no line
    terminator among them, captured, then a closing brace at the very
    end. *)
Fixpoint matchBraced (s : string) : option string :=
  match s with
  | EmptyString => None
  | String c r =>
      match r with
      | EmptyString => if Ascii.eqb c "}"%char then Some EmptyString else None
      | String _ _ =>
          if Str.lineTerminatorAt s then None
          else match matchBraced r with
               | Some inner => Some (String c inner)
               | None => None
               end
      end
  end.

(** [reactPropsValueToObjectValue]: a text that is an opening brace, a
    line of characters and a closing brace is replaced by what the braces
    enclose (the capture [$1] of the expression); any other text has no
    match and is returned as it is. *)
Definition reactPropsValueToObjectValue (text : string) : string :=
  match text with
  | String c r =>
      if Ascii.eqb c "{"%char then
        match matchBraced r with
        | Some inner => inner
        | None => text
        end
      else text
  | EmptyString => text
  end.

(* ================================================================== *)
(** ** Vocabulary of the further properties *)
(* ================================================================== *)

(** The exceptions of the type resolver. *)
Definition resolverError (e : exn) : Prop :=
  e = unsupportedRef \/ e = missingItems \/ e = TypeError.

Definition throwsResolverErrors (F : value -> result string) : Prop :=
  forall v e, F v = Throw e -> resolverError e.

(** The type tags the scalar resolver knows. *)
Definition knownType (type : value) : bool :=
  isNumericType type || isStr type "boolean" || isStr type "array"
  || isStringType type || isStr type "object".

(** A text with no line break in it. *)
Definition singleLine (s : string) : bool :=
  Str.all (fun c => negb (Ascii.eqb c (ascii_of_nat 10))) s.

(** Schemas of further examples: a nullable string, a file upload as
    Swagger 2 tags it, and a string enumeration. *)
Definition nullableString : value :=
  VObj [("type", VStr "string"); ("nullable", VBool true)].

Definition fileSchema : value := VObj [("type", VStr "file")].

Definition colourSchema : value :=
  VObj [("type", VStr "string"); ("enum", VArr [VStr "red"; VStr "green"])].

(** A dictionary whose values are integers. *)
Definition countersSchema : value :=
  VObj [("type", VStr "object");
        ("additionalProperties", VObj [("type", VStr "integer")])].

(** No identifier of the list is the same value as one recorded before
    it. *)
Definition distinctIds (ids : list value) : Prop :=
  forall before id after,
    ids = (before ++ id :: after)%list ->
    existsb (sameValueZero id) before = false.

(** The state of the assembler in which the identifiers are distinct and
    the components are, in order, those of the identifiers. *)
Definition assembled (pascal : string -> string) (acc : assembly) : Prop :=
  distinctIds (operationIds acc)
  /\ map componentName (components acc)
     = map (fun id => pascal (toString id)) (operationIds acc).

(** An operation with no identifier, and a generator of identifiers. *)
Definition listPets : value := VObj [("responses", VObj [])].

Definition verbAndRoute (verb route : string) : string := verb ++ route.

(** A path parameter whose schema is an array without items. *)
Definition brokenIdParameter : value :=
  VObj [("name", VStr "id"); ("in", VStr "path"); ("required", VBool true);
        ("schema", arrayWithoutItems)].

(** A component schema that is a reference to another one, with a
    description beside the reference. *)
Definition animalAlias : value :=
  VObj [("$ref", VStr "#/components/schemas/Pet");
        ("description", VStr "An animal")].

(** A response with a description and no content. *)
Definition noContentResponse : value := VObj [("description", VStr "Deleted")].

(** A document with no components and no path, and one with no paths
    field. *)
Definition emptyDocument : value :=
  VObj [("openapi", VStr "3.0.0"); ("paths", VObj [])].

Definition noPathsDocument : value := VObj [("openapi", VStr "3.0.0")].

(** A component schema the discriminator propagator passes over: a
    reference, or a node with no discriminator or with a discriminator that
    has no mapping. *)
Definition noMapping (schema : value) : Prop :=
  isReference schema = true
  \/ (isNullish schema = false
      /\ (truthy schema$."discriminator" = false
          \/ truthy schema$."discriminator"$."mapping" = false)).

(** Documents of further examples: one schema and no discriminator, and a
    discriminator that maps a value to a schema of another file. *)
Definition dogStore : value :=
  VObj [("components", VObj [("schemas", VObj [("Dog", dogSchema)])])].

Definition petOfOtherFile : value :=
  VObj [("discriminator",
         VObj [("propertyName", VStr "petType");
               ("mapping", VObj [("dog", VStr "pets.yaml#/components/schemas/Dog")])])].

Definition otherFileStore : value :=
  VObj [("components",
         VObj [("schemas", VObj [("Dog", dogSchema); ("Pet", petOfOtherFile)])])].

(** A text with no line terminator in it. *)
Fixpoint oneLine (s : string) : bool :=
  match s with
  | EmptyString => true
  | String _ r => negb (Str.lineTerminatorAt s) && oneLine r
  end.



(* ================================================================== *)
(** * Properties *)
(* ================================================================== *)

(** ** Results *)

Lemma terminates_Ok {A : Type} (a : A) : terminates (Ok a).
Proof. discriminate. Qed.

Lemma terminates_Throw {A : Type} (e : exn) : terminates (@Throw A e).
Proof. discriminate. Qed.

Lemma terminates_bind {A B : Type} (m : result A) (k : A -> result B) :
  terminates m ->
  (forall a, m = Ok a -> terminates (k a)) ->
  terminates (bind m k).
Proof.
  intros Hm Hk. destruct m as [a | e |]; simpl.
  - apply Hk. reflexivity.
  - discriminate.
  - contradiction Hm. reflexivity.
Qed.

Lemma terminates_mapM {A B : Type} (f : A -> result B) (l : list A) :
  (forall x, In x l -> terminates (f x)) -> terminates (mapM f l).
Proof.
  induction l as [| x r IH]; intros H; simpl.
  - apply terminates_Ok.
  - apply terminates_bind.
    + apply H. left. reflexivity.
    + intros y _. apply terminates_bind.
      * apply IH. intros z Hz. apply H. right. exact Hz.
      * intros ys _. apply terminates_Ok.
Qed.

Lemma mapM_ext {A B : Type} (f g : A -> result B) (l : list A) :
  (forall x, In x l -> f x = g x) -> mapM f l = mapM g l.
Proof.
  induction l as [| x r IH]; intros H; simpl.
  - reflexivity.
  - rewrite (H x (or_introl eq_refl)).
    rewrite IH by (intros z Hz; apply H; right; exact Hz).
    reflexivity.
Qed.

(** ** Strings *)

Lemma append_nil_r (s : string) : s ++ EmptyString = s.
Proof. induction s as [| c r IH]; simpl; [| rewrite IH]; reflexivity. Qed.

Lemma append_assoc (a b c : string) : (a ++ b) ++ c = a ++ b ++ c.
Proof. induction a as [| x r IH]; simpl; [| rewrite IH]; reflexivity. Qed.

Lemma startsWith_append (p r : string) : Str.startsWith (p ++ r) p = true.
Proof.
  induction p as [| c p IH]; simpl.
  - reflexivity.
  - rewrite Ascii.eqb_refl. exact IH.
Qed.

Lemma drop_append (p r : string) : Str.drop (String.length p) (p ++ r) = r.
Proof. induction p as [| c p IH]; simpl; [destruct r |]; auto. Qed.

Lemma replace_unfold (s pat rep : string) :
  Str.replace s pat rep
  = if Str.startsWith s pat then rep ++ Str.drop (String.length pat) s
    else match s with
         | EmptyString => EmptyString
         | String c r => String c (Str.replace r pat rep)
         end.
Proof. destruct s; reflexivity. Qed.

(** Replacing a pattern the string starts with. *)
Lemma replace_prefix (p rep r : string) :
  Str.replace (p ++ r) p rep = rep ++ r.
Proof.
  rewrite replace_unfold, startsWith_append, drop_append. reflexivity.
Qed.

(** ** Depth of the parts of a document *)

Lemma list_max_In (n : nat) (l : list nat) : In n l -> n <= list_max l.
Proof.
  induction l as [| m r IH]; simpl; intros H.
  - contradiction.
  - destruct H as [-> | H].
    + apply Nat.le_max_l.
    + etransitivity; [apply IH, H | apply Nat.le_max_r].
Qed.

Lemma depth_field (k : string) (x : value) (fs : list (string * value)) :
  In (k, x) fs -> depth x < depth (VObj fs).
Proof.
  intros H. simpl. apply Nat.lt_succ_r. apply list_max_In.
  change (depth x) with ((fun kv : string * value => depth (snd kv)) (k, x)).
  apply in_map. exact H.
Qed.

Lemma depth_elem (x : value) (l : list value) :
  In x l -> depth x < depth (VArr l).
Proof.
  intros H. simpl. apply Nat.lt_succ_r. apply list_max_In.
  apply in_map. exact H.
Qed.

Lemma assoc_cases (k : string) (fs : list (string * value)) :
  assoc k fs = VUndefined \/ In (k, assoc k fs) fs.
Proof.
  induction fs as [| [k' v] r IH]; simpl.
  - left. reflexivity.
  - destruct (String.eqb_spec k k') as [-> | Hne].
    + right. left. reflexivity.
    + destruct IH as [IH | IH]; [left | right; right]; exact IH.
Qed.

Lemma get_cases (v : value) (k : string) :
  v$.k = VUndefined \/ depth v$.k < depth v.
Proof.
  destruct v as [| | b | n | s | l | fs]; try (left; reflexivity).
  simpl field. destruct (assoc_cases k fs) as [H | H].
  - left. exact H.
  - right. eapply depth_field. exact H.
Qed.

Lemma get_truthy_depth (v : value) (k : string) :
  truthy v$.k = true -> depth v$.k < depth v.
Proof.
  intros H. destruct (get_cases v k) as [E | E].
  - rewrite E in H. discriminate.
  - exact E.
Qed.

Lemma depth_chars (s : string) (x : value) : In x (chars s) -> depth x = 0.
Proof.
  unfold chars. intros H. apply in_map_iff in H.
  destruct H as [c [<- _]]. reflexivity.
Qed.

Lemma indexed_In {A : Type} (l : list A) (k : string) (x : A) :
  In (k, x) (indexed l) -> In x l.
Proof. unfold indexed. apply in_combine_r. Qed.

Lemma depth_entries (c : value) (es : list (string * value)) (k : string) (x : value) :
  entries c = Ok es -> In (k, x) es -> depth x <= depth c.
Proof.
  destruct c as [| | b | n | s | l | fs]; simpl; intros E H;
    try discriminate; injection E as <-.
  - contradiction.
  - contradiction.
  - apply indexed_In in H. rewrite (depth_chars _ _ H). apply Nat.le_0_l.
  - apply indexed_In in H. apply Nat.lt_le_incl. apply depth_elem. exact H.
  - apply Nat.lt_le_incl. eapply depth_field. exact H.
Qed.

(** ** The resolver needs no more fuel than it is given *)

Section ResolverFuel.

Variable pascal : string -> string.

Lemma terminates_getRef (ref : string) : terminates (getRef pascal ref).
Proof.
  unfold getRef, terminates.
  repeat match goal with
         | |- context [if ?b then _ else _] => destruct b
         end; discriminate.
Qed.

Lemma terminates_getRefOf (ref : value) : terminates (getRefOf pascal ref).
Proof.
  destruct ref; simpl; try discriminate. apply terminates_getRef.
Qed.

Lemma terminates_getProp (v : value) (k : string) : terminates (getProp v k).
Proof. unfold getProp. destruct (isNullish v); discriminate. Qed.

Lemma terminates_entries (v : value) : terminates (entries v).
Proof. destruct v; discriminate. Qed.

Lemma terminates_formatDescriptionOf (d : value) (n : nat) :
  terminates (formatDescriptionOf d n).
Proof.
  unfold formatDescriptionOf. destruct (truthy d); [destruct d |]; discriminate.
Qed.

Lemma terminates_includesKey (v : value) (k : string) :
  terminates (includesKey v k).
Proof. destruct v; discriminate. Qed.

Lemma terminates_enumUnion (v : value) : terminates (enumUnion v).
Proof. destruct v; discriminate. Qed.

Lemma getArray_body_ext (F G : value -> result string) (item : value) :
  agreeBelow item F G -> getArray_body F item = getArray_body G item.
Proof.
  intros H. unfold getArray_body.
  destruct (truthy item$."items") eqn:E; [| reflexivity].
  rewrite (H _ (get_truthy_depth _ _ E)). reflexivity.
Qed.

Lemma getArray_body_terminates (F : value -> result string) (item : value) :
  terminatesBelow item F -> terminates (getArray_body F item).
Proof.
  intros H. unfold getArray_body.
  destruct (truthy item$."items") eqn:E; [| discriminate].
  destruct (_ && _); (apply terminates_bind;
    [apply H, get_truthy_depth, E | intros; apply terminates_Ok]).
Qed.

Lemma arrayMap_ext (F G : value -> result string) (item : value) (k : string) :
  agreeBelow item F G -> arrayMap F item$.k = arrayMap G item$.k.
Proof.
  intros H. destruct (get_cases item k) as [E | E].
  - rewrite E. reflexivity.
  - destruct item$.k as [| | b | n | s | l | fs]; try reflexivity.
    simpl. apply mapM_ext. intros x Hx. apply H.
    etransitivity; [apply depth_elem, Hx | exact E].
Qed.

Lemma arrayMap_terminates (F : value -> result string) (item : value) (k : string) :
  terminatesBelow item F -> terminates (arrayMap F item$.k).
Proof.
  intros H. destruct (get_cases item k) as [E | E].
  - rewrite E. discriminate.
  - destruct item$.k as [| | b | n | s | l | fs]; try discriminate.
    simpl. apply terminates_mapM. intros x Hx. apply H.
    etransitivity; [apply depth_elem, Hx | exact E].
Qed.

Lemma propertyLine_ext (F G : value -> result string) (item : value)
      (key : string) (prop : value) :
  F prop = G prop ->
  propertyLine F item (key, prop) = propertyLine G item (key, prop).
Proof. intros H. unfold propertyLine. rewrite H. reflexivity. Qed.

Lemma propertyLine_terminates (F : value -> result string) (item : value)
      (key : string) (prop : value) :
  terminates (F prop) -> terminates (propertyLine F item (key, prop)).
Proof.
  intros H. unfold propertyLine.
  apply terminates_bind.
  - destruct (isReference prop); [discriminate |].
    apply terminates_bind; [apply terminates_getProp |].
    intros; apply terminates_formatDescriptionOf.
  - intros doc _. apply terminates_bind.
    + destruct (truthy _); [apply terminates_includesKey | discriminate].
    + intros req _. apply terminates_bind; [exact H |].
      intros; apply terminates_Ok.
Qed.

Lemma properties_below (item : value) (k key : string) (prop : value)
      (es : list (string * value)) :
  truthy item$.k = true -> entries item$.k = Ok es -> In (key, prop) es ->
  depth prop < depth item.
Proof.
  intros Ht E H.
  eapply Nat.le_lt_trans; [eapply depth_entries; eassumption |].
  apply get_truthy_depth, Ht.
Qed.

Lemma getObject_body_ext (F G : value -> result string) (item : value) :
  agreeBelow item F G ->
  getObject_body pascal F item = getObject_body pascal G item.
Proof.
  intros H. unfold getObject_body.
  rewrite (arrayMap_ext F G item "allOf" H), (arrayMap_ext F G item "oneOf" H).
  replace (if truthy item$."properties"
           then es <- entries item$."properties";;
                ls <- mapM (propertyLine F item) es;;
                Ok ("{" ++ Str.nl ++ Str.join Str.nl ls)
           else Ok ("{" ++ Str.nl))
    with (if truthy item$."properties"
          then es <- entries item$."properties";;
               ls <- mapM (propertyLine G item) es;;
               Ok ("{" ++ Str.nl ++ Str.join Str.nl ls)
          else Ok ("{" ++ Str.nl)).
  2:{ destruct (truthy item$."properties") eqn:Ep; [| reflexivity].
      destruct (entries item$."properties") as [es | e |] eqn:Ee; try reflexivity.
      simpl. erewrite mapM_ext; [reflexivity |].
      intros [key prop] Hin. apply propertyLine_ext. symmetry. apply H.
      eapply properties_below; eassumption. }
  destruct (truthy item$."additionalProperties") eqn:Ea; [| reflexivity].
  rewrite (H _ (get_truthy_depth _ _ Ea)). reflexivity.
Qed.

Lemma getObject_body_terminates (F : value -> result string) (item : value) :
  terminatesBelow item F -> terminates (getObject_body pascal F item).
Proof.
  intros H. unfold getObject_body.
  destruct (isReference item); [apply terminates_getRefOf |].
  destruct (truthy item$."allOf").
  { apply terminates_bind; [apply arrayMap_terminates, H |].
    intros; apply terminates_Ok. }
  destruct (truthy item$."oneOf").
  { apply terminates_bind; [apply arrayMap_terminates, H |].
    intros; apply terminates_Ok. }
  destruct (_ && _); [discriminate |].
  destruct (_ && _); [discriminate |].
  apply terminates_bind.
  - destruct (truthy item$."properties") eqn:Ep; [| discriminate].
    apply terminates_bind; [apply terminates_entries |].
    intros es Ee. apply terminates_bind; [| intros; apply terminates_Ok].
    apply terminates_mapM. intros [key prop] Hin.
    apply propertyLine_terminates, H.
    eapply properties_below; eassumption.
  - intros out1 _. apply terminates_bind.
    + destruct (truthy item$."additionalProperties") eqn:Ea; [| discriminate].
      apply terminates_bind; [| intros; apply terminates_Ok].
      destruct (isTrue _); [discriminate |].
      apply H, get_truthy_depth, Ea.
    + intros out2 _.
      destruct (_ || _); [destruct (String.eqb _ _) |]; discriminate.
Qed.

Lemma getScalar_body_ext (A A' O O' : value -> result string) (item : value) :
  A item = A' item -> O item = O' item ->
  getScalar_body A O item = getScalar_body A' O' item.
Proof. intros HA HO. unfold getScalar_body. rewrite HA, HO. reflexivity. Qed.

Lemma getScalar_body_terminates (A O : value -> result string) (item : value) :
  terminates (A item) -> terminates (O item) ->
  terminates (getScalar_body A O item).
Proof.
  intros HA HO. unfold getScalar_body.
  destruct (negb (truthy item)); [discriminate |].
  destruct (isNumericType _); [discriminate |].
  destruct (isStr _ "boolean"); [discriminate |].
  destruct (isStr _ "array").
  { apply terminates_bind; [exact HA | intros; apply terminates_Ok]. }
  destruct (isStringType _).
  { apply terminates_bind; [| intros; apply terminates_Ok].
    destruct (truthy _); [apply terminates_enumUnion | discriminate]. }
  apply terminates_bind; [exact HO | intros; apply terminates_Ok].
Qed.

Lemma resolveValue_body_ext (S S' : value -> result string) (schema : value) :
  S schema = S' schema ->
  resolveValue_body pascal S schema = resolveValue_body pascal S' schema.
Proof. intros H. unfold resolveValue_body. rewrite H. reflexivity. Qed.

Lemma resolveValue_body_terminates (S : value -> result string) (schema : value) :
  terminates (S schema) -> terminates (resolveValue_body pascal S schema).
Proof.
  intros H. unfold resolveValue_body.
  destruct (isReference schema); [apply terminates_getRefOf | exact H].
Qed.

Lemma settled_array (t : nat) (item : value) :
  (forall x, depth x < depth item -> settled (resolveValue_fuel pascal) t x) ->
  settled (getArray_fuel pascal) (S t) item.
Proof.
  intros H. split.
  - intros [| n] [| m] Hn Hm; try lia. simpl.
    apply getArray_body_ext. intros x Hx. apply (H x Hx); lia.
  - intros [| n] Hn; try lia. simpl.
    apply getArray_body_terminates. intros x Hx. apply (H x Hx); lia.
Qed.

Lemma settled_object (t : nat) (item : value) :
  (forall x, depth x < depth item -> settled (resolveValue_fuel pascal) t x) ->
  settled (getObject_fuel pascal) (S t) item.
Proof.
  intros H. split.
  - intros [| n] [| m] Hn Hm; try lia. simpl.
    apply getObject_body_ext. intros x Hx. apply (H x Hx); lia.
  - intros [| n] Hn; try lia. simpl.
    apply getObject_body_terminates. intros x Hx. apply (H x Hx); lia.
Qed.

Lemma settled_scalar (t : nat) (item : value) :
  settled (getArray_fuel pascal) t item ->
  settled (getObject_fuel pascal) t item ->
  settled (getScalar_fuel pascal) (S t) item.
Proof.
  intros [HA HA'] [HO HO']. split.
  - intros [| n] [| m] Hn Hm; try lia. simpl.
    apply getScalar_body_ext; [apply HA | apply HO]; lia.
  - intros [| n] Hn; try lia. simpl.
    apply getScalar_body_terminates; [apply HA' | apply HO']; lia.
Qed.

Lemma settled_resolve (t : nat) (schema : value) :
  settled (getScalar_fuel pascal) t schema ->
  settled (resolveValue_fuel pascal) (S t) schema.
Proof.
  intros [HS HS']. split.
  - intros [| n] [| m] Hn Hm; try lia. simpl.
    apply resolveValue_body_ext, HS; lia.
  - intros [| n] Hn; try lia. simpl.
    apply resolveValue_body_terminates, HS'; lia.
Qed.

Lemma settled_below (d : nat) :
  forall v, depth v < d -> settled (resolveValue_fuel pascal) (3 * d) v.
Proof.
  induction d as [| d IH]; intros v Hv; [lia |].
  assert (Hc : forall x, depth x < depth v ->
                         settled (resolveValue_fuel pascal) (3 * d) x).
  { intros x Hx. apply IH. lia. }
  replace (3 * S d) with (S (S (S (3 * d)))) by lia.
  apply settled_resolve, settled_scalar;
    [apply settled_array | apply settled_object]; exact Hc.
Qed.

Lemma resolveValue_settled (v : value) :
  settled (resolveValue_fuel pascal) (fuelFor v) v.
Proof. apply settled_below. lia. Qed.

Lemma children_settled (v x : value) :
  depth x < depth v -> settled (resolveValue_fuel pascal) (3 * depth v) x.
Proof. intros H. apply settled_below. exact H. Qed.

Lemma getArray_settled (v : value) :
  settled (getArray_fuel pascal) (S (3 * depth v)) v.
Proof. apply settled_array. intros x Hx. apply children_settled, Hx. Qed.

Lemma getObject_settled (v : value) :
  settled (getObject_fuel pascal) (S (3 * depth v)) v.
Proof. apply settled_object. intros x Hx. apply children_settled, Hx. Qed.

Lemma getScalar_settled (v : value) :
  settled (getScalar_fuel pascal) (S (S (3 * depth v))) v.
Proof.
  apply settled_scalar; [apply getArray_settled | apply getObject_settled].
Qed.

(** *** Totality *)

Lemma resolveValue_terminates (schema : value) :
  terminates (resolveValue pascal schema).
Proof. apply (resolveValue_settled schema). apply Nat.le_refl. Qed.

Lemma getScalar_terminates (item : value) : terminates (getScalar pascal item).
Proof. apply (getScalar_settled item). unfold fuelFor. lia. Qed.

Lemma getArray_terminates (item : value) : terminates (getArray pascal item).
Proof. apply (getArray_settled item). unfold fuelFor. lia. Qed.

Lemma getObject_terminates (item : value) : terminates (getObject pascal item).
Proof. apply (getObject_settled item). unfold fuelFor. lia. Qed.

(** *** The equations of the source *)

Lemma resolveValue_fuel_enough (n : nat) (x : value) :
  fuelFor x <= n -> resolveValue_fuel pascal n x = resolveValue pascal x.
Proof.
  intros H. apply (resolveValue_settled x); [exact H | apply Nat.le_refl].
Qed.

Lemma getArray_eq (item : value) :
  getArray pascal item = getArray_body (resolveValue pascal) item.
Proof.
  unfold getArray, fuelFor. simpl.
  apply getArray_body_ext. intros x Hx.
  apply resolveValue_fuel_enough. unfold fuelFor. lia.
Qed.

Lemma getObject_eq (item : value) :
  getObject pascal item = getObject_body pascal (resolveValue pascal) item.
Proof.
  unfold getObject, fuelFor. simpl.
  apply getObject_body_ext. intros x Hx.
  apply resolveValue_fuel_enough. unfold fuelFor. lia.
Qed.

Lemma getScalar_eq (item : value) :
  getScalar pascal item
  = getScalar_body (getArray pascal) (getObject pascal) item.
Proof.
  unfold getScalar, fuelFor. simpl.
  apply getScalar_body_ext.
  - apply (getArray_settled item); unfold fuelFor; lia.
  - apply (getObject_settled item); unfold fuelFor; lia.
Qed.

Lemma resolveValue_eq (schema : value) :
  resolveValue pascal schema = resolveValue_body pascal (getScalar pascal) schema.
Proof.
  unfold resolveValue, fuelFor. simpl.
  apply resolveValue_body_ext.
  apply (getScalar_settled schema); unfold fuelFor; lia.
Qed.

End ResolverFuel.

(* ================================================================== *)
(** ** Scalar and array resolution *)
(* ================================================================== *)

(** What [getScalar] appends to the type of a nullable schema. *)
Lemma getScalar_array (pascal : string -> string) (item : value) :
  truthy item = true -> isStr item$."type" "array" = true ->
  getScalar pascal item
  = (t <- getArray pascal item ;;
     Ok (t ++ (if truthy item$."nullable" then " | null" else EmptyString))).
Proof.
  intros Ht Ha. rewrite getScalar_eq. unfold getScalar_body.
  rewrite Ht. simpl negb. cbv iota.
  assert (Hn : isNumericType item$."type" = false).
  { destruct item$."type"; try discriminate.
    apply String.eqb_eq in Ha. subst. reflexivity. }
  assert (Hb : isStr item$."type" "boolean" = false).
  { destruct item$."type"; try discriminate.
    apply String.eqb_eq in Ha. subst. reflexivity. }
  rewrite Hn, Hb, Ha. reflexivity.
Qed.

(** C10: on [null] and on [undefined], [getScalar] returns the empty string,
    not a type name and not an error; so does [resolveValue], the public
    entry of the resolver, when the schema is missing. *)
Theorem C10_getScalar_of_missing_schema (pascal : string -> string) :
  getScalar pascal VNull = Ok EmptyString
  /\ getScalar pascal VUndefined = Ok EmptyString
  /\ resolveValue pascal VNull = Ok EmptyString
  /\ resolveValue pascal VUndefined = Ok EmptyString.
Proof. repeat split; reflexivity. Qed.

(** C9: an array schema without [items] makes [getArray], and [getScalar]
    through it, throw the error that asks for an [items] key; with [items]
    present the outcome of both is the outcome of resolving [items], so they
    succeed as soon as the element type resolves. *)
Theorem C9_array_without_items_throws (pascal : string -> string) (item : value) :
  truthy item = true ->
  isStr item$."type" "array" = true ->
  (truthy item$."items" = false ->
   getArray pascal item = Throw missingItems
   /\ getScalar pascal item = Throw missingItems)
  /\ (truthy item$."items" = true ->
      forall t, resolveValue pascal item$."items" = Ok t ->
                exists s, getArray pascal item = Ok s
                          /\ exists s', getScalar pascal item = Ok s').
Proof.
  intros Ht Ha. rewrite (getScalar_array pascal item Ht Ha), getArray_eq.
  unfold getArray_body. split; intros Hi; rewrite Hi.
  - split; reflexivity.
  - intros t Hr. rewrite Hr.
    destruct (_ && _); simpl; eexists; (split; [reflexivity | eexists; reflexivity]).
Qed.

(** An array without items throws; an array of references to [A] is [A[]]
    and is [A[] | null] when nullable. *)
Lemma C9_array_without_items_throws_witness :
  getArray pascalAscii arrayWithoutItems = Throw missingItems
  /\ getScalar pascalAscii arrayWithoutItems = Throw missingItems
  /\ isOk (getArray pascalAscii arrayOfA) = true
  /\ isOk (getScalar pascalAscii arrayOfA) = true.
Proof.
  destruct (C9_array_without_items_throws pascalAscii arrayWithoutItems
              eq_refl eq_refl) as [H _].
  destruct (H eq_refl) as [-> ->].
  destruct (C9_array_without_items_throws pascalAscii arrayOfA
              eq_refl eq_refl) as [_ H'].
  destruct (H' eq_refl "A" eq_refl) as (s & -> & s' & ->).
  repeat split.
Defined.

(** C7: when [items] is an inline schema with a truthy [oneOf], [allOf] or
    [enum], the resolved element type is put in parentheses before the array
    suffix; for every other [items] (a reference, or an inline schema with
    none of the three) the suffix follows the element type directly.  Items
    [{oneOf: [A, B]}] give [(A | B)[]]. *)
Theorem C7_array_items_parenthesised (pascal : string -> string) (item : value) :
  let items := item$."items" in
  truthy items = true ->
  (isReference items = false ->
   truthy items$."oneOf" || truthy items$."allOf" || truthy items$."enum" = true ->
   getArray pascal item = (t <- resolveValue pascal items ;; Ok ("(" ++ t ++ ")[]")))
  /\ (isReference items = true
      \/ truthy items$."oneOf" || truthy items$."allOf" || truthy items$."enum" = false ->
      getArray pascal item = (t <- resolveValue pascal items ;; Ok (t ++ "[]")))
  /\ getArray pascal arrayOfUnion
     = Ok ("(" ++ (pascal "A" ++ " | " ++ pascal "B") ++ ")[]").
Proof.
  intros items Hi. split; [| split].
  - intros Hr Hc. rewrite getArray_eq. unfold getArray_body. fold items.
    rewrite Hi, Hr, Hc. reflexivity.
  - intros H. rewrite getArray_eq. unfold getArray_body. fold items.
    rewrite Hi. destruct H as [Hr | Hc]; [rewrite Hr | rewrite Hc, andb_false_r];
      reflexivity.
  - transitivity (Ok ("(" ++ ((pascal "A" ++ " | " ++ pascal "B") ++ EmptyString) ++ ")[]"));
      [reflexivity | rewrite append_nil_r; reflexivity].
Qed.

(** The array of the specification's example, and an array of
    references. *)
Lemma C7_array_items_parenthesised_witness :
  getArray pascalAscii arrayOfUnion = Ok "(A | B)[]"
  /\ getArray pascalAscii arrayOfA = Ok "A[]".
Proof.
  destruct (C7_array_items_parenthesised pascalAscii arrayOfUnion eq_refl)
    as (H1 & _ & _).
  destruct (C7_array_items_parenthesised pascalAscii arrayOfA eq_refl)
    as (_ & H2 & _).
  rewrite (H1 eq_refl eq_refl), (H2 (or_introl eq_refl)). split; reflexivity.
Defined.

(* ================================================================== *)
(** ** Reference resolver *)
(* ================================================================== *)

Lemma getRef_schemas (pascal : string -> string) (name : string) :
  getRef pascal ("#/components/schemas/" ++ name) = Ok (pascal name).
Proof.
  unfold getRef.
  replace (Str.startsWith ("#/components/schemas/" ++ name) "#/components/schemas")
    with true by reflexivity.
  rewrite replace_prefix. reflexivity.
Qed.

Lemma getRef_responses (pascal : string -> string) (name : string) :
  getRef pascal ("#/components/responses/" ++ name) = Ok (pascal name ++ "Response").
Proof.
  unfold getRef.
  replace (Str.startsWith ("#/components/responses/" ++ name) "#/components/schemas")
    with false by reflexivity.
  replace (Str.startsWith ("#/components/responses/" ++ name) "#/components/responses")
    with true by reflexivity.
  rewrite replace_prefix. reflexivity.
Qed.

Lemma getRef_parameters (pascal : string -> string) (name : string) :
  getRef pascal ("#/components/parameters/" ++ name) = Ok (pascal name ++ "Parameter").
Proof.
  unfold getRef.
  replace (Str.startsWith ("#/components/parameters/" ++ name) "#/components/schemas")
    with false by reflexivity.
  replace (Str.startsWith ("#/components/parameters/" ++ name) "#/components/responses")
    with false by reflexivity.
  replace (Str.startsWith ("#/components/parameters/" ++ name) "#/components/parameters")
    with true by reflexivity.
  rewrite replace_prefix. reflexivity.
Qed.

Lemma getRef_requestBodies (pascal : string -> string) (name : string) :
  getRef pascal ("#/components/requestBodies/" ++ name)
  = Ok (pascal name ++ "RequestBody").
Proof.
  unfold getRef.
  replace (Str.startsWith ("#/components/requestBodies/" ++ name) "#/components/schemas")
    with false by reflexivity.
  replace (Str.startsWith ("#/components/requestBodies/" ++ name) "#/components/responses")
    with false by reflexivity.
  replace (Str.startsWith ("#/components/requestBodies/" ++ name) "#/components/parameters")
    with false by reflexivity.
  replace (Str.startsWith ("#/components/requestBodies/" ++ name) "#/components/requestBodies")
    with true by reflexivity.
  rewrite replace_prefix. reflexivity.
Qed.

(** A pointer that starts with none of the four roots is refused. *)
Lemma getRef_unsupported (pascal : string -> string) (ref : string) :
  Str.startsWith ref "#/components/schemas" = false ->
  Str.startsWith ref "#/components/responses" = false ->
  Str.startsWith ref "#/components/parameters" = false ->
  Str.startsWith ref "#/components/requestBodies" = false ->
  getRef pascal ref = Throw unsupportedRef.
Proof. intros H1 H2 H3 H4. unfold getRef. rewrite H1, H2, H3, H4. reflexivity. Qed.

(** C2: the pointer [#/components/schemasX/Foo] is rooted at none of the
    four kinds, yet [getRef] does not throw: the test for the schemas root
    leaves out the final slash of the prefix that is stripped, so the pointer
    passes the test, nothing is stripped, and the whole pointer is
    converted. *)
Theorem C2_getRef_accepts_sibling_root (pascal : string -> string) :
  Str.startsWith "#/components/schemasX/Foo" "#/components/schemas/" = false
  /\ getRef pascal "#/components/schemasX/Foo"
     = Ok (pascal "#/components/schemasX/Foo").
Proof. split; reflexivity. Qed.

(* ================================================================== *)
(** ** Component schema definitions *)
(* ================================================================== *)

Lemma isStr_true (v : value) (lit : string) : isStr v lit = true <-> v = VStr lit.
Proof.
  destruct v; simpl; split; intros H; try discriminate.
  - apply String.eqb_eq in H. subst. reflexivity.
  - injection H as ->. apply String.eqb_refl.
Qed.

Lemma isStr_falsy (v : value) (lit : string) :
  truthy v = false -> Str.nonEmpty lit = true -> isStr v lit = false.
Proof.
  destruct v; simpl; intros Hv Hl; try reflexivity.
  destruct s; [| discriminate]. destruct lit; [discriminate | reflexivity].
Qed.

Lemma append_inj_l (a b c : string) : a ++ b = a ++ c -> b = c.
Proof.
  induction a as [| x a IH]; simpl; intros H; [exact H |].
  injection H as H. apply IH, H.
Qed.

(** The test of the source decides [plainRecord]. *)
Lemma isPlainObjectSchema_spec (schema : value) :
  isNullish schema = false ->
  exists b, isPlainObjectSchema schema = Ok b /\ (b = true <-> plainRecord schema).
Proof.
  intros Hn. unfold isPlainObjectSchema, plainRecord, getProp. rewrite Hn.
  destruct (isReference schema) eqn:Hr.
  - exists false. split; [reflexivity |]. split; [discriminate |].
    intros [H _]. discriminate.
  - simpl. eexists. split; [reflexivity |].
    rewrite !andb_true_iff, orb_true_iff, !negb_true_iff, isStr_true.
    tauto.
Qed.

(** A plain record is resolved by [getObject], with no nullable suffix. *)
Lemma getScalar_plainRecord (pascal : string -> string) (schema : value) :
  truthy schema = true -> plainRecord schema ->
  getScalar pascal schema = (t <- getObject pascal schema ;; Ok (t ++ EmptyString)).
Proof.
  intros Ht (_ & Hty & _ & _ & Hnull).
  rewrite getScalar_eq. unfold getScalar_body. rewrite Ht, Hnull. simpl negb. cbv iota.
  assert (E : isNumericType schema$."type" = false
              /\ isStr schema$."type" "boolean" = false
              /\ isStr schema$."type" "array" = false
              /\ isStringType schema$."type" = false).
  { destruct Hty as [Hty | Hty].
    - unfold isNumericType, isStringType.
      rewrite !(isStr_falsy _ _ Hty) by reflexivity. repeat split; reflexivity.
    - rewrite Hty. repeat split; reflexivity. }
  destruct E as (E1 & E2 & E3 & E4). rewrite E1, E2, E3, E4. reflexivity.
Qed.

Lemma startsWith_brace_append (a b : string) :
  Str.startsWith a "{" = true -> Str.startsWith (a ++ b) "{" = true.
Proof.
  destruct a as [| c a]; [discriminate |].
  cbn [Str.startsWith append]. intros H. exact H.
Qed.

(** The type of a plain record opens with a brace. *)
Lemma getObject_plainRecord_brace (pascal : string -> string) (schema : value)
      (t : string) :
  plainRecord schema -> getObject pascal schema = Ok t ->
  Str.startsWith t "{" = true.
Proof.
  intros (Hr & Hty & Hall & Hone & _). rewrite getObject_eq.
  unfold getObject_body. rewrite Hr, Hall, Hone.
  destruct (negb (truthy schema$."type") && negb (truthy schema$."properties")
            && negb (truthy schema$."additionalProperties")) eqn:Hempty;
    [intros H; injection H as <-; reflexivity |].
  match goal with
  | |- (if ?b then _ else _) = _ -> _ =>
      destruct b; [intros H; injection H as <-; reflexivity |]
  end.
  match goal with
  | |- bind ?m _ = _ -> _ =>
      assert (H1 : forall o, m = Ok o -> Str.startsWith o "{" = true);
      [| destruct m as [o1 | |]; try discriminate; specialize (H1 o1 eq_refl) ]
  end.
  { destruct (truthy schema$."properties"); intros o H.
    - destruct (entries _); try discriminate. simpl in H.
      destruct (mapM _ _); try discriminate. injection H as <-. reflexivity.
    - injection H as <-. reflexivity. }
  cbn [bind].
  match goal with
  | |- bind ?m _ = _ -> _ =>
      assert (H2 : forall o, m = Ok o -> Str.startsWith o "{" = true);
      [| destruct m as [o2 | |]; try discriminate; specialize (H2 o2 eq_refl) ]
  end.
  { destruct (truthy schema$."additionalProperties"); intros o H.
    - match type of H with bind ?m _ = _ => destruct m; try discriminate end.
      injection H as <-.
      destruct (truthy schema$."properties");
        repeat apply startsWith_brace_append; exact H1.
    - injection H as <-. exact H1. }
  cbn [bind].
  destruct (truthy schema$."properties" || truthy schema$."additionalProperties") eqn:Hpa.
  - destruct (String.eqb _ _); intros H; injection H as <-;
      [reflexivity | apply startsWith_brace_append, H2].
  - apply orb_false_iff in Hpa. destruct Hpa as [Hp Ha].
    destruct Hty as [Hty | Hty].
    + rewrite Hty, Hp, Ha in Hempty. discriminate.
    + rewrite Hty. intros H; injection H as <-; reflexivity.
Qed.

Lemma field_isObject (v : value) (k : string) :
  v$.k <> VUndefined -> exists fs, v = VObj fs.
Proof.
  destruct v; cbn [field]; intros H; try (exfalso; apply H; reflexivity).
  eexists. reflexivity.
Qed.

(** The doc comment as the source computes it. *)
Lemma definitionDoc_source (schema : value) :
  isNullish schema = false ->
  (if isReference schema then Ok EmptyString
   else d <- getProp schema "description" ;; formatDescriptionOf d 0)
  = definitionDoc schema.
Proof. intros Hn. unfold definitionDoc, getProp. rewrite Hn. reflexivity. Qed.

Lemma schemaDefinition_nullish (pascal : string -> string) (name : string)
      (schema : value) :
  isNullish schema = true ->
  schemaDefinition pascal (name, schema) = Throw TypeError.
Proof. destruct schema; try discriminate; reflexivity. Qed.

Lemma schemaDefinition_plain (pascal : string -> string) (name : string)
      (schema : value) :
  isNullish schema = false -> plainRecord schema ->
  schemaDefinition pascal (name, schema)
  = (t <- getScalar pascal schema ;;
     doc <- definitionDoc schema ;;
     Ok (doc ++ "export interface " ++ pascal name ++ " " ++ t)).
Proof.
  intros Hn Hp. destruct (isPlainObjectSchema_spec schema Hn) as (b & Hb & Hiff).
  unfold schemaDefinition. rewrite Hb.
  replace b with true by (symmetry; apply Hiff, Hp). cbn [bind].
  unfold generateInterface. rewrite <- (definitionDoc_source _ Hn).
  destruct Hp as (Hr & _). rewrite Hr.
  destruct (getScalar pascal schema); cbn [bind]; try reflexivity.
  destruct (getProp schema "description"); reflexivity.
Qed.

Lemma schemaDefinition_other (pascal : string -> string) (name : string)
      (schema : value) :
  isNullish schema = false -> ~ plainRecord schema ->
  schemaDefinition pascal (name, schema)
  = (doc <- definitionDoc schema ;;
     t <- resolveValue pascal schema ;;
     Ok (doc ++ "export type " ++ pascal name ++ " = " ++ t ++ ";")).
Proof.
  intros Hn Hp. destruct (isPlainObjectSchema_spec schema Hn) as (b & Hb & Hiff).
  unfold schemaDefinition. rewrite Hb.
  replace b with false
    by (destruct b; [contradiction Hp; apply Hiff; reflexivity | reflexivity]).
  cbn [bind]. rewrite (definitionDoc_source _ Hn). reflexivity.
Qed.

(** The callback of [generateSchemasDefinition] gives the declaration of
    the entry, and nothing else. *)
Lemma schemaDefinition_declaration (pascal : string -> string)
      (entry : string * value) (text : string) :
  schemaDefinition pascal entry = Ok text <-> declaration pascal entry text.
Proof.
  destruct entry as [name schema]. unfold declaration. cbn [fst snd].
  destruct (isNullish schema) eqn:Hn.
  { rewrite (schemaDefinition_nullish _ _ _ Hn).
    split; [discriminate | intros [H _]; discriminate H]. }
  destruct (isPlainObjectSchema_spec schema Hn) as (b & Hb & Hiff).
  assert (Hdec : plainRecord schema \/ ~ plainRecord schema).
  { destruct b; [left; apply Hiff; reflexivity |].
    right. intros Hp. apply Hiff in Hp. discriminate Hp. }
  split.
  - intros H. split; [reflexivity |]. destruct Hdec as [Hp | Hp].
    + rewrite (schemaDefinition_plain _ _ _ Hn Hp) in H.
      destruct (getScalar pascal schema) as [t | |]; cbn [bind] in H;
        try discriminate H.
      destruct (definitionDoc schema) as [doc | |]; cbn [bind] in H;
        try discriminate H.
      injection H as <-. exists doc, t. split; [reflexivity |].
      left. split; [exact Hp | split; reflexivity].
    + rewrite (schemaDefinition_other _ _ _ Hn Hp) in H.
      destruct (definitionDoc schema) as [doc | |]; cbn [bind] in H;
        try discriminate H.
      destruct (resolveValue pascal schema) as [t | |]; cbn [bind] in H;
        try discriminate H.
      injection H as <-. exists doc, t. split; [reflexivity |].
      right. split; [exact Hp | split; reflexivity].
  - intros (_ & doc & t & Hdoc & [(Hp & Ht & ->) | (Hp & Ht & ->)]).
    + rewrite (schemaDefinition_plain _ _ _ Hn Hp), Ht, Hdoc. reflexivity.
    + rewrite (schemaDefinition_other _ _ _ Hn Hp), Hdoc, Ht. reflexivity.
Qed.

Lemma mapM_Forall2 {A B : Type} (f : A -> result B) (l : list A) (ys : list B) :
  mapM f l = Ok ys <-> Forall2 (fun x y => f x = Ok y) l ys.
Proof.
  revert ys. induction l as [| x r IH]; intros ys; cbn [mapM].
  - split.
    + intros H. injection H as <-. constructor.
    + intros H. inversion H. reflexivity.
  - split.
    + intros H. destruct (f x) as [y | |] eqn:E; cbn [bind] in H;
        try discriminate H.
      destruct (mapM f r) as [ys' | |] eqn:E'; cbn [bind] in H;
        try discriminate H.
      injection H as <-. constructor; [exact E | apply IH; reflexivity].
    + intros H. inversion H as [| ? y ? ys' Hx Hr]; subst.
      rewrite Hx. cbn [bind]. apply IH in Hr. rewrite Hr. reflexivity.
Qed.

(** The interface of a plain record that is not a falsy value has a body
    that opens with a brace. *)
Lemma plainRecord_body_brace (pascal : string -> string) (schema : value)
      (t : string) :
  truthy schema = true -> plainRecord schema ->
  getScalar pascal schema = Ok t -> Str.startsWith t "{" = true.
Proof.
  intros Ht Hp Hs. rewrite (getScalar_plainRecord pascal schema Ht Hp) in Hs.
  destruct (getObject pascal schema) as [o | |] eqn:Ho; try discriminate.
  cbn [bind] in Hs. injection Hs as <-. rewrite append_nil_r.
  eapply getObject_plainRecord_brace; eassumption.
Qed.

(** The definitions of a non-empty schemas table are those of its entries,
    in order, two line breaks apart. *)
Lemma generateSchemasDefinition_entries (pascal : string -> string)
      (entry : string * value) (rest : list (string * value)) :
  generateSchemasDefinition pascal (VObj (entry :: rest))
  = (ds <- mapM (schemaDefinition pascal) (entry :: rest) ;;
     Ok (Str.join (Str.nl ++ Str.nl) ds ++ Str.nl)).
Proof. reflexivity. Qed.

(* ================================================================== *)
(** ** Response and request types *)
(* ================================================================== *)

Lemma existsb_eqb_In (x : string) (l : list string) :
  existsb (String.eqb x) l = true <-> In x l.
Proof.
  rewrite existsb_exists. split.
  - intros [y [Hy E]]. apply String.eqb_eq in E. subst. exact Hy.
  - intros H. exists x. split; [exact H | apply String.eqb_refl].
Qed.

Lemma uniqFrom_In (x : string) (l seen : list string) :
  In x (Lodash.uniqFrom seen l) <-> In x l /\ ~ In x seen.
Proof.
  revert seen. induction l as [| y r IH]; intros seen; simpl.
  - tauto.
  - destruct (existsb (String.eqb y) seen) eqn:E.
    + apply existsb_eqb_In in E. rewrite IH. split.
      * intros [H1 H2]. tauto.
      * intros [[-> | H1] H2]; [contradiction | tauto].
    + assert (Hy : ~ In y seen).
      { intros H. apply existsb_eqb_In in H. congruence. }
      simpl. rewrite IH. simpl. split.
      * intros [<- | [H1 H2]]; [tauto |]. split; [tauto |]. intros H. apply H2. right. exact H.
      * intros [[<- | H1] H2]; [tauto |].
        destruct (string_dec y x) as [-> | Hne]; [tauto |]. right. split; [exact H1 |].
        intros [H | H]; [contradiction | contradiction].
Qed.

Lemma uniqFrom_NoDup (l seen : list string) : NoDup (Lodash.uniqFrom seen l).
Proof.
  revert seen. induction l as [| y r IH]; intros seen; simpl.
  - constructor.
  - destruct (existsb (String.eqb y) seen); [apply IH |].
    constructor; [| apply IH].
    rewrite uniqFrom_In. intros [_ H]. apply H. left. reflexivity.
Qed.

(** [uniq] keeps every element once. *)
Lemma uniq_spec (l : list string) :
  NoDup (Lodash.uniq l) /\ forall x, In x (Lodash.uniq l) <-> In x l.
Proof.
  split; [apply uniqFrom_NoDup |].
  intros x. unfold Lodash.uniq. rewrite uniqFrom_In. simpl. tauto.
Qed.

Lemma findContent_first (content : list (string * value))
      (contentType : string) (media : value) :
  firstContent content contentType media -> findContent content = Some media.
Proof.
  intros (before & after & -> & Hct & Hb).
  induction before as [| [k v] r IH]; simpl.
  - rewrite Hct. reflexivity.
  - inversion Hb as [| ? ? Hk Hr]; subst. simpl in Hk. rewrite Hk. apply IH, Hr.
Qed.

Lemma findContent_none (content : list (string * value)) :
  noContent content -> findContent content = None.
Proof.
  induction 1 as [| [k v] r Hk _ IH]; simpl; [reflexivity |].
  simpl in Hk. rewrite Hk. exact IH.
Qed.

(** C1, as stated, fails on a response given by reference: the response
    [200] below has no content entry at all, and the success type is the
    name of the referenced response, not [void]. *)
Lemma C1_reference_member_is_not_void :
  petOkResponse$."content" = VUndefined
  /\ responseTypesOf pascalAscii petOkResponses = Ok "PetOkResponse"
  /\ responseTypesOf pascalAscii petOkResponses <> Ok "void".
Proof. repeat split. discriminate. Qed.

(** C1, amended: the responses are split into the success group (status
    starting with 2) and the error group (status starting with 4 or 5, or
    [default]).  A member that is a reference is typed by the reference
    resolver; any other member is typed by the schema of its first JSON or
    octet-stream content entry, and is [void] when it has none.  The types
    of a group are deduplicated and joined with a bar; an empty success
    group gives [void], an empty error group [unknown]. *)
Theorem C1_response_groups (pascal : string -> string)
        (responses : list (string * value)) :
  (* the two groups *)
  (forall e, In e (filter isOkStatus responses)
             <-> In e responses /\ Str.startsWith (fst e) "2" = true)
  /\ (forall e, In e (filter isErrorStatus responses)
                <-> In e responses
                    /\ (Str.startsWith (fst e) "4" = true
                        \/ Str.startsWith (fst e) "5" = true
                        \/ fst e = "default"))
  (* the type of a member *)
  /\ (forall res, isReference res = true ->
                  resReqType pascal res = getRefOf pascal res$."$ref")
  /\ (forall res content contentType media,
         isReference res = false -> truthy res$."content" = true ->
         entries res$."content" = Ok content ->
         firstContent content contentType media ->
         resReqType pascal res
         = (schema <- getProp media "schema" ;; resolveValue pascal schema))
  /\ (forall res,
         isReference res = false ->
         truthy res$."content" = false
         \/ (exists content, entries res$."content" = Ok content /\ noContent content) ->
         resReqType pascal res = Ok "void")
  (* the union of a group *)
  /\ (forall ts,
         mapM (fun e => resReqType pascal (snd e)) (filter isOkStatus responses)
         = Ok ts ->
         responseTypesOf pascal responses
         = Ok (orElse (Str.join " | " (Lodash.uniq ts)) "void")
         /\ NoDup (Lodash.uniq ts)
         /\ forall t, In t (Lodash.uniq ts) <-> In t ts)
  /\ (forall ts,
         mapM (fun e => resReqType pascal (snd e)) (filter isErrorStatus responses)
         = Ok ts ->
         errorTypesOf pascal responses
         = Ok (orElse (Str.join " | " (Lodash.uniq ts)) "unknown")
         /\ NoDup (Lodash.uniq ts)
         /\ forall t, In t (Lodash.uniq ts) <-> In t ts)
  (* the defaults *)
  /\ (filter isOkStatus responses = [] ->
      responseTypesOf pascal responses = Ok "void")
  /\ (filter isErrorStatus responses = [] ->
      errorTypesOf pascal responses = Ok "unknown").
Proof.
  repeat match goal with |- _ /\ _ => split end.
  - intros e. rewrite filter_In. unfold isOkStatus. tauto.
  - intros e. rewrite filter_In. unfold isErrorStatus.
    rewrite !orb_true_iff, String.eqb_eq. tauto.
  - intros res Hr. unfold resReqType. rewrite Hr.
    unfold isReference in Hr. apply andb_true_iff in Hr. destruct Hr as [Ht _].
    rewrite Ht. reflexivity.
  - intros res content contentType media Hr Hc He Hf. unfold resReqType.
    assert (Ht : truthy res = true).
    { destruct res; try discriminate; reflexivity. }
    rewrite Ht, Hr, Hc, He. simpl. rewrite (findContent_first _ _ _ Hf). reflexivity.
  - intros res Hr Hc. unfold resReqType.
    destruct (truthy res); [| reflexivity]. simpl. rewrite Hr.
    destruct Hc as [Hc | (content & He & Hn)]; [rewrite Hc; reflexivity |].
    destruct (truthy res$."content"); [| reflexivity].
    rewrite He. simpl. rewrite (findContent_none _ Hn). reflexivity.
  - intros ts H. unfold responseTypesOf, getResReqTypes. rewrite H.
    split; [reflexivity | apply uniq_spec].
  - intros ts H. unfold errorTypesOf, getResReqTypes. rewrite H.
    split; [reflexivity | apply uniq_spec].
  - intros H. unfold responseTypesOf. rewrite H. reflexivity.
  - intros H. unfold errorTypesOf. rewrite H. reflexivity.
Qed.

(** The specification's example: a response [200] with JSON content whose
    schema refers to [Pet] gives the success type [Pet], and with no 2xx
    response the success type is [void]. *)
Lemma C1_response_groups_witness :
  responseTypesOf pascalAscii [("200", petJsonResponse); ("404", petOkResponse)]
  = Ok "Pet"
  /\ errorTypesOf pascalAscii [("200", petJsonResponse); ("404", petOkResponse)]
     = Ok "PetOkResponse"
  /\ responseTypesOf pascalAscii [("404", petOkResponse)] = Ok "void".
Proof.
  pose proof (C1_response_groups pascalAscii
                [("200", petJsonResponse); ("404", petOkResponse)]) as H.
  destruct H as (_ & _ & _ & _ & _ & Hok & Herr & _).
  destruct (Hok ["Pet"] eq_refl) as [-> _].
  destruct (Herr ["PetOkResponse"] eq_refl) as [-> _].
  pose proof (C1_response_groups pascalAscii [("404", petOkResponse)]) as H.
  destruct H as (_ & _ & _ & _ & _ & _ & _ & Hvoid & _).
  rewrite (Hvoid eq_refl). repeat split.
Defined.

(* ================================================================== *)
(** ** Route templates *)
(* ================================================================== *)

Lemma wordChar_not_brace (c : ascii) :
  Str.isWordChar c = true -> Ascii.eqb c "{"%char = false.
Proof.
  intros H. destruct (Ascii.eqb_spec c "{"%char) as [-> | _]; [discriminate | reflexivity].
Qed.

Lemma spanWord_spec (s w rest : string) :
  Str.spanWord s = (w, rest) ->
  s = w ++ rest /\ Str.all Str.isWordChar w = true.
Proof.
  revert w rest. induction s as [| c r IH]; simpl; intros w rest H.
  - injection H as <- <-. split; reflexivity.
  - destruct (Str.isWordChar c) eqn:Hc.
    + destruct (Str.spanWord r) as [w' rest'] eqn:E. injection H as <- <-.
      destruct (IH w' rest' eq_refl) as [-> Hw]. simpl. rewrite Hc, Hw.
      split; reflexivity.
    + injection H as <- <-. split; reflexivity.
Qed.

(** A greedy [\w+] stops at the first character that is not a word
    character. *)
Lemma spanWord_append (w : string) (c : ascii) (rest : string) :
  Str.all Str.isWordChar w = true -> Str.isWordChar c = false ->
  Str.spanWord (w ++ String c rest) = (w, String c rest).
Proof.
  intros Hw Hc. induction w as [| d w IH]; simpl.
  - rewrite Hc. reflexivity.
  - simpl in Hw. apply andb_true_iff in Hw. destruct Hw as [Hd Hw].
    rewrite Hd, (IH Hw). reflexivity.
Qed.

Lemma count_append (c : ascii) (a b : string) :
  Str.count c (a ++ b) = Str.count c a + Str.count c b.
Proof. induction a as [| d a IH]; simpl; [| rewrite IH]; lia. Qed.

Lemma count_brace_word (w : string) :
  Str.all Str.isWordChar w = true -> Str.count "{"%char w = 0.
Proof.
  induction w as [| d w IH]; cbn [Str.count Str.all]; intros H; [reflexivity |].
  apply andb_true_iff in H. destruct H as [Hd Hw].
  rewrite Ascii.eqb_sym, (wordChar_not_brace _ Hd), (IH Hw). reflexivity.
Qed.

Lemma isWord_all (w : string) :
  Str.isWord w = true -> Str.nonEmpty w = true /\ Str.all Str.isWordChar w = true.
Proof. unfold Str.isWord. apply andb_true_iff. Qed.

(** A match of the final-placeholder expression spans a text with exactly
    one opening brace. *)
Lemma matchLastParam_count (s w : string) :
  matchLastParam s = Some w -> Str.count "{"%char s = 1.
Proof.
  unfold matchLastParam.
  destruct s as [| c1 [| c2 [| c3 r]]]; try discriminate.
  destruct (Ascii.eqb c1 "/" && Ascii.eqb c2 "$" && Ascii.eqb c3 "{") eqn:E;
    [| discriminate].
  apply andb_true_iff in E. destruct E as [E E3].
  apply andb_true_iff in E. destruct E as [E1 E2].
  apply Ascii.eqb_eq in E1, E2, E3. subst.
  destruct (Str.spanWord r) as [w' rest] eqn:Es.
  destruct (spanWord_spec _ _ _ Es) as [-> Hw].
  destruct (Str.nonEmpty w' && (String.eqb rest "}" || String.eqb rest "}/")) eqn:E;
    [| discriminate].
  intros _. apply andb_true_iff in E. destruct E as [_ E].
  apply orb_true_iff in E.
  cbn [Str.count]. rewrite count_append, (count_brace_word _ Hw).
  destruct E as [E | E]; apply String.eqb_eq in E; subst; reflexivity.
Qed.

Lemma matchLastParam_final (name trail : string) :
  Str.isWord name = true -> trail = EmptyString \/ trail = "/" ->
  matchLastParam ("/${" ++ name ++ "}" ++ trail) = Some name.
Proof.
  intros Hn Ht. apply isWord_all in Hn. destruct Hn as [Hne Hw].
  unfold matchLastParam. cbn [append].
  rewrite (spanWord_append name "}" trail Hw eq_refl), Hne.
  destruct Ht as [-> | ->]; reflexivity.
Qed.

(** The final placeholder is where the expression matches first: no
    earlier position does, whatever precedes it. *)
Lemma searchLastParam_final (before name trail : string) :
  Str.isWord name = true -> trail = EmptyString \/ trail = "/" ->
  searchLastParam (before ++ "/${" ++ name ++ "}" ++ trail) = Some (before, name).
Proof.
  intros Hn Ht. induction before as [| c q IH].
  - cbn [append searchLastParam].
    change (String "/" (String "$" (String "{" (name ++ String "}" trail))))
      with ("/${" ++ name ++ "}" ++ trail).
    destruct (name ++ "}" ++ trail) eqn:E.
    + destruct name; discriminate.
    + rewrite <- E.
      pose proof (matchLastParam_final name trail Hn Ht) as Hm.
      cbn [append] in Hm |- *. rewrite Hm. reflexivity.
  - change (String c q ++ "/${" ++ name ++ "}" ++ trail)
      with (String c (q ++ "/${" ++ name ++ "}" ++ trail)).
    cbn [searchLastParam]. rewrite IH.
    destruct (matchLastParam (String c (q ++ "/${" ++ name ++ "}" ++ trail)))
      as [w |] eqn:Em; [exfalso | reflexivity].
    pose proof (matchLastParam_count _ _ Em) as Hcount.
    apply isWord_all in Hn. destruct Hn as [_ Hw].
    assert (Htail : Str.count "{"%char ("/${" ++ name ++ "}" ++ trail) = 1).
    { cbn [append Str.count Ascii.eqb]. simpl.
      rewrite count_append, (count_brace_word _ Hw).
      destruct Ht as [-> | ->]; reflexivity. }
    change (String c (q ++ "/${" ++ name ++ "}" ++ trail))
      with (String c q ++ "/${" ++ name ++ "}" ++ trail) in Hcount.
    rewrite count_append, Htail in Hcount.
    assert (Hq : Str.count "{"%char (String c q) = 0) by lia.
    unfold matchLastParam in Em.
    destruct q as [| d [| e q]]; cbn [append] in Em.
    + destruct (Ascii.eqb c "/"); discriminate.
    + destruct (Ascii.eqb c "/"); destruct (Ascii.eqb d "$"); discriminate.
    + destruct (Ascii.eqb e "{") eqn:Ee.
      * apply Ascii.eqb_eq in Ee. subst e. cbn [Str.count] in Hq.
        rewrite Ascii.eqb_refl in Hq. lia.
      * rewrite andb_false_r in Em. discriminate.
Qed.

Lemma length_append (a b : string) :
  String.length (a ++ b) = String.length a + String.length b.
Proof. induction a as [| c a IH]; simpl; [| rewrite IH]; reflexivity. Qed.

Lemma matchParam_length (s w rest : string) :
  matchParam s = Some (w, rest) -> String.length rest < String.length s.
Proof.
  unfold matchParam. destruct s as [| c r]; [discriminate |].
  destruct (Ascii.eqb c "{"); [| discriminate].
  destruct (Str.spanWord r) as [w' rest0] eqn:Es.
  destruct (spanWord_spec _ _ _ Es) as [-> _].
  destruct rest0 as [| d rest']; [discriminate |].
  destruct (Str.nonEmpty w' && Ascii.eqb d "}"); [| discriminate].
  intros H. injection H as <- <-.
  cbn [String.length]. rewrite length_append. cbn [String.length]. lia.
Qed.

Lemma scanParams_empty (n : nat) : scanParams n EmptyString = [].
Proof. destruct n; reflexivity. Qed.

(** The scan of a route needs no more fuel than the route has
    characters. *)
Lemma scanParams_fuel (n m : nat) (s : string) :
  String.length s <= n -> String.length s <= m ->
  scanParams n s = scanParams m s.
Proof.
  revert m s. induction n as [| n IH]; intros m s Hn Hm.
  - destruct s; [| simpl in Hn; lia]. rewrite !scanParams_empty. reflexivity.
  - destruct m as [| m].
    + destruct s; [| simpl in Hm; lia]. rewrite !scanParams_empty. reflexivity.
    + cbn [scanParams]. destruct (matchParam s) as [[w rest] |] eqn:Em.
      * apply matchParam_length in Em. f_equal. apply IH; lia.
      * destruct s as [| c r]; [reflexivity |]. simpl in Hn, Hm. apply IH; lia.
Qed.

Lemma getParamsInPath_unfold (c : ascii) (x : string) :
  getParamsInPath (String c x)
  = match matchParam (String c x) with
    | Some (w, rest) => w :: getParamsInPath rest
    | None => getParamsInPath x
    end.
Proof.
  unfold getParamsInPath. cbn [String.length scanParams].
  destruct (matchParam (String c x)) as [[w rest] |] eqn:Em; [| reflexivity].
  apply matchParam_length in Em. cbn [String.length] in Em.
  f_equal. apply scanParams_fuel; lia.
Qed.

Lemma replaceBraces_word (w : string) :
  Str.all Str.isWordChar w = true -> replaceBraces w = w.
Proof.
  induction w as [| c w IH]; cbn [replaceBraces Str.all]; intros H; [reflexivity |].
  apply andb_true_iff in H. destruct H as [Hc Hw].
  rewrite (wordChar_not_brace _ Hc), (IH Hw). reflexivity.
Qed.

Lemma replaceBraces_append (a b : string) :
  replaceBraces (a ++ b) = replaceBraces a ++ replaceBraces b.
Proof.
  induction a as [| c a IH]; cbn [replaceBraces append]; [reflexivity |].
  rewrite IH. destruct (Ascii.eqb c "{"); reflexivity.
Qed.

Lemma spanWord_replaceBraces (r w rest : string) :
  Str.spanWord r = (w, rest) ->
  Str.spanWord (replaceBraces r) = (w, replaceBraces rest).
Proof.
  revert w rest. induction r as [| c r IH]; intros w rest H.
  - injection H as <- <-. reflexivity.
  - cbn [Str.spanWord] in H. destruct (Str.isWordChar c) eqn:Hc.
    + destruct (Str.spanWord r) as [w' rest'] eqn:E. injection H as <- <-.
      cbn [replaceBraces]. rewrite (wordChar_not_brace _ Hc).
      cbn [Str.spanWord]. rewrite Hc, (IH _ _ eq_refl). reflexivity.
    + injection H as <- <-. cbn [replaceBraces].
      destruct (Ascii.eqb c "{"); cbn [append Str.spanWord]; [reflexivity |].
      rewrite Hc. reflexivity.
Qed.

(** Rewriting the braces of a route does not change its placeholders. *)
Lemma getParamsInPath_replaceBraces (s : string) :
  getParamsInPath (replaceBraces s) = getParamsInPath s.
Proof.
  remember (String.length s) as n eqn:Hn.
  assert (Hle : String.length s <= n) by lia. clear Hn.
  revert s Hle. induction n as [| n IH]; intros s Hle.
  - destruct s; [reflexivity | simpl in Hle; lia].
  - destruct s as [| c r]; [reflexivity |]. cbn [String.length] in Hle.
    cbn [replaceBraces]. destruct (Ascii.eqb c "{") eqn:Hc.
    + apply Ascii.eqb_eq in Hc. subst c. cbn [append].
      rewrite (getParamsInPath_unfold "$"). cbn [matchParam Ascii.eqb]. simpl Bool.eqb.
      cbv iota.
      rewrite !(getParamsInPath_unfold "{"). unfold matchParam.
      rewrite Ascii.eqb_refl.
      destruct (Str.spanWord r) as [w rest0] eqn:Es.
      rewrite (spanWord_replaceBraces _ _ _ Es).
      destruct (spanWord_spec _ _ _ Es) as [Er _].
      destruct rest0 as [| d rest']; [apply IH; lia |].
      cbn [replaceBraces]. destruct (Ascii.eqb d "{") eqn:Hd.
      * apply Ascii.eqb_eq in Hd. subst d. cbn [append].
        replace (Str.nonEmpty w && Ascii.eqb "$" "}") with false
          by (rewrite andb_false_r; reflexivity).
        replace (Str.nonEmpty w && Ascii.eqb "{" "}") with false
          by (rewrite andb_false_r; reflexivity).
        apply IH. lia.
      * destruct (Str.nonEmpty w && Ascii.eqb d "}"); [| apply IH; lia].
        f_equal. apply IH.
        assert (String.length r = String.length w + S (String.length rest')).
        { rewrite Er, length_append. reflexivity. }
        lia.
    + rewrite !getParamsInPath_unfold. unfold matchParam. rewrite Hc.
      apply IH. lia.
Qed.

(* ================================================================== *)
(** ** The DELETE rule *)
(* ================================================================== *)

Lemma routeOf_delete_final (before name trail : string) :
  Str.isWord name = true -> trail = EmptyString \/ trail = "/" ->
  routeOf "delete" (before ++ "/{" ++ name ++ "}" ++ trail)
  = (replaceBraces before, Some name).
Proof.
  intros Hn Ht. unfold routeOf.
  replace (replaceBraces (before ++ "/{" ++ name ++ "}" ++ trail))
    with (replaceBraces before ++ "/${" ++ name ++ "}" ++ trail).
  - change (String.eqb "delete" "delete") with true. cbv iota.
    rewrite (searchLastParam_final _ _ _ Hn Ht). reflexivity.
  - apply isWord_all in Hn. destruct Hn as [_ Hw].
    rewrite replaceBraces_append. f_equal.
    change ("/{" ++ name ++ "}" ++ trail) with ("/" ++ "{" ++ name ++ "}" ++ trail).
    cbn [append replaceBraces]. change (Ascii.eqb "/" "{") with false.
    change (Ascii.eqb "{" "{") with true. cbv iota. cbn [append].
    rewrite replaceBraces_append, (replaceBraces_word _ Hw).
    destruct Ht as [-> | ->]; reflexivity.
Qed.

(* ================================================================== *)
(** ** Operation synthesis *)
(* ================================================================== *)

(** Splits a hypothesis [x <- m ;; k = Ok r] into the result of [m] and what
    is left of the computation. *)
Ltac inv_bind H :=
  match type of H with
  | bind ?m _ = Ok _ =>
      let E := fresh "E" in
      destruct m eqn:E; cbn [bind] in H; [| discriminate H | discriminate H]
  end.

Lemma mapM_Ok_In {A B : Type} (f : A -> result B) (l : list A) (ys : list B) :
  mapM f l = Ok ys -> forall x, In x l -> exists y, f x = Ok y.
Proof.
  revert ys. induction l as [| a r IH]; intros ys H x Hx; [contradiction |].
  cbn [mapM] in H. inv_bind H. inv_bind H.
  destruct Hx as [<- | Hx]; [eexists; eassumption |].
  eapply (IH _ eq_refl). exact Hx.
Qed.

Lemma mapM_app_Throw {A B : Type} (f : A -> result B) (before after : list A)
      (x : A) (ys : list B) (e : exn) :
  mapM f before = Ok ys -> f x = Throw e ->
  mapM f (before ++ x :: after) = Throw e.
Proof.
  revert ys. induction before as [| a r IH]; intros ys H Hx; cbn [app mapM].
  - rewrite Hx. reflexivity.
  - cbn [mapM] in H. inv_bind H. inv_bind H. cbn [bind].
    erewrite IH; [reflexivity | reflexivity | exact Hx].
Qed.

(** What a successful synthesis went through. *)
Lemma synthesize_Ok (pascal : string -> string) (op operationId : value)
      (v r : string) (parameters schemasComponents : value)
      (out : string) (c : component) :
  synthesize pascal op operationId v r parameters schemasComponents = Ok (out, c) ->
  exists merged ts,
    mergedParameters op parameters schemasComponents = Ok merged
    /\ mapM (paramType pascal operationId (Lodash.groupBy merged "in" "path"))
            (paramsInPathOf v r) = Ok ts
    /\ route c = fst (routeOf v r)
    /\ paramsInPath c = paramsInPathOf v r.
Proof.
  unfold synthesize. intros H. repeat inv_bind H.
  injection H as _ <-. eexists. eexists. repeat split; eassumption.
Qed.

Lemma generateRestfulComponent_Ok (pascal : string -> string) (op : value)
      (v r : string) (ids : list value) (parameters schemasComponents : value)
      (generator : option (string -> string -> string))
      (ids' : list value) (out : string) (c : component) :
  generateRestfulComponent pascal op v r ids parameters schemasComponents generator
  = (ids', Ok (out, c)) ->
  exists operationId op',
    operationIdOf op v r generator = Ok (operationId, op')
    /\ existsb (sameValueZero operationId) ids = false
    /\ ids' = (ids ++ [operationId])%list
    /\ synthesize pascal op' operationId v r parameters schemasComponents
       = Ok (out, c).
Proof.
  unfold generateRestfulComponent.
  destruct (operationIdOf op v r generator) as [[operationId op'] | e |];
    [| discriminate | discriminate].
  destruct (existsb (sameValueZero operationId) ids) eqn:Ed; [discriminate |].
  intros H. injection H as <- H. exists operationId, op'.
  split; [reflexivity | split; [exact Ed | split; [reflexivity | exact H]]].
Qed.

(** C4, as stated for every placeholder, fails: the name [pet-id] is not a
    word of letters, digits and underscores, and the DELETE route
    [/pet/{pet-id}] keeps its last segment, with the brace rewritten, in the
    route of the component. *)
Lemma C4_hyphenated_placeholder_not_stripped :
  Str.isWord "pet-id" = false
  /\ routeOf "delete" "/pet/{pet-id}" = ("/pet/${pet-id}", None)
  /\ paramsInPathOf "delete" "/pet/{pet-id}" = []
  /\ exists out c,
       generateRestfulComponent pascalAscii deletePetNoParameter "delete"
                                "/pet/{pet-id}" [] VUndefined VUndefined None
       = ([VStr "deletePet"], Ok (out, c))
       /\ route c = "/pet/${pet-id}" /\ paramsInPath c = [].
Proof.
  split; [reflexivity |]. split; [reflexivity |]. split; [reflexivity |].
  eexists. eexists. split; [vm_compute; reflexivity |].
  split; reflexivity.
Qed.

(** C4: for the verb [delete], a route whose last segment is a placeholder
    for a word of letters, digits and underscores (followed by at most one
    slash) loses that segment, and the placeholder's
    name is left out of the path parameters, while the placeholders before it
    stay; this is the route and the parameter list of the component of every
    successful synthesis.  [/pet/{id}] gives [/pet] and no path parameter;
    [/pet/{id}/tag/{tagId}] gives [/pet/${id}/tag] and the path parameter
    [id]. *)
Theorem C4_delete_strips_final_placeholder (before name trail : string) :
  Str.isWord name = true ->
  trail = EmptyString \/ trail = "/" ->
  let r := before ++ "/{" ++ name ++ "}" ++ trail in
  let kept := filter (fun p => negb (String.eqb p name)) (getParamsInPath before) in
  routeOf "delete" r = (replaceBraces before, Some name)
  /\ paramsInPathOf "delete" r = kept
  /\ ~ In name kept
  /\ (forall p, In p (getParamsInPath before) -> p <> name -> In p kept)
  /\ (forall pascal op ids parameters schemasComponents generator ids' out c,
         generateRestfulComponent pascal op "delete" r ids parameters
                                  schemasComponents generator
         = (ids', Ok (out, c)) ->
         route c = replaceBraces before /\ paramsInPath c = kept)
  /\ routeOf "delete" "/pet/{id}" = ("/pet", Some "id")
  /\ paramsInPathOf "delete" "/pet/{id}" = []
  /\ routeOf "delete" "/pet/{id}/tag/{tagId}" = ("/pet/${id}/tag", Some "tagId")
  /\ paramsInPathOf "delete" "/pet/{id}/tag/{tagId}" = ["id"].
Proof.
  intros Hn Ht r kept.
  pose proof (routeOf_delete_final before name trail Hn Ht) as Hr. fold r in Hr.
  assert (Hp : paramsInPathOf "delete" r = kept).
  { unfold paramsInPathOf. rewrite Hr. rewrite getParamsInPath_replaceBraces.
    reflexivity. }
  repeat match goal with |- _ /\ _ => split end; try reflexivity.
  - exact Hr.
  - exact Hp.
  - unfold kept. rewrite filter_In. intros [_ H].
    rewrite String.eqb_refl in H. discriminate.
  - intros p Hin Hne. unfold kept. rewrite filter_In. split; [exact Hin |].
    apply negb_true_iff, String.eqb_neq, Hne.
  - intros pascal op ids parameters schemasComponents generator ids' out c H.
    apply generateRestfulComponent_Ok in H.
    destruct H as (operationId & op' & _ & _ & _ & H).
    apply synthesize_Ok in H. destruct H as (merged & ts & _ & _ & H1 & H2).
    rewrite H1, H2, Hr, Hp. split; reflexivity.
Qed.

(** The two routes of the specification, synthesized. *)
Lemma C4_delete_strips_final_placeholder_witness :
  (exists out c,
      generateRestfulComponent pascalAscii deletePetNoParameter "delete" "/pet/{id}"
                               [] VUndefined VUndefined None
      = ([VStr "deletePet"], Ok (out, c))
      /\ route c = "/pet" /\ paramsInPath c = [])
  /\ (exists out c,
         generateRestfulComponent pascalAscii deletePet "delete"
                                  "/pet/{id}/tag/{tagId}"
                                  [] VUndefined VUndefined None
         = ([VStr "deletePet"], Ok (out, c))
         /\ route c = "/pet/${id}/tag" /\ paramsInPath c = ["id"]).
Proof.
  split.
  - eexists. eexists. split; [vm_compute; reflexivity |].
    destruct (C4_delete_strips_final_placeholder "/pet" "id" EmptyString
                eq_refl (or_introl eq_refl)) as (_ & _ & _ & _ & H & _).
    eapply (H pascalAscii deletePetNoParameter [] VUndefined VUndefined None).
    vm_compute. reflexivity.
  - eexists. eexists. split; [vm_compute; reflexivity |].
    destruct (C4_delete_strips_final_placeholder "/pet/{id}/tag" "tagId" EmptyString
                eq_refl (or_introl eq_refl)) as (_ & _ & _ & _ & H & _).
    eapply (H pascalAscii deletePet [] VUndefined VUndefined None).
    vm_compute. reflexivity.
Defined.

(** *** Totality of the synthesis *)

Lemma terminates_spread (v : value) : terminates (spread v).
Proof. destruct v; discriminate. Qed.

Lemma isThrow_of_not_Ok {A : Type} (r : result A) :
  terminates r -> isOk r = false -> isThrow r = true.
Proof. destruct r; intros Ht Hn; [discriminate | reflexivity | contradiction Ht; reflexivity]. Qed.

Ltac terminates_step :=
  lazymatch goal with
  | |- terminates (Ok _) => apply terminates_Ok
  | |- terminates (Throw _) => apply terminates_Throw
  | |- terminates (bind _ _) => apply terminates_bind; [| intros ? ?]
  | |- terminates (mapM _ _) => apply terminates_mapM; intros ? ?
  | |- terminates (resolveValue _ _) => apply resolveValue_terminates
  | |- terminates (getScalar _ _) => apply getScalar_terminates
  | |- terminates (getRefOf _ _) => apply terminates_getRefOf
  | |- terminates (getProp _ _) => apply terminates_getProp
  | |- terminates (entries _) => apply terminates_entries
  | |- terminates (spread _) => apply terminates_spread
  | |- terminates (formatDescriptionOf _ _) => apply terminates_formatDescriptionOf
  | |- terminates (if ?b then _ else _) => destruct b
  | |- terminates (match ?x with _ => _ end) => destruct x
  end.

Ltac terminates_auto := repeat terminates_step.

Lemma terminates_resReqType (pascal : string -> string) (res : value) :
  terminates (resReqType pascal res).
Proof. unfold resReqType. terminates_auto. Qed.

Lemma terminates_getResReqTypes (pascal : string -> string)
      (l : list (string * value)) :
  terminates (getResReqTypes pascal l).
Proof.
  unfold getResReqTypes. terminates_step; [| terminates_auto].
  terminates_step. apply terminates_resReqType.
Qed.

Lemma terminates_mergedParameters (op parameters schemasComponents : value) :
  terminates (mergedParameters op parameters schemasComponents).
Proof. unfold mergedParameters, derefParameter. terminates_auto. Qed.

Lemma terminates_paramType (pascal : string -> string) (operationId : value)
      (pathParams : list value) (p : string) :
  terminates (paramType pascal operationId pathParams p).
Proof.
  unfold paramType.
  match goal with
  | |- terminates (match ?x with _ => _ end) =>
      assert (H : terminates x) by terminates_auto; destruct x
  end; [discriminate | discriminate | contradiction H; reflexivity].
Qed.

Lemma terminates_queryParamType (pascal : string -> string) (p : value) :
  terminates (queryParamType pascal p).
Proof. unfold queryParamType. terminates_auto. Qed.

Lemma terminates_synthesize (pascal : string -> string) (op operationId : value)
      (v r : string) (parameters schemasComponents : value) :
  terminates (synthesize pascal op operationId v r parameters schemasComponents).
Proof.
  unfold synthesize, responseTypesOf, errorTypesOf.
  repeat first [ apply terminates_getResReqTypes
               | apply terminates_mergedParameters
               | apply terminates_paramType
               | apply terminates_queryParamType
               | terminates_step ].
Qed.

Lemma terminates_operationIdOf (op : value) (v r : string)
      (generator : option (string -> string -> string)) :
  terminates (operationIdOf op v r generator).
Proof. unfold operationIdOf, assignProp. terminates_auto. Qed.

Lemma terminates_generateRestfulComponent (pascal : string -> string) (op : value)
      (v r : string) (ids : list value) (parameters schemasComponents : value)
      (generator : option (string -> string -> string)) :
  terminates (snd (generateRestfulComponent pascal op v r ids parameters
                                            schemasComponents generator)).
Proof.
  unfold generateRestfulComponent.
  pose proof (terminates_operationIdOf op v r generator) as H.
  destruct (operationIdOf op v r generator) as [[operationId op'] | e |].
  - destruct (existsb _ _); cbn [snd]; [discriminate | apply terminates_synthesize].
  - discriminate.
  - contradiction H. reflexivity.
Qed.

(** *** The operation after its identifier was generated *)

Lemma assoc_replaceKey_other (k k' : string) (v : value) (fs : list (string * value)) :
  k' <> k -> assoc k' (Lodash.replaceKey k v fs) = assoc k' fs.
Proof.
  intros Hne. induction fs as [| [k0 v0] r IH]; cbn [Lodash.replaceKey assoc].
  - reflexivity.
  - destruct (String.eqb_spec k k0) as [-> | Hk]; cbn [assoc].
    + apply String.eqb_neq in Hne. rewrite Hne. reflexivity.
    + rewrite IH. reflexivity.
Qed.

Lemma assoc_insertKey_other (k k' : string) (v : value) (fs : list (string * value)) :
  k' <> k -> assoc k' (Lodash.insertKey k v fs) = assoc k' fs.
Proof.
  intros Hne. apply String.eqb_neq in Hne.
  induction fs as [| [k0 v0] r IH]; cbn [Lodash.insertKey assoc].
  - rewrite Hne. reflexivity.
  - destruct (Lodash.arrayIndex k) as [n |];
      [destruct (Lodash.arrayIndex k0) as [n0 |]; [destruct (N.ltb n n0) |] |];
      cbn [assoc]; rewrite ?Hne, ?IH; reflexivity.
Qed.

Lemma get_assignValue_other (object : value) (k k' : string) (v : value) :
  k' <> k -> (Lodash.assignValue object k v)$.k' = object$.k'.
Proof.
  intros Hne. destruct object as [| | b | n | s | l | fs]; try reflexivity.
  - cbn [Lodash.assignValue]. destruct (Lodash.parseIndex k); reflexivity.
  - cbn [Lodash.assignValue field]. destruct (hasKey k fs).
    + apply assoc_replaceKey_other, Hne.
    + apply assoc_insertKey_other, Hne.
Qed.

Lemma operationIdOf_other (op op' operationId : value) (v r : string)
      (generator : option (string -> string -> string)) (k : string) :
  operationIdOf op v r generator = Ok (operationId, op') ->
  k <> "operationId" -> op'$.k = op$.k.
Proof.
  unfold operationIdOf. intros H Hk. inv_bind H.
  destruct (truthy a); [injection H as _ <-; reflexivity |].
  destruct generator as [g |]; [| discriminate]. inv_bind H.
  injection H as _ <-. unfold assignProp in E0.
  destruct op; try discriminate; injection E0 as <-;
    first [reflexivity
          | exact (get_assignValue_other (VObj _) "operationId" k _ Hk)].
Qed.

Lemma mergedParameters_operationIdOf (op op' operationId : value) (v r : string)
      (generator : option (string -> string -> string))
      (parameters schemasComponents : value) :
  operationIdOf op v r generator = Ok (operationId, op') ->
  mergedParameters op' parameters schemasComponents
  = mergedParameters op parameters schemasComponents.
Proof.
  intros H. unfold mergedParameters.
  rewrite (operationIdOf_other _ _ _ _ _ _ "parameters" H) by discriminate.
  reflexivity.
Qed.

(** *** Path parameters *)

Lemma groupBy_In (l : list value) (prop key : string) (i : value) :
  In i (Lodash.groupBy l prop key) <-> In i l /\ toString i$.prop = key.
Proof.
  unfold Lodash.groupBy. rewrite filter_In. cbv beta. rewrite String.eqb_eq.
  reflexivity.
Qed.

Lemma paramType_Ok (pascal : string -> string) (operationId : value)
      (pathParams : list value) (p s : string) :
  paramType pascal operationId pathParams p = Ok s ->
  exists i, In i pathParams /\ i$."name" = VStr p.
Proof.
  unfold paramType.
  destruct (find (fun i => isStr i$."name" p) pathParams) as [i |] eqn:Ef;
    [| discriminate].
  intros _. apply find_some in Ef. destruct Ef as [Hin Hname].
  exists i. split; [exact Hin | apply isStr_true, Hname].
Qed.

Lemma paramType_missing (pascal : string -> string) (operationId : value)
      (pathParams : list value) (p : string) :
  (forall i, In i pathParams -> i$."name" <> VStr p) ->
  paramType pascal operationId pathParams p
  = Throw (pathParamNotFound p operationId).
Proof.
  intros H. unfold paramType.
  destruct (find (fun i => isStr i$."name" p) pathParams) as [i |] eqn:Ef;
    [| reflexivity].
  apply find_some in Ef. destruct Ef as [Hin Hname].
  apply isStr_true in Hname. contradiction (H i Hin).
Qed.

(** C8: a synthesis that succeeds has, for every placeholder of its path
    parameter list, a parameter of that name located in [path] among the
    merged parameters; when a placeholder has none the synthesis throws, the
    parameter step throws the not-found error that names the placeholder, and
    this is the error of the synthesis whenever the steps before it
    succeed. *)
Theorem C8_placeholder_needs_path_parameter
        (pascal : string -> string) (op : value) (v r : string)
        (ids : list value) (parameters schemasComponents : value)
        (generator : option (string -> string -> string))
        (merged : list value) :
  mergedParameters op parameters schemasComponents = Ok merged ->
  let matching p i :=
    In i merged /\ toString i$."in" = "path" /\ i$."name" = VStr p in
  (forall ids' out c,
      generateRestfulComponent pascal op v r ids parameters schemasComponents
                               generator = (ids', Ok (out, c)) ->
      forall p, In p (paramsInPath c) -> exists i, matching p i)
  /\ (forall p, In p (paramsInPathOf v r) ->
                (forall i, ~ matching p i) ->
                isThrow (snd (generateRestfulComponent pascal op v r ids parameters
                                                       schemasComponents generator))
                = true)
  /\ (forall p operationId,
         (forall i, ~ matching p i) ->
         paramType pascal operationId (Lodash.groupBy merged "in" "path") p
         = Throw (pathParamNotFound p operationId))
  /\ (forall p before after ts responses rt et bt,
         truthy op$."operationId" = true ->
         existsb (sameValueZero op$."operationId") ids = false ->
         entries op$."responses" = Ok responses ->
         responseTypesOf pascal responses = Ok rt ->
         errorTypesOf pascal responses = Ok et ->
         getResReqTypes pascal [("body", op$."requestBody")] = Ok bt ->
         paramsInPathOf v r = (before ++ p :: after)%list ->
         mapM (paramType pascal op$."operationId" (Lodash.groupBy merged "in" "path"))
              before = Ok ts ->
         (forall i, ~ matching p i) ->
         snd (generateRestfulComponent pascal op v r ids parameters
                                       schemasComponents generator)
         = Throw (pathParamNotFound p op$."operationId")).
Proof.
  intros Hm matching.
  assert (Hnone : forall p, (forall i, ~ matching p i) ->
                            forall i, In i (Lodash.groupBy merged "in" "path") ->
                                      i$."name" <> VStr p).
  { intros p H i Hi Hname. apply groupBy_In in Hi. destruct Hi as [Hin Hpath].
    apply (H i). repeat split; assumption. }
  assert (HA : forall ids' out c,
             generateRestfulComponent pascal op v r ids parameters schemasComponents
                                      generator = (ids', Ok (out, c)) ->
             forall p, In p (paramsInPathOf v r) -> exists i, matching p i).
  { intros ids' out c H p Hp.
    apply generateRestfulComponent_Ok in H.
    destruct H as (operationId & op' & Hid & _ & _ & H).
    apply synthesize_Ok in H. destruct H as (merged' & ts & Hm' & Hts & _ & _).
    rewrite (mergedParameters_operationIdOf _ _ _ _ _ _ parameters schemasComponents Hid), Hm in Hm'.
    injection Hm' as <-.
    destruct (mapM_Ok_In _ _ _ Hts p Hp) as [s Hs].
    apply paramType_Ok in Hs. destruct Hs as (i & Hi & Hname).
    apply groupBy_In in Hi. destruct Hi as [Hin Hpath].
    exists i. repeat split; assumption. }
  split; [| split; [| split]].
  - intros ids' out c H p Hp.
    assert (Hc : paramsInPath c = paramsInPathOf v r).
    { pose proof H as H'. apply generateRestfulComponent_Ok in H'.
      destruct H' as (operationId & op' & _ & _ & _ & H').
      apply synthesize_Ok in H'. destruct H' as (? & ? & _ & _ & _ & H').
      exact H'. }
    rewrite Hc in Hp. eapply HA; eassumption.
  - intros p Hp Hno. apply isThrow_of_not_Ok.
    + apply terminates_generateRestfulComponent.
    + destruct (generateRestfulComponent pascal op v r ids parameters
                  schemasComponents generator) as [ids' [[out c] | e |]] eqn:E;
        try reflexivity.
      destruct (HA ids' out c eq_refl p Hp) as [i Hi]. contradiction (Hno i).
  - intros p operationId Hno. apply paramType_missing, Hnone, Hno.
  - intros p before after ts responses rt et bt Hid Hdup Hres Hrt Het Hbt Hpath Hts Hno.
    unfold generateRestfulComponent, operationIdOf, getProp.
    assert (Hn : isNullish op = false).
    { destruct op; try reflexivity; discriminate. }
    rewrite Hn. cbn [bind]. rewrite Hid, Hdup. cbn [snd].
    unfold synthesize. rewrite Hres. cbn [bind]. rewrite Hrt. cbn [bind].
    rewrite Het. cbn [bind]. rewrite Hbt. cbn [bind]. rewrite Hm. cbn [bind].
    rewrite Hpath.
    rewrite (mapM_app_Throw _ before after p ts _ Hts
               (paramType_missing pascal _ _ p (Hnone p Hno))).
    reflexivity.
Qed.

(** A DELETE on [/pet/{id}/tag/{tagId}] keeps the placeholder [id]: with the
    path parameter [id] the synthesis succeeds, without it the synthesis
    throws the not-found error for [id]. *)
Lemma C8_placeholder_needs_path_parameter_witness :
  isOk (snd (generateRestfulComponent pascalAscii deletePet "delete"
                                      "/pet/{id}/tag/{tagId}"
                                      [] VUndefined VUndefined None)) = true
  /\ snd (generateRestfulComponent pascalAscii deletePetNoParameter "delete"
                                   "/pet/{id}/tag/{tagId}"
                                   [] VUndefined VUndefined None)
     = Throw (pathParamNotFound "id" (VStr "deletePet")).
Proof.
  split; [reflexivity |].
  destruct (C8_placeholder_needs_path_parameter pascalAscii deletePetNoParameter
              "delete" "/pet/{id}/tag/{tagId}" [] VUndefined VUndefined None
              [] eq_refl) as (_ & _ & _ & H).
  apply (H "id" [] [] [] [] "void" "unknown" "void"); try reflexivity.
  intros i (Hin & _). contradiction Hin.
Defined.

(* ================================================================== *)
(** ** Duplicate operation identifiers *)
(* ================================================================== *)

Section FoldM.

Context {S A : Type}.
Variable f : S -> A -> result S.

Lemma foldM_app (l1 l2 : list A) (s s' : S) :
  foldM f (l1 ++ l2) s = Ok s' ->
  exists s1, foldM f l1 s = Ok s1 /\ foldM f l2 s1 = Ok s'.
Proof.
  revert s. induction l1 as [| x r IH]; intros s H.
  - exists s. split; [reflexivity | exact H].
  - cbn [app foldM] in H |- *. inv_bind H. cbn [bind]. apply IH, H.
Qed.

Lemma foldM_In (l : list A) (s s' : S) (x : A) :
  foldM f l s = Ok s' -> In x l -> exists s1 s2, f s1 x = Ok s2.
Proof.
  revert s. induction l as [| a r IH]; intros s H Hx; [contradiction |].
  cbn [foldM] in H. inv_bind H. destruct Hx as [<- | Hx].
  - eexists. eexists. eassumption.
  - eapply IH; eassumption.
Qed.

(** A property of the state that steps preserve, and that the steps on
    marked elements establish and require not to hold before. *)
Variable recorded : S -> Prop.
Variable marked : A -> Prop.
Hypothesis step_keeps :
  forall s x s', f s x = Ok s' -> recorded s -> recorded s'.
Hypothesis step_records :
  forall s x s', f s x = Ok s' -> marked x -> recorded s' /\ ~ recorded s.

Lemma foldM_keeps (l : list A) (s s' : S) :
  foldM f l s = Ok s' -> recorded s -> recorded s'.
Proof.
  revert s. induction l as [| a r IH]; intros s H Hs; cbn [foldM] in H.
  - injection H as <-. exact Hs.
  - inv_bind H. eapply IH; [exact H |]. eapply step_keeps; eassumption.
Qed.

Lemma foldM_records (l : list A) (s s' : S) (x : A) :
  foldM f l s = Ok s' -> In x l -> marked x -> recorded s' /\ ~ recorded s.
Proof.
  revert s. induction l as [| a r IH]; intros s H Hx Hm; [contradiction |].
  cbn [foldM] in H. inv_bind H. destruct Hx as [<- | Hx].
  - destruct (step_records _ _ _ E Hm) as [H1 H2].
    split; [eapply foldM_keeps; eassumption | exact H2].
  - destruct (IH _ H Hx Hm) as [H1 H2].
    split; [exact H1 |]. intros Hs. apply H2. eapply step_keeps; eassumption.
Qed.

(** A fold over a list with two marked elements does not succeed. *)
Lemma foldM_twice (l1 l2 l3 : list A) (x y : A) (s s' : S) :
  foldM f (l1 ++ x :: l2 ++ y :: l3) s = Ok s' -> marked x -> marked y -> False.
Proof.
  intros H Hx Hy. apply foldM_app in H. destruct H as (s1 & _ & H).
  cbn [foldM] in H. inv_bind H.
  destruct (step_records _ _ _ E Hx) as [H1 _].
  assert (Hin : In y (l2 ++ y :: l3)) by (apply in_elt).
  destruct (foldM_records _ _ _ _ H Hin Hy) as [_ H2].
  contradiction.
Qed.

End FoldM.

Lemma operationIdOf_truthy (op : value) (v r : string)
      (generator : option (string -> string -> string)) :
  truthy op$."operationId" = true ->
  operationIdOf op v r generator = Ok (op$."operationId", op).
Proof.
  intros H. unfold operationIdOf, getProp.
  assert (Hn : isNullish op = false) by (destruct op; try reflexivity; discriminate).
  rewrite Hn. cbn [bind]. rewrite H. reflexivity.
Qed.

(** After an operation was given to the synthesizer its identifier is in
    the list, whether the synthesis succeeded or not. *)
Lemma generateRestfulComponent_records (pascal : string -> string) (op op' : value)
      (v r : string) (ids : list value) (parameters schemasComponents : value)
      (generator : option (string -> string -> string)) (operationId : value) :
  operationIdOf op v r generator = Ok (operationId, op') ->
  existsb (sameValueZero operationId)
          (fst (generateRestfulComponent pascal op v r ids parameters
                                         schemasComponents generator)) = true
  \/ sameValueZero operationId operationId = false.
Proof.
  intros H. unfold generateRestfulComponent. rewrite H.
  destruct (existsb (sameValueZero operationId) ids) eqn:E; cbn [fst].
  - left. exact E.
  - rewrite existsb_app. cbn [existsb].
    destruct (sameValueZero operationId operationId); [left | right; reflexivity].
    rewrite orb_true_r. reflexivity.
Qed.

Section Assembler.

Variable pascal : string -> string.
Variable specs : value.
Variable generator : option (string -> string -> string).
Variable id : string.

Lemma assembleVerb_keeps (verbs : value) (r : string) (acc acc' : assembly)
      (e : string * value) :
  assembleVerb pascal specs verbs r generator acc e = Ok acc' ->
  recordedId id acc -> recordedId id acc'.
Proof.
  unfold assembleVerb, recordedId. destruct e as [v op].
  destruct (supportedVerb v); [| intros H; injection H as <-; auto].
  destruct (generateRestfulComponent pascal op v r (operationIds acc)
              verbs$."parameters" specs$."components" generator)
    as [ids' [[out c] | |]] eqn:E; cbn [bind]; try discriminate.
  apply generateRestfulComponent_Ok in E.
  destruct E as (operationId & op' & _ & _ & -> & _).
  intros H Hacc. injection H as <-. cbn [operationIds].
  rewrite existsb_app, Hacc. reflexivity.
Qed.

Lemma assembleVerb_records (verbs : value) (r : string) (acc acc' : assembly)
      (e : string * value) :
  assembleVerb pascal specs verbs r generator acc e = Ok acc' ->
  operationWithId generator id r e ->
  recordedId id acc' /\ ~ recordedId id acc.
Proof.
  unfold assembleVerb, recordedId, operationWithId. destruct e as [v op].
  cbn [fst snd]. intros H (Hv & op' & Hid). rewrite Hv in H.
  destruct (generateRestfulComponent pascal op v r (operationIds acc)
              verbs$."parameters" specs$."components" generator)
    as [ids' [[out c] | |]] eqn:E; cbn [bind] in H; try discriminate.
  apply generateRestfulComponent_Ok in E.
  destruct E as (operationId & op'' & Hid' & Hnew & -> & _).
  rewrite Hid in Hid'. injection Hid' as <- <-.
  injection H as <-. cbn [operationIds]. split.
  - rewrite existsb_app. cbn [existsb sameValueZero].
    rewrite String.eqb_refl, orb_true_r. reflexivity.
  - rewrite Hnew. discriminate.
Qed.

Lemma assembleRoute_Ok (acc acc' : assembly) (r : string) (verbs : value) :
  assembleRoute pascal specs generator acc (r, verbs) = Ok acc' ->
  exists ops,
    entries verbs = Ok ops
    /\ foldM (assembleVerb pascal specs verbs r generator) ops acc = Ok acc'.
Proof.
  unfold assembleRoute. intros H. inv_bind H. eexists. split; [reflexivity | exact H].
Qed.

Lemma assembleRoute_keeps (acc acc' : assembly) (e : string * value) :
  assembleRoute pascal specs generator acc e = Ok acc' ->
  recordedId id acc -> recordedId id acc'.
Proof.
  destruct e as [r verbs]. intros H.
  apply assembleRoute_Ok in H. destruct H as (ops & _ & H).
  eapply foldM_keeps; [| exact H]. intros s x s'. apply assembleVerb_keeps.
Qed.

Lemma assembleRoute_records (acc acc' : assembly) (e : string * value) :
  assembleRoute pascal specs generator acc e = Ok acc' ->
  routeWithId generator id e ->
  recordedId id acc' /\ ~ recordedId id acc.
Proof.
  destruct e as [r verbs]. intros H (ops' & e & He & Hin & Hop).
  apply assembleRoute_Ok in H. destruct H as (ops & Hops & H).
  cbn [fst snd] in He, Hop. rewrite He in Hops. injection Hops as <-.
  eapply (foldM_records (assembleVerb pascal specs verbs r generator)
            (recordedId id) (operationWithId generator id r)); try eassumption.
  - intros s x s'. apply assembleVerb_keeps.
  - intros s x s'. apply assembleVerb_records.
Qed.

(** The loops over the routes and the verbs stop on a document with two
    operations of one identifier. *)
Lemma assemble_duplicated (paths : list (string * value)) (acc : assembly) :
  duplicatedId generator id paths ->
  isOk (foldM (assembleRoute pascal specs generator) paths acc) = false.
Proof.
  intros Hdup.
  destruct (foldM (assembleRoute pascal specs generator) paths acc)
    as [acc' | |] eqn:E; try reflexivity.
  exfalso. destruct Hdup as [Hdup | Hdup].
  - destruct Hdup as (r & verbs & m1 & e1 & m2 & e2 & m3 & Hin & He & H1 & H2).
    destruct (foldM_In _ _ _ _ _ E Hin) as (s1 & s2 & Hs).
    apply assembleRoute_Ok in Hs. destruct Hs as (ops & Hops & Hs).
    rewrite He in Hops. injection Hops as <-.
    eapply (foldM_twice (assembleVerb pascal specs verbs r generator)
              (recordedId id) (operationWithId generator id r)); try eassumption.
    + intros s x s'. apply assembleVerb_keeps.
    + intros s x s'. apply assembleVerb_records.
  - destruct Hdup as (p1 & r1 & p2 & r2 & p3 & -> & H1 & H2).
    eapply (foldM_twice (assembleRoute pascal specs generator)
              (recordedId id) (routeWithId generator id)); try eassumption.
    + intros s x s'. apply assembleRoute_keeps.
    + intros s x s'. apply assembleRoute_records.
Qed.

End Assembler.

(** *** Totality of the assembler *)

Lemma terminates_forEachM {A : Type} (f : value -> A -> result value)
      (l : list A) (specs : value) :
  (forall s x, terminates (f s x)) -> terminates (forEachM f l specs).
Proof.
  intros H. revert specs. induction l as [| x r IH]; intros specs; cbn [forEachM].
  - apply terminates_Ok.
  - apply terminates_bind; [apply H | intros; apply IH].
Qed.

Lemma terminates_foldM {A S : Type} (f : S -> A -> result S) (l : list A) (s : S) :
  (forall s x, terminates (f s x)) -> terminates (foldM f l s).
Proof.
  intros H. revert s. induction l as [| x r IH]; intros s; cbn [foldM].
  - apply terminates_Ok.
  - apply terminates_bind; [apply H | intros; apply IH].
Qed.

Lemma terminates_resolveDiscriminator (specs : value) :
  terminates (resolveDiscriminator specs).
Proof.
  unfold resolveDiscriminator. terminates_step; [terminates_auto |].
  terminates_step; [| terminates_auto].
  terminates_step; [terminates_auto |].
  apply terminates_forEachM. intros s [key snapshot].
  unfold propagateSchema. terminates_step; [terminates_auto |].
  terminates_step; [terminates_auto |]. terminates_step; [terminates_auto |].
  terminates_step; [terminates_auto |]. terminates_step; [terminates_auto |].
  apply terminates_forEachM. intros s' [name ref].
  unfold propagateMapping. terminates_auto.
Qed.

Lemma terminates_generateSchemasDefinition (pascal : string -> string) (schemas : value) :
  terminates (generateSchemasDefinition pascal schemas).
Proof.
  unfold generateSchemasDefinition. terminates_step; [terminates_auto |].
  terminates_step; [terminates_auto |]. terminates_step; [| terminates_auto].
  terminates_step. destruct x as [name schema].
  unfold schemaDefinition, isPlainObjectSchema, generateInterface. terminates_auto.
Qed.

Lemma terminates_bodiesDefinition (pascal : string -> string) (suffix : string)
      (nodes : value) :
  terminates (bodiesDefinition pascal suffix nodes).
Proof.
  unfold bodiesDefinition. terminates_step; [terminates_auto |].
  terminates_step; [terminates_auto |]. terminates_step; [| terminates_auto].
  terminates_step. destruct x as [name node]. unfold bodyDefinition.
  terminates_step; [terminates_auto |].
  terminates_step; [apply terminates_getResReqTypes | terminates_auto].
Qed.

Lemma terminates_assembleRoute (pascal : string -> string) (specs : value)
      (generator : option (string -> string -> string)) (acc : assembly)
      (e : string * value) :
  terminates (assembleRoute pascal specs generator acc e).
Proof.
  destruct e as [r verbs]. unfold assembleRoute.
  terminates_step; [terminates_auto |].
  apply terminates_foldM. intros s [v op]. unfold assembleVerb.
  destruct (supportedVerb v); [| apply terminates_Ok].
  pose proof (terminates_generateRestfulComponent pascal op v r (operationIds s)
                verbs$."parameters" specs$."components" generator) as Hg.
  destruct (generateRestfulComponent pascal op v r (operationIds s)
              verbs$."parameters" specs$."components" generator) as [ids' res].
  cbn [snd] in Hg. terminates_step; [exact Hg | terminates_auto].
Qed.

Lemma terminates_importOpenApi (pascal : string -> string) (specs : value)
      (customImport : string) (customGenerator : option (component -> string))
      (customGeneratorWrap : string -> string)
      (generator : option (string -> string -> string)) :
  terminates (importOpenApi pascal specs customImport customGenerator
                            customGeneratorWrap generator).
Proof.
  unfold importOpenApi, generateRequestBodiesDefinition, generateResponsesDefinition.
  terminates_step; [apply terminates_resolveDiscriminator |].
  terminates_step; [apply terminates_generateSchemasDefinition |].
  terminates_step; [apply terminates_bodiesDefinition |].
  terminates_step; [apply terminates_bodiesDefinition |].
  terminates_step; [terminates_auto |].
  terminates_step; [| terminates_auto].
  apply terminates_foldM. intros s x. apply terminates_assembleRoute.
Qed.

(** C3, as stated, fails: the identifiers [getPet] and [get_pet] are the
    same in PascalCase, and the second operation is synthesized after the
    first without an error, into a component of the same name; a document
    with the two operations is assembled into an output. *)
Lemma C3_pascal_equal_ids_not_refused :
  pascalAscii "getPet" = pascalAscii "get_pet"
  /\ (exists out1 c1 out2 c2,
         generateRestfulComponent pascalAscii getPetCamel "get" "/pet" []
                                  VUndefined VUndefined None
         = ([VStr "getPet"], Ok (out1, c1))
         /\ generateRestfulComponent pascalAscii getPetSnake "get" "/pets"
                                     [VStr "getPet"] VUndefined VUndefined None
            = ([VStr "getPet"; VStr "get_pet"], Ok (out2, c2))
         /\ componentName c1 = componentName c2)
  /\ isOk (importOpenApi pascalAscii twoSpellings EmptyString None (fun s => s) None)
     = true.
Proof.
  split; [reflexivity |]. split; [| reflexivity].
  eexists. eexists. eexists. eexists.
  split; [vm_compute; reflexivity |]. split; [vm_compute; reflexivity |].
  reflexivity.
Qed.

(** C3, amended: two operations with the same identifier as written (or as
    generated for them), before any PascalCase conversion: synthesizing the
    second after the first throws the duplication error, and the assembly of
    a document with two such operations throws and returns no output. *)
Theorem C3_duplicate_operationId
        (pascal : string -> string) (generator : option (string -> string -> string))
        (id : string) :
  (* declared identifiers *)
  (forall op1 op2 v1 r1 v2 r2 ids parameters1 components1 parameters2 components2,
      op1$."operationId" = VStr id -> op2$."operationId" = VStr id ->
      id <> EmptyString ->
      snd (generateRestfulComponent
             pascal op2 v2 r2
             (fst (generateRestfulComponent pascal op1 v1 r1 ids parameters1
                                            components1 generator))
             parameters2 components2 generator)
      = Throw (duplicatedOperationId (VStr id)))
  (* identifiers as the synthesizer determines them *)
  /\ (forall op1 op1' op2 op2' v1 r1 v2 r2 ids parameters1 components1
             parameters2 components2,
         operationIdOf op1 v1 r1 generator = Ok (VStr id, op1') ->
         operationIdOf op2 v2 r2 generator = Ok (VStr id, op2') ->
         snd (generateRestfulComponent
                pascal op2 v2 r2
                (fst (generateRestfulComponent pascal op1 v1 r1 ids parameters1
                                               components1 generator))
                parameters2 components2 generator)
         = Throw (duplicatedOperationId (VStr id)))
  (* the run *)
  /\ (forall specs specs' paths customImport customGenerator customGeneratorWrap,
         resolveDiscriminator specs = Ok specs' ->
         entries specs'$."paths" = Ok paths ->
         duplicatedId generator id paths ->
         isThrow (importOpenApi pascal specs customImport customGenerator
                                customGeneratorWrap generator) = true).
Proof.
  assert (Hgen : forall op1 op1' op2 op2' v1 r1 v2 r2 ids parameters1 components1
                        parameters2 components2,
             operationIdOf op1 v1 r1 generator = Ok (VStr id, op1') ->
             operationIdOf op2 v2 r2 generator = Ok (VStr id, op2') ->
             snd (generateRestfulComponent
                    pascal op2 v2 r2
                    (fst (generateRestfulComponent pascal op1 v1 r1 ids parameters1
                                                   components1 generator))
                    parameters2 components2 generator)
             = Throw (duplicatedOperationId (VStr id))).
  { intros op1 op1' op2 op2' v1 r1 v2 r2 ids parameters1 components1
           parameters2 components2 H1 H2.
    destruct (generateRestfulComponent_records pascal op1 op1' v1 r1 ids parameters1
                components1 generator (VStr id) H1) as [H | H].
    - unfold generateRestfulComponent at 1. rewrite H2, H. reflexivity.
    - cbn [sameValueZero] in H. rewrite String.eqb_refl in H. discriminate. }
  split; [| split; [exact Hgen |]].
  - intros op1 op2 v1 r1 v2 r2 ids parameters1 components1 parameters2 components2
           H1 H2 Hid.
    assert (Ht : truthy (VStr id) = true) by (destruct id; [contradiction | reflexivity]).
    apply (Hgen op1 op1 op2 op2).
    + rewrite <- H1. apply operationIdOf_truthy. rewrite H1. exact Ht.
    + rewrite <- H2. apply operationIdOf_truthy. rewrite H2. exact Ht.
  - intros specs specs' paths customImport customGenerator customGeneratorWrap
           Hd Hp Hdup.
    apply isThrow_of_not_Ok; [apply terminates_importOpenApi |].
    destruct (importOpenApi pascal specs customImport customGenerator
                            customGeneratorWrap generator) as [text | |] eqn:E;
      try reflexivity.
    exfalso. unfold importOpenApi in E. rewrite Hd in E. cbn [bind] in E.
    inv_bind E. inv_bind E. inv_bind E. rewrite Hp in E. cbn [bind] in E.
    inv_bind E.
    match type of E3 with
    | foldM _ _ ?acc = _ =>
        pose proof (assemble_duplicated pascal specs' generator id paths acc Hdup) as H
    end.
    rewrite E3 in H. discriminate.
Qed.

(** Two operations [getPet]: the second synthesis throws the duplication
    error, and the document with both is not assembled. *)
Lemma C3_duplicate_operationId_witness :
  snd (generateRestfulComponent
         pascalAscii getPetCamel "get" "/pets"
         (fst (generateRestfulComponent pascalAscii getPetCamel "get" "/pet" []
                                        VUndefined VUndefined None))
         VUndefined VUndefined None)
  = Throw (duplicatedOperationId (VStr "getPet"))
  /\ isThrow (importOpenApi pascalAscii twiceGetPet EmptyString None (fun s => s) None)
     = true.
Proof.
  destruct (C3_duplicate_operationId pascalAscii None "getPet") as (H1 & _ & H2).
  split.
  - apply H1; [reflexivity | reflexivity | discriminate].
  - apply (H2 twiceGetPet twiceGetPet
              [("/pet", VObj [("get", getPetCamel)]);
               ("/pets", VObj [("get", getPetCamel)])]); try reflexivity.
    right. exists [], ("/pet", VObj [("get", getPetCamel)]), [],
             ("/pets", VObj [("get", getPetCamel)]), [].
    split; [reflexivity |].
    split; exists [("get", getPetCamel)], ("get", getPetCamel);
      (split; [reflexivity |]); (split; [left; reflexivity |]);
      (split; [reflexivity |]); exists getPetCamel; reflexivity.
Defined.

(* ================================================================== *)
(** ** The declarations of the component schemas *)
(* ================================================================== *)

(** The text of the assembler only grows. *)
Lemma assembleVerb_output (pascal : string -> string) (specs verbs : value)
      (r : string) (generator : option (string -> string -> string))
      (base : string) (acc acc' : assembly) (e : string * value) :
  assembleVerb pascal specs verbs r generator acc e = Ok acc' ->
  (exists tail, output acc = base ++ tail) ->
  exists tail, output acc' = base ++ tail.
Proof.
  unfold assembleVerb. destruct e as [v op].
  destruct (supportedVerb v); [| intros H; injection H as <-; auto].
  destruct (generateRestfulComponent pascal op v r (operationIds acc)
              verbs$."parameters" specs$."components" generator)
    as [ids' [[out c] | |]]; cbn [bind]; try discriminate.
  intros H [tail Ht]. injection H as <-. cbn [output fst].
  exists (tail ++ out). rewrite Ht, append_assoc. reflexivity.
Qed.

Lemma assembleRoute_output (pascal : string -> string) (specs : value)
      (generator : option (string -> string -> string))
      (base : string) (acc acc' : assembly) (e : string * value) :
  assembleRoute pascal specs generator acc e = Ok acc' ->
  (exists tail, output acc = base ++ tail) ->
  exists tail, output acc' = base ++ tail.
Proof.
  destruct e as [r verbs]. intros H Hacc.
  destruct (assembleRoute_Ok _ _ _ _ _ _ _ H) as (ops & _ & Hf).
  eapply (foldM_keeps _ (fun s => exists tail, output s = base ++ tail));
    [| exact Hf | exact Hacc].
  intros s x s'. apply assembleVerb_output.
Qed.

(** The definitions of a non-empty table of schemas are the declarations
    of its entries, in order, two line breaks apart. *)
Lemma generateSchemasDefinition_declarations (pascal : string -> string)
      (entry : string * value) (rest : list (string * value)) (text : string) :
  generateSchemasDefinition pascal (VObj (entry :: rest)) = Ok text
  <-> exists ds, Forall2 (declaration pascal) (entry :: rest) ds
                 /\ text = Str.join (Str.nl ++ Str.nl) ds ++ Str.nl.
Proof.
  rewrite generateSchemasDefinition_entries. split.
  - intros H. inv_bind H. injection H as <-. exists a. split; [| reflexivity].
    apply mapM_Forall2 in E.
    eapply Forall2_impl; [| exact E].
    intros e d. apply schemaDefinition_declaration.
  - intros (ds & Hds & ->).
    assert (E : mapM (schemaDefinition pascal) (entry :: rest) = Ok ds).
    { apply mapM_Forall2. eapply Forall2_impl; [| exact Hds].
      intros e d. apply schemaDefinition_declaration. }
    rewrite E. reflexivity.
Qed.

(** C6: the text the importer emits for a non-empty table of component
    schemas is made of one declaration per entry, in order; the declaration
    of an entry is an interface exactly when its schema is a plain record
    (inline, no type tag or type [object], no [allOf], no [oneOf], not
    nullable), the interface body being its resolved record type, which
    opens with a brace; the declaration of every other schema is a type
    alias of its resolved type expression.  These declarations come first,
    after the banner, in the output of the importer. *)
Theorem C6_interface_for_plain_records_only
        (pascal : string -> string) (entry : string * value)
        (rest : list (string * value)) :
  let entries := entry :: rest in
  (* the table *)
  (forall text,
      generateSchemasDefinition pascal (VObj entries) = Ok text
      <-> exists ds, Forall2 (declaration pascal) entries ds
                     /\ text = Str.join (Str.nl ++ Str.nl) ds ++ Str.nl)
  (* the declaration of an entry *)
  /\ (forall name schema text,
         declaration pascal (name, schema) text ->
         (plainRecord schema
          <-> exists doc body,
                definitionDoc schema = Ok doc
                /\ text = doc ++ "export interface " ++ pascal name ++ " " ++ body)
         /\ (~ plainRecord schema
             <-> exists doc t,
                   definitionDoc schema = Ok doc
                   /\ resolveValue pascal schema = Ok t
                   /\ text = doc ++ "export type " ++ pascal name ++ " = " ++ t ++ ";")
         /\ (plainRecord schema -> truthy schema = true ->
             exists doc body,
               definitionDoc schema = Ok doc
               /\ getScalar pascal schema = Ok body
               /\ Str.startsWith body "{" = true
               /\ text = doc ++ "export interface " ++ pascal name ++ " " ++ body))
  (* the run *)
  /\ (forall specs specs' customImport customGenerator customGeneratorWrap
             generator text,
         resolveDiscriminator specs = Ok specs' ->
         specs'$."components"$."schemas" = VObj entries ->
         importOpenApi pascal specs customImport customGenerator
                       customGeneratorWrap generator = Ok text ->
         exists ds tail,
           Forall2 (declaration pascal) entries ds
           /\ text = banner customImport
                     ++ (Str.join (Str.nl ++ Str.nl) ds ++ Str.nl) ++ tail).
Proof.
  intros entries. split; [| split].
  - intros text. apply generateSchemasDefinition_declarations.
  - intros name schema text (Hn & doc & t & Hdoc & Hcases).
    cbn [fst snd] in *.
    assert (Hclash : forall body t',
               doc ++ "export interface " ++ pascal name ++ " " ++ body
               = doc ++ "export type " ++ pascal name ++ " = " ++ t' ++ ";" ->
               False).
    { intros body t' H. apply append_inj_l in H. discriminate H. }
    split; [| split].
    + split.
      * intros Hp. destruct Hcases as [(_ & _ & ->) | (Hnp & _)];
          [| contradiction (Hnp Hp)].
        exists doc, t. split; [exact Hdoc | reflexivity].
      * intros (doc' & body & Hdoc' & Htext).
        destruct Hcases as [(Hp & _) | (_ & _ & ->)]; [exact Hp |].
        rewrite Hdoc in Hdoc'. injection Hdoc' as <-.
        exfalso. exact (Hclash _ _ (eq_sym Htext)).
    + split.
      * intros Hnp. destruct Hcases as [(Hp & _) | (_ & Ht & ->)];
          [contradiction (Hnp Hp) |].
        exists doc, t. split; [exact Hdoc | split; [exact Ht | reflexivity]].
      * intros (doc' & t' & Hdoc' & _ & Htext) Hp.
        destruct Hcases as [(_ & _ & ->) | (Hnp & _)];
          [| contradiction (Hnp Hp)].
        rewrite Hdoc in Hdoc'. injection Hdoc' as <-.
        exact (Hclash _ _ Htext).
    + intros Hp Ht. destruct Hcases as [(_ & Hs & ->) | (Hnp & _)];
        [| contradiction (Hnp Hp)].
      exists doc, t. split; [exact Hdoc |]. split; [exact Hs |].
      split; [exact (plainRecord_body_brace _ _ _ Ht Hp Hs) | reflexivity].
  - intros specs specs' customImport customGenerator customGeneratorWrap
           generator text Hd Hs H.
    destruct (field_isObject specs'$."components" "schemas") as [cs Hc];
      [rewrite Hs; discriminate |].
    unfold importOpenApi in H. rewrite Hd in H. cbn [bind] in H.
    assert (Hand : andThen specs'$."components" specs'$."components"$."schemas"
                   = VObj entries).
    { unfold andThen. rewrite Hc at 1. cbn [truthy]. exact Hs. }
    rewrite Hand in H. inv_bind H. inv_bind H. inv_bind H. inv_bind H.
    inv_bind H. injection H as <-.
    apply generateSchemasDefinition_declarations in E.
    destruct E as (ds & Hds & ->).
    destruct (foldM_keeps _ (fun s => exists tail,
                                 output s
                                 = (Str.join (Str.nl ++ Str.nl) ds ++ Str.nl) ++ tail)
                          (fun s x s' => assembleRoute_output _ _ _ _ _ _ _)
                          _ _ _ E3) as [tail Htail].
    { cbn [output]. exists (a0 ++ a1). reflexivity. }
    eexists ds, _. split; [exact Hds |].
    rewrite Htail. unfold banner. rewrite !append_assoc. reflexivity.
Qed.

(** The schema [Dog] is declared as an interface and the string schema
    [Name] as a type alias, in this order, by [generateSchemasDefinition]
    and at the head of the output of the importer. *)
Lemma C6_interface_for_plain_records_only_witness :
  generateSchemasDefinition pascalAscii (VObj dogAndName)
  = Ok ("export interface Dog "
        ++ ("{" ++ Str.nl ++ "  petType?: string;" ++ Str.nl ++ "}")
        ++ Str.nl ++ Str.nl ++ "export type Name = string;" ++ Str.nl)
  /\ (exists ds,
         Forall2 (declaration pascalAscii) dogAndName ds
         /\ "export interface Dog "
            ++ ("{" ++ Str.nl ++ "  petType?: string;" ++ Str.nl ++ "}")
            ++ Str.nl ++ Str.nl ++ "export type Name = string;" ++ Str.nl
            = Str.join (Str.nl ++ Str.nl) ds ++ Str.nl)
  /\ (exists text ds tail,
         importOpenApi pascalAscii dogAndNameDocument EmptyString None
                       (fun s => s) None = Ok text
         /\ Forall2 (declaration pascalAscii) dogAndName ds
         /\ text = banner EmptyString
                   ++ (Str.join (Str.nl ++ Str.nl) ds ++ Str.nl) ++ tail).
Proof.
  split; [reflexivity |]. split.
  - apply (proj1 (proj1 (C6_interface_for_plain_records_only
                           pascalAscii ("Dog", dogSchema)
                           [("Name", stringSchema)]) _)).
    reflexivity.
  - destruct (proj2 (proj2 (C6_interface_for_plain_records_only
                              pascalAscii ("Dog", dogSchema)
                              [("Name", stringSchema)]))
                    dogAndNameDocument dogAndNameDocument EmptyString None
                    (fun s => s) None _ eq_refl eq_refl eq_refl)
      as (ds & tail & Hds & Htext).
    eexists. exists ds, tail. split; [reflexivity |].
    split; [exact Hds | exact Htext].
Defined.

(* ================================================================== *)
(** ** Discriminator propagation *)
(* ================================================================== *)

(** A mapping that points outside the component schemas is refused. *)
Lemma propagateMapping_outside (propertyName specs : value) (name ref : string) :
  Str.startsWith ref "#/components/schemas/" = false ->
  propagateMapping propertyName specs (name, VStr ref) = Throw mappingOutsideSchemas.
Proof. intros H. unfold propagateMapping. rewrite H. reflexivity. Qed.

(** A mapping into the component schemas is propagated by one [set] on the
    dotted path built from the schema name and the property name. *)
Lemma propagateMapping_inside (propertyName specs : value) (name target : string) :
  propagateMapping propertyName specs (name, VStr ("#/components/schemas/" ++ target))
  = Ok (Lodash.set specs
          ("components.schemas." ++ target ++ ".properties."
           ++ toString propertyName ++ ".enum")
          (VArr [VStr name])).
Proof.
  unfold propagateMapping. rewrite startsWith_append.
  rewrite (drop_append "#/components/schemas/" target). reflexivity.
Qed.

(** *** What [set] does on ordinary keys *)



Lemma assoc_replaceKey_same (k : string) (v : value) (fs : list (string * value)) :
  hasKey k fs = true -> assoc k (Lodash.replaceKey k v fs) = v.
Proof.
  induction fs as [| [k0 v0] r IH]; cbn [hasKey Lodash.replaceKey]; intros H.
  - discriminate.
  - destruct (String.eqb k k0) eqn:E; cbn [assoc].
    + rewrite String.eqb_refl. reflexivity.
    + rewrite E. apply IH. exact H.
Qed.

Lemma assoc_insertKey_same (k : string) (v : value) (fs : list (string * value)) :
  hasKey k fs = false -> assoc k (Lodash.insertKey k v fs) = v.
Proof.
  induction fs as [| [k0 v0] r IH]; cbn [hasKey Lodash.insertKey]; intros H.
  - cbn [assoc]. rewrite String.eqb_refl. reflexivity.
  - apply orb_false_iff in H. destruct H as [E H].
    destruct (Lodash.arrayIndex k) as [n |];
      [destruct (Lodash.arrayIndex k0) as [n0 |]; [destruct (N.ltb n n0) |] |];
      cbn [assoc]; rewrite ?String.eqb_refl, ?E; auto.
Qed.





(** At an unsafe key nothing is written. *)
Lemma baseSet_unsafe (key : string) (rest : list string) (v nested : value) :
  Lodash.unsafeKey key = true -> Lodash.baseSet (key :: rest) v nested = nested.
Proof. intros H. destruct rest; cbn [Lodash.baseSet]; rewrite H; reflexivity. Qed.



(** *** The keys of a path without brackets *)




Lemma spanKey_spec (s k rest : string) :
  Lodash.spanKey s = (k, rest) ->
  s = k ++ rest /\ plainKey k = true
  /\ match rest with
     | EmptyString => True
     | String c _ => Lodash.isPathPunct c = true
     end.
Proof.
  revert k rest. induction s as [| c r IH]; intros k rest H.
  - injection H as <- <-. repeat split.
  - cbn [Lodash.spanKey] in H. destruct (Lodash.isPathPunct c) eqn:Hc.
    + injection H as <- <-. repeat split. exact Hc.
    + destruct (Lodash.spanKey r) as [k' rest'] eqn:E. injection H as <- <-.
      destruct (IH _ _ eq_refl) as (-> & Hk & Hrest).
      split; [reflexivity |]. split; [| exact Hrest].
      unfold plainKey in *. cbn [Str.all]. rewrite Hc, Hk. reflexivity.
Qed.

Lemma scanPath_empty (n : nat) : Lodash.scanPath n EmptyString = [].
Proof. destruct n; reflexivity. Qed.

Lemma spanDigits_length (s d rest : string) :
  Lodash.spanDigits s = (d, rest) ->
  String.length s = String.length d + String.length rest.
Proof.
  revert d rest. induction s as [| c r IH]; intros d rest H.
  - injection H as <- <-. reflexivity.
  - cbn [Lodash.spanDigits] in H. destruct (Str.isDigit c).
    + destruct (Lodash.spanDigits r) as [d' rest'] eqn:E. injection H as <- <-.
      cbn [String.length]. rewrite (IH _ _ eq_refl). reflexivity.
    + injection H as <- <-. reflexivity.
Qed.

Lemma matchNumber_length (s k rest : string) :
  Lodash.matchNumber s = Some (k, rest) -> String.length rest < String.length s.
Proof.
  unfold Lodash.matchNumber.
  assert (G : forall sign s1,
             String.length s1 <= String.length s ->
             (let (d1, s2) := Lodash.spanDigits s1 in
              if Str.nonEmpty d1 then
                match s2 with
                | String c r =>
                    if Ascii.eqb c "]" then Some (sign ++ d1, r)
                    else if Ascii.eqb c "." then
                      let (d2, s3) := Lodash.spanDigits r in
                      if Str.nonEmpty d2 then
                        match s3 with
                        | String e r' =>
                            if Ascii.eqb e "]"
                            then Some (sign ++ d1 ++ "." ++ d2, r') else None
                        | EmptyString => None
                        end
                      else None
                    else None
                | EmptyString => None
                end
              else None) = Some (k, rest) ->
             String.length rest < String.length s).
  { intros sign s1 Hle.
    destruct (Lodash.spanDigits s1) as [d1 s2] eqn:E1.
    apply spanDigits_length in E1.
    destruct (Str.nonEmpty d1); [| discriminate].
    destruct s2 as [| c r]; [discriminate |]. cbn [String.length] in E1.
    destruct (Ascii.eqb c "]").
    - intros H. injection H as _ <-. lia.
    - destruct (Ascii.eqb c "."); [| discriminate].
      destruct (Lodash.spanDigits r) as [d2 s3] eqn:E2.
      apply spanDigits_length in E2.
      destruct (Str.nonEmpty d2); [| discriminate].
      destruct s3 as [| e r']; [discriminate |]. cbn [String.length] in E2.
      destruct (Ascii.eqb e "]"); [| discriminate].
      intros H. injection H as _ <-. lia. }
  destruct s as [| c r].
  - apply (G EmptyString EmptyString). apply Nat.le_refl.
  - destruct (Ascii.eqb c "-").
    + apply (G "-" r). cbn [String.length]. lia.
    + apply (G EmptyString (String c r)). apply Nat.le_refl.
Qed.

Lemma matchQuoted_length (q : ascii) (s sub rest : string) :
  Lodash.matchQuoted q s = Some (sub, rest) ->
  String.length rest < String.length s.
Proof.
  assert (G : forall n s sub rest,
             String.length s <= n ->
             Lodash.matchQuoted q s = Some (sub, rest) ->
             String.length rest < String.length s).
  { clear s sub rest. induction n as [| n IH]; intros s sub rest Hle.
    - destruct s; [discriminate | simpl in Hle; lia].
    - destruct s as [| c r]; [discriminate |]. cbn [String.length] in Hle.
      cbn [Lodash.matchQuoted]. destruct (Ascii.eqb c q).
      + destruct r as [| d rest']; [discriminate |].
        destruct (Ascii.eqb d "]"); [| discriminate].
        intros H. injection H as _ <-. cbn [String.length]. lia.
      + destruct (Ascii.eqb c Lodash.backslash).
        * destruct r as [| d r']; [discriminate |].
          destruct (Str.lineTerminatorAt (String d r')); [discriminate |].
          destruct (Lodash.matchQuoted q r') as [[sub' rest'] |] eqn:E;
            [| discriminate].
          intros H. injection H as _ <-. cbn [String.length] in Hle |- *.
          apply IH in E; [| lia]. lia.
        * destruct (Lodash.matchQuoted q r) as [[sub' rest'] |] eqn:E;
            [| discriminate].
          intros H. injection H as _ <-. cbn [String.length].
          apply IH in E; [| lia]. lia. }
  exact (G _ s sub rest (Nat.le_refl _)).
Qed.

Lemma matchBracket_length (s k rest : string) :
  Lodash.matchBracket s = Some (k, rest) -> String.length rest < String.length s.
Proof.
  unfold Lodash.matchBracket.
  destruct (Lodash.matchNumber s) as [[k' rest'] |] eqn:E.
  - intros H. injection H as _ <-. exact (matchNumber_length _ _ _ E).
  - destruct s as [| q r]; [discriminate |].
    destruct (Lodash.isQuote q); [| discriminate].
    destruct (Lodash.matchQuoted q r) as [[sub rest'] |] eqn:Eq; [| discriminate].
    intros H. injection H as _ <-. apply matchQuoted_length in Eq.
    cbn [String.length]. lia.
Qed.

(** The scan of a path needs no more fuel than the path has characters. *)
Lemma scanPath_fuel (n m : nat) (s : string) :
  String.length s <= n -> String.length s <= m ->
  Lodash.scanPath n s = Lodash.scanPath m s.
Proof.
  revert m s. induction n as [| n IH]; intros m s Hn Hm.
  - destruct s; [| simpl in Hn; lia]. rewrite !scanPath_empty. reflexivity.
  - destruct m as [| m].
    + destruct s; [| simpl in Hm; lia]. rewrite !scanPath_empty. reflexivity.
    + destruct s as [| c r]; [reflexivity |].
      cbn [String.length] in Hn, Hm. cbn [Lodash.scanPath].
      destruct (Lodash.isPathPunct c) eqn:Hc; cbn [negb].
      * destruct (if Ascii.eqb c "[" then Lodash.matchBracket r else None)
          as [[k rest] |] eqn:E.
        -- destruct (Ascii.eqb c "["); [| discriminate E].
           apply matchBracket_length in E. f_equal. apply IH; lia.
        -- destruct (Lodash.emptyKeyAt (String c r));
             [f_equal |]; apply IH; lia.
      * cbn [Lodash.spanKey]. rewrite Hc.
        destruct (Lodash.spanKey r) as [k rest] eqn:E.
        destruct (spanKey_spec _ _ _ E) as (Er & _ & _).
        assert (String.length r = String.length k + String.length rest)
          by (rewrite Er; apply length_append).
        f_equal. apply IH; lia.
Qed.






(** The example of the specification: [Dog.properties.petType.enum] becomes
    [["dog"]]. *)
Lemma resolveDiscriminator_petStore :
  exists specs',
    resolveDiscriminator petStore = Ok specs'
    /\ specs'$."components"$."schemas"$."Dog"$."properties"$."petType"$."enum"
       = VArr [VStr "dog"].
Proof. eexists. split; [vm_compute; reflexivity | reflexivity]. Qed.

(** C5: with the target schema named [My.Dog] the propagator does not throw
    and does not touch the target: the name is spliced into a dotted path,
    which [set] splits at every dot, so the enum is written into a new
    schema [My], under its key [Dog], and [My.Dog] keeps its property as it
    was. *)
Theorem C5_dotted_target_not_propagated :
  exists specs',
    resolveDiscriminator dottedPetStore = Ok specs'
    /\ specs'$."components"$."schemas"$."My.Dog" = dogSchema
    /\ specs'$."components"$."schemas"$."My.Dog"$."properties"$."petType"$."enum"
       = VUndefined
    /\ specs'$."components"$."schemas"$."My"$."Dog"$."properties"$."petType"$."enum"
       = VArr [VStr "dog"].
Proof. eexists. split; [vm_compute; reflexivity | repeat split]. Qed.

(* ================================================================== *)
(** ** Further properties: the reference resolver *)
(* ================================================================== *)

Lemma startsWith_trans (s p q : string) :
  Str.startsWith s p = true -> Str.startsWith p q = true ->
  Str.startsWith s q = true.
Proof.
  revert s p. induction q as [| c q IH]; intros s p Hs Hp; [reflexivity |].
  destruct p as [| d p]; [discriminate Hp |].
  destruct s as [| e s]; [discriminate Hs |].
  cbn [Str.startsWith] in *.
  apply andb_true_iff in Hs as [Hde Hs].
  apply andb_true_iff in Hp as [Hcd Hp].
  apply Ascii.eqb_eq in Hde. apply Ascii.eqb_eq in Hcd. subst.
  rewrite Ascii.eqb_refl. cbn [andb]. exact (IH _ _ Hs Hp).
Qed.

Lemma startsWith_false_longer (s p q : string) :
  Str.startsWith s q = false -> Str.startsWith p q = true ->
  Str.startsWith s p = false.
Proof.
  intros Hs Hp. destruct (Str.startsWith s p) eqn:E; [| reflexivity].
  rewrite (startsWith_trans _ _ _ E Hp) in Hs. discriminate Hs.
Qed.

(** X1: a pointer made of one of the four component roots, a slash and a
    name resolves to the PascalCase name, followed by nothing for a schema,
    by Response, Parameter or RequestBody for the other three roots. *)
Theorem X1_getRef_component_roots (pascal : string -> string) (name : string) :
  getRef pascal ("#/components/schemas/" ++ name) = Ok (pascal name)
  /\ getRef pascal ("#/components/responses/" ++ name)
     = Ok (pascal name ++ "Response")
  /\ getRef pascal ("#/components/parameters/" ++ name)
     = Ok (pascal name ++ "Parameter")
  /\ getRef pascal ("#/components/requestBodies/" ++ name)
     = Ok (pascal name ++ "RequestBody").
Proof.
  split; [| split; [| split]].
  - apply getRef_schemas.
  - apply getRef_responses.
  - apply getRef_parameters.
  - apply getRef_requestBodies.
Qed.

(** X2: a pointer that does not start with [#/components/] (a pointer into
    another document, a Swagger 2 [#/definitions/] pointer) is refused with
    the unsupported reference error. *)
Theorem X2_getRef_outside_components (pascal : string -> string) (ref : string) :
  Str.startsWith ref "#/components/" = false ->
  getRef pascal ref = Throw unsupportedRef.
Proof.
  intros H. apply getRef_unsupported;
    apply (startsWith_false_longer _ _ _ H); reflexivity.
Qed.

Lemma X2_getRef_outside_components_witness :
  getRef pascalAscii "#/definitions/Pet" = Throw unsupportedRef
  /\ getRef pascalAscii "pets.yaml#/components/schemas/Pet" = Throw unsupportedRef.
Proof.
  split.
  - apply (X2_getRef_outside_components pascalAscii "#/definitions/Pet").
    reflexivity.
  - apply (X2_getRef_outside_components pascalAscii
             "pets.yaml#/components/schemas/Pet").
    reflexivity.
Defined.

(* ================================================================== *)
(** ** Further properties: the type resolver *)
(* ================================================================== *)

Lemma mapM_Throw {A B : Type} (f : A -> result B) (l : list A) (e : exn) :
  mapM f l = Throw e -> exists x, In x l /\ f x = Throw e.
Proof.
  induction l as [| x r IH]; cbn [mapM]; intros H; [discriminate H |].
  destruct (f x) eqn:E; cbn [bind] in H.
  - destruct (mapM f r) eqn:E'; cbn [bind] in H;
      [discriminate H | | discriminate H].
    injection H as ->. destruct (IH eq_refl) as [y [Hy Ey]].
    exists y. split; [right; exact Hy | exact Ey].
  - injection H as ->. exists x. split; [left; reflexivity | exact E].
  - discriminate H.
Qed.

Lemma getProp_errors (v : value) (k : string) (e : exn) :
  getProp v k = Throw e -> e = TypeError.
Proof.
  unfold getProp. destruct (isNullish v); intros H;
    [injection H as <-; reflexivity | discriminate H].
Qed.

Lemma entries_errors (v : value) (e : exn) :
  entries v = Throw e -> e = TypeError.
Proof.
  destruct v; cbn [entries]; intros H; try discriminate H;
    injection H as <-; reflexivity.
Qed.

Lemma includesKey_errors (v : value) (k : string) (e : exn) :
  includesKey v k = Throw e -> e = TypeError.
Proof.
  destruct v; cbn [includesKey]; intros H; try discriminate H;
    injection H as <-; reflexivity.
Qed.

Lemma enumUnion_errors (v : value) (e : exn) :
  enumUnion v = Throw e -> e = TypeError.
Proof.
  destruct v; cbn [enumUnion]; intros H; try discriminate H;
    injection H as <-; reflexivity.
Qed.

Lemma formatDescriptionOf_errors (d : value) (n : nat) (e : exn) :
  formatDescriptionOf d n = Throw e -> e = TypeError.
Proof.
  unfold formatDescriptionOf. destruct (truthy d); [| discriminate].
  destruct d; intros H; try discriminate H; injection H as <-; reflexivity.
Qed.

Lemma getRef_errors (pascal : string -> string) (ref : string) (e : exn) :
  getRef pascal ref = Throw e -> e = unsupportedRef.
Proof.
  unfold getRef.
  repeat match goal with
         | |- (if ?b then _ else _) = _ -> _ => destruct b; [discriminate |]
         end.
  intros H. injection H as <-. reflexivity.
Qed.

Lemma getRefOf_errors (pascal : string -> string) (ref : value) (e : exn) :
  getRefOf pascal ref = Throw e -> resolverError e.
Proof.
  destruct ref; cbn [getRefOf]; intros H;
    try (injection H as <-; right; right; reflexivity).
  left. exact (getRef_errors _ _ _ H).
Qed.

Ltac type_error H := subst; right; right; reflexivity.

Ltac errors_step :=
  match goal with
  | |- resolverError _ => solve [unfold resolverError; auto]
  | H : Ok _ = Throw _ |- _ => discriminate H
  | H : OutOfFuel = Throw _ |- _ => discriminate H
  | H : Throw _ = Throw _ |- _ => injection H as H; subst
  | HF : throwsResolverErrors ?F, H : ?F _ = Throw _ |- _ => exact (HF _ _ H)
  | H : getProp _ _ = Throw _ |- _ => apply getProp_errors in H; type_error H
  | H : entries _ = Throw _ |- _ => apply entries_errors in H; type_error H
  | H : includesKey _ _ = Throw _ |- _ => apply includesKey_errors in H; type_error H
  | H : enumUnion _ = Throw _ |- _ => apply enumUnion_errors in H; type_error H
  | H : formatDescriptionOf _ _ = Throw _ |- _ =>
      apply formatDescriptionOf_errors in H; type_error H
  | H : getRefOf _ _ = Throw _ |- _ => exact (getRefOf_errors _ _ _ H)
  | H : bind ?m _ = Throw _ |- _ =>
      let E := fresh "E" in destruct m eqn:E; cbn [bind] in H
  | H : (if ?b then _ else _) = Throw _ |- _ => destruct b
  end.

Section ResolverErrors.

Variable pascal : string -> string.

Lemma arrayMap_errors (F : value -> result string) (v : value) (e : exn) :
throwsResolverErrors F -> arrayMap F v = Throw e -> resolverError e.
Proof.
intros HF. destruct v; cbn [arrayMap]; intros H;
  try (injection H as <-; right; right; reflexivity).
apply mapM_Throw in H. destruct H as [x [_ H]]. exact (HF _ _ H).
Qed.

Lemma getArray_body_errors (F : value -> result string) :
throwsResolverErrors F -> throwsResolverErrors (getArray_body F).
Proof.
intros HF item e H. unfold getArray_body in H. cbv zeta in H.
repeat errors_step.
Qed.

Lemma propertyLine_errors (F : value -> result string) (item : value)
    (entry : string * value) (e : exn) :
throwsResolverErrors F -> propertyLine F item entry = Throw e ->
resolverError e.
Proof.
intros HF H. destruct entry as [key prop].
unfold propertyLine in H. repeat errors_step.
Qed.

Lemma getObject_body_errors (F : value -> result string) :
throwsResolverErrors F -> throwsResolverErrors (getObject_body pascal F).
Proof.
intros HF item e H. unfold getObject_body in H. cbv zeta in H.
repeat first
  [ errors_step
  | match goal with
    | H : arrayMap F _ = Throw _ |- _ => exact (arrayMap_errors _ _ _ HF H)
    | H : mapM (propertyLine F _) _ = Throw _ |- _ =>
        apply mapM_Throw in H; destruct H as [x [_ H]];
        exact (propertyLine_errors _ _ _ _ HF H)
    end ].
Qed.

Lemma getScalar_body_errors (A O : value -> result string) :
throwsResolverErrors A -> throwsResolverErrors O ->
throwsResolverErrors (getScalar_body A O).
Proof.
intros HA HO item e H. unfold getScalar_body in H. cbv zeta in H.
repeat errors_step.
Qed.

Lemma resolveValue_body_errors (S : value -> result string) :
throwsResolverErrors S -> throwsResolverErrors (resolveValue_body pascal S).
Proof.
intros HS schema e H. unfold resolveValue_body in H. repeat errors_step.
Qed.

Lemma resolver_fuel_errors (n : nat) :
throwsResolverErrors (getScalar_fuel pascal n)
/\ throwsResolverErrors (getArray_fuel pascal n)
/\ throwsResolverErrors (getObject_fuel pascal n)
/\ throwsResolverErrors (resolveValue_fuel pascal n).
Proof.
induction n as [| n (Hs & Ha & Ho & Hr)].
- repeat split; intros v e H; discriminate H.
- repeat split; intros v e H.
  + exact (getScalar_body_errors _ _ Ha Ho v e H).
  + exact (getArray_body_errors _ Hr v e H).
  + exact (getObject_body_errors _ Hr v e H).
  + exact (resolveValue_body_errors _ Hs v e H).
Qed.

End ResolverErrors.

(** X3: the type resolver fails in three ways only: with the unsupported
    reference error, with the error for an array without items, or with a
    TypeError of the runtime on a malformed node. *)
Theorem X3_resolver_errors (pascal : string -> string) (schema : value) (e : exn) :
  (resolveValue pascal schema = Throw e -> resolverError e)
  /\ (getScalar pascal schema = Throw e -> resolverError e)
  /\ (getArray pascal schema = Throw e -> resolverError e)
  /\ (getObject pascal schema = Throw e -> resolverError e).
Proof.
  destruct (resolver_fuel_errors pascal (fuelFor schema)) as (Hs & Ha & Ho & Hr).
  repeat split; intros H.
  - exact (Hr _ _ H).
  - exact (Hs _ _ H).
  - exact (Ha _ _ H).
  - exact (Ho _ _ H).
Qed.

Lemma X3_resolver_errors_witness :
  getScalar pascalAscii arrayWithoutItems = Throw missingItems
  /\ resolverError missingItems.
Proof.
  split; [reflexivity |].
  apply (proj1 (proj2 (X3_resolver_errors pascalAscii arrayWithoutItems
                                          missingItems))).
  reflexivity.
Defined.

(** X4: the type of a nullable schema ends with the alternative null,
    whatever the kind of the schema. *)
Theorem X4_nullable_suffix (pascal : string -> string) (item : value) (t : string) :
  truthy item = true -> truthy item$."nullable" = true ->
  getScalar pascal item = Ok t -> exists t0, t = t0 ++ " | null".
Proof.
  intros Hi Hn. rewrite getScalar_eq. unfold getScalar_body.
  rewrite Hi, Hn. cbn [negb]. cbv zeta.
  repeat match goal with
         | |- (if ?b then _ else _) = _ -> _ => destruct b
         end;
    intros H; try inv_bind H;
    match type of H with Ok (?a ++ _) = _ => exists a end;
    injection H as <-; reflexivity.
Qed.

Lemma X4_nullable_suffix_witness :
  getScalar pascalAscii nullableString = Ok "string | null"
  /\ exists t0, "string | null" = t0 ++ " | null".
Proof.
  split; [reflexivity |].
  apply (X4_nullable_suffix pascalAscii nullableString); reflexivity.
Defined.

Lemma isStringType_exclusive (type : value) :
  isStringType type = true ->
  isNumericType type = false /\ isStr type "boolean" = false
  /\ isStr type "array" = false.
Proof.
  unfold isStringType. rewrite !orb_true_iff, !isStr_true. intros H.
  repeat match goal with H : _ \/ _ |- _ => destruct H as [H | H] end;
    subst type; repeat split; reflexivity.
Qed.

Lemma joinValues_strings (sep : string) (l : list string) :
  joinValues sep (map VStr l) = Str.join sep l.
Proof.
  unfold joinValues. rewrite map_map. cbn [joinElem isNullish toString].
  rewrite map_id. reflexivity.
Qed.

(** X5: a schema with a type tag the resolver does not know (the tag [file]
    of Swagger 2, the tag [null]) and with no properties is typed [any]:
    the resolver falls back to the permissive type instead of failing. *)
Theorem X5_unknown_type_is_any (pascal : string -> string) (item : value) :
  truthy item = true ->
  isReference item = false ->
  truthy item$."type" = true ->
  knownType item$."type" = false ->
  truthy item$."allOf" = false ->
  truthy item$."oneOf" = false ->
  truthy item$."properties" = false ->
  truthy item$."additionalProperties" = false ->
  let nullable := if truthy item$."nullable" then " | null" else EmptyString in
  getScalar pascal item = Ok ("any" ++ nullable)
  /\ resolveValue pascal item = Ok ("any" ++ nullable).
Proof.
  intros Hi Href Hty Hknown Hall Hone Hp Hap nullable.
  unfold knownType in Hknown.
  apply orb_false_iff in Hknown as [Hknown Hobj].
  apply orb_false_iff in Hknown as [Hknown Hstr].
  apply orb_false_iff in Hknown as [Hknown Harr].
  apply orb_false_iff in Hknown as [Hnum Hbool].
  assert (Ho : getObject pascal item = Ok "any").
  { rewrite getObject_eq. unfold getObject_body. cbv zeta.
    rewrite Href, Hall, Hone, Hty, Hp, Hap, Hobj. reflexivity. }
  assert (Hs : getScalar pascal item = Ok ("any" ++ nullable)).
  { rewrite getScalar_eq. unfold getScalar_body. cbv zeta.
    rewrite Hi, Hnum, Hbool, Harr, Hstr, Ho. reflexivity. }
  split; [exact Hs |].
  rewrite resolveValue_eq. unfold resolveValue_body. rewrite Href. exact Hs.
Qed.

Lemma X5_unknown_type_is_any_witness :
  getScalar pascalAscii fileSchema = Ok "any"
  /\ resolveValue pascalAscii fileSchema = Ok "any".
Proof.
  apply (X5_unknown_type_is_any pascalAscii fileSchema); reflexivity.
Defined.

(** X6: a schema of a string type with an enumeration of strings is typed
    by the union of the values, each between double quotes; an empty
    enumeration gives the empty string literal. *)
Theorem X6_string_enum_union (pascal : string -> string) (item : value)
        (values : list string) :
  truthy item = true ->
  isStringType item$."type" = true ->
  item$."enum" = VArr (map VStr values) ->
  getScalar pascal item
  = Ok (Str.dq ++ Str.join (Str.dq ++ " | " ++ Str.dq) values ++ Str.dq
        ++ (if truthy item$."nullable" then " | null" else EmptyString)).
Proof.
  intros Hi Hty Henum.
  destruct (isStringType_exclusive _ Hty) as (Hnum & Hbool & Harr).
  rewrite getScalar_eq. unfold getScalar_body. cbv zeta.
  rewrite Hi, Hnum, Hbool, Harr, Hty, Henum.
  cbn [negb truthy enumUnion bind]. rewrite joinValues_strings.
  rewrite !append_assoc. reflexivity.
Qed.

Lemma X6_string_enum_union_witness :
  getScalar pascalAscii colourSchema
  = Ok (Str.dq ++ Str.join (Str.dq ++ " | " ++ Str.dq) ["red"; "green"] ++ Str.dq
        ++ EmptyString).
Proof.
  apply (X6_string_enum_union pascalAscii colourSchema ["red"; "green"]);
    reflexivity.
Defined.

(** X7: an object schema with no properties whose additional properties
    have a schema is typed as a dictionary of the type of that schema. *)
Theorem X7_dictionary_type (pascal : string -> string) (item : value) (t : string) :
  isReference item = false ->
  truthy item$."allOf" = false ->
  truthy item$."oneOf" = false ->
  item$."type" = VStr "object" ->
  truthy item$."properties" = false ->
  truthy item$."additionalProperties" = true ->
  isTrue item$."additionalProperties" = false ->
  Lodash.isEmpty item$."additionalProperties" = false ->
  resolveValue pascal item$."additionalProperties" = Ok t ->
  getObject pascal item
  = Ok ("{" ++ Str.nl ++ "  [key: string]: " ++ t ++ ";" ++ Str.nl ++ "}").
Proof.
  intros Href Hall Hone Hty Hp Hap Htrue Hempty Ht.
  rewrite getObject_eq. unfold getObject_body. cbv zeta.
  rewrite Href, Hall, Hone, Hty, Hp, Hap, Htrue, Hempty, Ht.
  simpl. rewrite append_assoc. reflexivity.
Qed.

Lemma X7_dictionary_type_witness :
  getObject pascalAscii countersSchema
  = Ok ("{" ++ Str.nl ++ "  [key: string]: " ++ "number" ++ ";" ++ Str.nl ++ "}").
Proof.
  apply (X7_dictionary_type pascalAscii countersSchema "number"); reflexivity.
Defined.

(* ================================================================== *)
(** ** Further properties: route templates *)
(* ================================================================== *)

Lemma matchParam_spec (s w rest : string) :
  matchParam s = Some (w, rest) ->
  s = "{" ++ w ++ "}" ++ rest /\ Str.isWord w = true.
Proof.
  unfold matchParam. destruct s as [| c r]; [discriminate |].
  destruct (Ascii.eqb c "{") eqn:Hc; [| discriminate].
  apply Ascii.eqb_eq in Hc. subst c.
  destruct (Str.spanWord r) as [w' rest0] eqn:Es.
  destruct (spanWord_spec _ _ _ Es) as [-> Hw].
  destruct rest0 as [| d rest']; [discriminate |].
  destruct (Str.nonEmpty w') eqn:Hne; [| discriminate].
  destruct (Ascii.eqb d "}") eqn:Hd; [| discriminate].
  apply Ascii.eqb_eq in Hd. subst d.
  intros H. injection H as <- <-. split; [reflexivity |].
  unfold Str.isWord. rewrite Hne, Hw. reflexivity.
Qed.

Lemma matchParam_placeholder (w rest : string) :
  Str.isWord w = true -> matchParam ("{" ++ w ++ "}" ++ rest) = Some (w, rest).
Proof.
  intros Hw. apply isWord_all in Hw. destruct Hw as [Hne Hw].
  change ("{" ++ w ++ "}" ++ rest) with (String "{" (w ++ String "}" rest)).
  unfold matchParam. rewrite Ascii.eqb_refl.
  rewrite (spanWord_append _ _ _ Hw) by reflexivity.
  rewrite Hne, Ascii.eqb_refl. reflexivity.
Qed.

Lemma spanWord_app_nonword (r : string) (c : ascii) (x : string) :
  Str.isWordChar c = false ->
  Str.spanWord (r ++ String c x)
  = (fst (Str.spanWord r), snd (Str.spanWord r) ++ String c x).
Proof.
  intros Hc. induction r as [| d r IH]; cbn [append Str.spanWord].
  - rewrite Hc. reflexivity.
  - destruct (Str.isWordChar d); [| reflexivity].
    rewrite IH. destruct (Str.spanWord r). reflexivity.
Qed.

Lemma matchParam_app_Some (a w rest x : string) :
  matchParam a = Some (w, rest) -> matchParam (a ++ x) = Some (w, rest ++ x).
Proof.
  intros H. destruct (matchParam_spec _ _ _ H) as [-> Hw].
  rewrite !append_assoc. apply matchParam_placeholder. exact Hw.
Qed.

Lemma matchParam_app_None (c : ascii) (r x : string) :
  matchParam (String c r) = None ->
  matchParam (String c r ++ String "{" x) = None.
Proof.
  cbn [append]. unfold matchParam.
  destruct (Ascii.eqb c "{"); [| reflexivity].
  rewrite spanWord_app_nonword by reflexivity.
  destruct (Str.spanWord r) as [w rest0]. cbn [fst snd].
  destruct rest0 as [| d rest']; cbn [append].
  - intros _. rewrite andb_false_r. reflexivity.
  - destruct (Str.nonEmpty w && Ascii.eqb d "}"); [discriminate | reflexivity].
Qed.

(** X8: every name [getParamsInPath] returns is a word of the class of
    letters, digits and underscore, and there are no more names than
    opening braces in the path: a path without a brace has no parameter. *)
Theorem X8_getParamsInPath_words (path : string) :
  Forall (fun p => Str.isWord p = true) (getParamsInPath path)
  /\ length (getParamsInPath path) <= Str.count "{" path.
Proof.
  remember (String.length path) as n eqn:Hn.
  assert (Hle : String.length path <= n) by lia. clear Hn.
  revert path Hle. induction n as [| n IH]; intros s Hle.
  - destruct s; [| simpl in Hle; lia]. split; [constructor | apply Nat.le_refl].
  - destruct s as [| c r]; [split; [constructor | apply Nat.le_refl] |].
    cbn [String.length] in Hle. rewrite getParamsInPath_unfold.
    destruct (matchParam (String c r)) as [[w rest] |] eqn:Em.
    + pose proof (matchParam_length _ _ _ Em) as Hlen.
      cbn [String.length] in Hlen.
      destruct (matchParam_spec _ _ _ Em) as [Es Hw].
      destruct (IH rest ltac:(lia)) as [IH1 IH2].
      split; [constructor; assumption |].
      rewrite Es, !count_append.
      apply isWord_all in Hw. destruct Hw as [_ Hw].
      rewrite (count_brace_word _ Hw).
      change (Str.count "{" "{") with 1. change (Str.count "{" "}") with 0.
      cbn [length]. lia.
    + destruct (IH r ltac:(lia)) as [IH1 IH2]. split; [exact IH1 |].
      cbn [Str.count]. lia.
Qed.

(** X9: the parameters of a path that contains a placeholder are those of
    the text before it, the name in the placeholder, and those of the text
    after it, in this order. *)
Theorem X9_getParamsInPath_placeholder (before name after : string) :
  Str.isWord name = true ->
  getParamsInPath (before ++ "{" ++ name ++ "}" ++ after)
  = (getParamsInPath before ++ name :: getParamsInPath after)%list.
Proof.
  intros Hw.
  remember (String.length before) as n eqn:Hn.
  assert (Hle : String.length before <= n) by lia. clear Hn.
  revert before Hle. induction n as [| n IH]; intros a Hle.
  - destruct a; [| simpl in Hle; lia]. cbn [append].
    change (String "{" (name ++ String "}" after))
      with ("{" ++ name ++ "}" ++ after).
    destruct name as [| c0 name0]; [discriminate Hw |].
    change ("{" ++ String c0 name0 ++ "}" ++ after)
      with (String "{" (String c0 name0 ++ "}" ++ after)).
    rewrite getParamsInPath_unfold.
    change (String "{" (String c0 name0 ++ "}" ++ after))
      with ("{" ++ String c0 name0 ++ "}" ++ after).
    rewrite (matchParam_placeholder _ _ Hw). reflexivity.
  - destruct a as [| c r]; [apply (IH EmptyString); simpl; lia |].
    cbn [String.length] in Hle.
    change (String c r ++ "{" ++ name ++ "}" ++ after)
      with (String c (r ++ "{" ++ name ++ "}" ++ after)).
    rewrite !getParamsInPath_unfold.
    change (String c (r ++ "{" ++ name ++ "}" ++ after))
      with (String c r ++ String "{" (name ++ "}" ++ after)).
    destruct (matchParam (String c r)) as [[w rest] |] eqn:Em.
    + rewrite (matchParam_app_Some _ _ _ _ Em).
      pose proof (matchParam_length _ _ _ Em) as Hlen.
      cbn [String.length] in Hlen.
      change (String "{" (name ++ "}" ++ after))
        with ("{" ++ name ++ "}" ++ after).
      rewrite (IH rest) by lia. reflexivity.
    + rewrite (matchParam_app_None _ _ _ Em).
      change (String "{" (name ++ "}" ++ after))
        with ("{" ++ name ++ "}" ++ after).
      apply IH. lia.
Qed.

Lemma X9_getParamsInPath_placeholder_witness :
  getParamsInPath ("/pet/{category}/" ++ "{" ++ "name" ++ "}" ++ "/")
  = (getParamsInPath "/pet/{category}/" ++ "name" :: getParamsInPath "/")%list.
Proof.
  apply (X9_getParamsInPath_placeholder "/pet/{category}/" "name" "/").
  reflexivity.
Defined.

Lemma filter_all {A : Type} (p : A -> bool) (l : list A) :
  (forall x, p x = true) -> filter p l = l.
Proof.
  intros H. induction l as [| x r IH]; cbn [filter]; [reflexivity |].
  rewrite H, IH. reflexivity.
Qed.

(** X10: for every verb but [delete] the route of the component is the
    route of the document with its braces rewritten, nothing is cut off,
    and the parameters in the path are all those of the route. *)
Theorem X10_other_verbs_keep_route (v r : string) :
  v <> "delete" ->
  routeOf v r = (replaceBraces r, None)
  /\ paramsInPathOf v r = getParamsInPath r.
Proof.
  intros Hv. apply String.eqb_neq in Hv.
  assert (E : routeOf v r = (replaceBraces r, None)).
  { unfold routeOf. rewrite Hv. reflexivity. }
  split; [exact E |].
  unfold paramsInPathOf. rewrite E, Hv. cbn [andb negb].
  rewrite filter_all by reflexivity.
  apply getParamsInPath_replaceBraces.
Qed.

Lemma X10_other_verbs_keep_route_witness :
  routeOf "get" "/pet/{id}" = (replaceBraces "/pet/{id}", None)
  /\ paramsInPathOf "get" "/pet/{id}" = getParamsInPath "/pet/{id}".
Proof.
  apply (X10_other_verbs_keep_route "get" "/pet/{id}"). discriminate.
Defined.

Lemma matchLastParam_spec (s w : string) :
  matchLastParam s = Some w ->
  Str.isWord w = true
  /\ exists trail, (trail = EmptyString \/ trail = "/")
                   /\ s = "/${" ++ w ++ "}" ++ trail.
Proof.
  unfold matchLastParam.
  destruct s as [| c1 [| c2 [| c3 r]]]; try discriminate.
  destruct (Ascii.eqb c1 "/") eqn:H1; [| discriminate].
  destruct (Ascii.eqb c2 "$") eqn:H2; [| discriminate].
  destruct (Ascii.eqb c3 "{") eqn:H3; [| discriminate].
  apply Ascii.eqb_eq in H1, H2, H3. subst c1 c2 c3. cbn [andb].
  destruct (Str.spanWord r) as [w' rest] eqn:Es.
  destruct (spanWord_spec _ _ _ Es) as [-> Hw].
  destruct (Str.nonEmpty w') eqn:Hne; [| discriminate]. cbn [andb].
  destruct (String.eqb rest "}") eqn:Ha.
  - apply String.eqb_eq in Ha. subst rest. intros H. injection H as <-.
    split; [unfold Str.isWord; rewrite Hne, Hw; reflexivity |].
    exists EmptyString. split; [left; reflexivity | reflexivity].
  - destruct (String.eqb rest "}/") eqn:Hb; [| discriminate].
    apply String.eqb_eq in Hb. subst rest. intros H. injection H as <-.
    split; [unfold Str.isWord; rewrite Hne, Hw; reflexivity |].
    exists "/". split; [right; reflexivity | reflexivity].
Qed.

Lemma searchLastParam_spec (s before w : string) :
  searchLastParam s = Some (before, w) ->
  Str.isWord w = true
  /\ exists trail, (trail = EmptyString \/ trail = "/")
                   /\ s = before ++ "/${" ++ w ++ "}" ++ trail.
Proof.
  revert before. induction s as [| c r IH]; intros before.
  - cbn. discriminate.
  - cbn [searchLastParam].
    destruct (matchLastParam (String c r)) as [w' |] eqn:Em.
    + intros H. injection H as <- <-. exact (matchLastParam_spec _ _ Em).
    + destruct (searchLastParam r) as [[b w'] |]; [| discriminate].
      intros H. injection H as <- <-.
      destruct (IH b eq_refl) as [Hw [trail [Ht ->]]].
      split; [exact Hw |]. exists trail. split; [exact Ht | reflexivity].
Qed.

(** X11: the DELETE rule cuts nothing but a final placeholder.  Either the
    route is the rewritten route of the document, or the rewritten route is
    the route of the component followed by a slash, a placeholder for a
    word and at most one more slash, and that word is the parameter the
    rule reports. *)
Theorem X11_delete_cuts_final_placeholder_only (r r' : string)
        (last : option string) :
  routeOf "delete" r = (r', last) ->
  match last with
  | None => r' = replaceBraces r
  | Some w =>
      Str.isWord w = true
      /\ exists trail, (trail = EmptyString \/ trail = "/")
                       /\ replaceBraces r = r' ++ "/${" ++ w ++ "}" ++ trail
  end.
Proof.
  unfold routeOf. change (String.eqb "delete" "delete") with true. cbv iota.
  destruct (searchLastParam (replaceBraces r)) as [[before w] |] eqn:E;
    intros H; injection H as <- <-.
  - exact (searchLastParam_spec _ _ _ E).
  - reflexivity.
Qed.

Lemma X11_delete_cuts_final_placeholder_only_witness :
  "/pet/${id}/photos" = replaceBraces "/pet/{id}/photos"
  /\ (Str.isWord "id" = true
      /\ exists trail, (trail = EmptyString \/ trail = "/")
                       /\ replaceBraces "/pet/{id}/" = "/pet" ++ "/${" ++ "id" ++ "}" ++ trail).
Proof.
  split.
  - apply (X11_delete_cuts_final_placeholder_only
             "/pet/{id}/photos" "/pet/${id}/photos" None).
    reflexivity.
  - apply (X11_delete_cuts_final_placeholder_only "/pet/{id}/" "/pet" (Some "id")).
    reflexivity.
Defined.

(* ================================================================== *)
(** ** Further properties: the operation synthesizer *)
(* ================================================================== *)

Lemma synthesize_fields (pascal : string -> string) (op operationId : value)
      (v r : string) (parameters schemasComponents : value)
      (out : string) (c : component) :
  synthesize pascal op operationId v r parameters schemasComponents = Ok (out, c) ->
  componentName c = pascal (toString operationId)
  /\ verb c = v
  /\ operation c = op
  /\ exists bt,
       getResReqTypes pascal [("body", op$."requestBody")] = Ok bt
       /\ body (typeNames c)
          = if Str.includes bt "{"
            then pascal (toString operationId) ++ "RequestBody"
            else if String.eqb bt "void" then "any" else bt.
Proof.
  unfold synthesize. intros H. repeat inv_bind H. injection H as _ <-.
  cbn [componentName verb operation typeNames body].
  split; [reflexivity | split; [reflexivity | split; [reflexivity |]]].
  eexists. split; reflexivity.
Qed.

Lemma field_assignValue_same (fs : list (string * value)) (k : string) (v : value) :
  (Lodash.assignValue (VObj fs) k v)$.k = v.
Proof.
  cbn [Lodash.assignValue field]. destruct (hasKey k fs) eqn:E.
  - apply assoc_replaceKey_same. exact E.
  - apply assoc_insertKey_same. exact E.
Qed.

(** X12: without a generator of names, an operation that has no
    [operationId] makes the synthesizer fail with the error that names the
    verb and the route, and no identifier is recorded. *)
Theorem X12_missing_operationId
        (pascal : string -> string) (op : value) (v r : string)
        (ids : list value) (parameters schemasComponents : value) :
  isNullish op = false ->
  truthy op$."operationId" = false ->
  generateRestfulComponent pascal op v r ids parameters schemasComponents None
  = (ids, Throw (missingOperationId v r)).
Proof.
  intros Hop Hid. unfold generateRestfulComponent, operationIdOf, getProp.
  rewrite Hop. cbn [bind]. rewrite Hid. reflexivity.
Qed.

Lemma X12_missing_operationId_witness :
  generateRestfulComponent pascalAscii listPets "get" "/pets" [VStr "getPet"]
                           VUndefined VUndefined None
  = ([VStr "getPet"], Throw (missingOperationId "get" "/pets")).
Proof.
  apply (X12_missing_operationId pascalAscii listPets "get" "/pets");
    reflexivity.
Defined.

(** X13: with a generator of names, an operation object that has no
    [operationId] is synthesized under the generated name: that name is
    recorded, the component is named after it, and the operation of the
    component carries it as its [operationId], its other fields being those
    of the document. *)
Theorem X13_generated_operationId
        (pascal : string -> string) (fields : list (string * value))
        (v r : string) (ids : list value) (parameters schemasComponents : value)
        (generator : string -> string -> string)
        (ids' : list value) (out : string) (c : component) :
  truthy (VObj fields)$."operationId" = false ->
  generateRestfulComponent pascal (VObj fields) v r ids parameters
                           schemasComponents (Some generator)
  = (ids', Ok (out, c)) ->
  ids' = (ids ++ [VStr (generator v r)])%list
  /\ componentName c = pascal (generator v r)
  /\ (operation c)$."operationId" = VStr (generator v r)
  /\ forall k, k <> "operationId" -> (operation c)$.k = (VObj fields)$.k.
Proof.
  intros Hid H. apply generateRestfulComponent_Ok in H.
  destruct H as (operationId & op' & Hop & _ & -> & Hs).
  unfold operationIdOf, getProp in Hop. cbn [isNullish bind] in Hop.
  rewrite Hid in Hop. cbn [assignProp bind] in Hop. injection Hop as <- <-.
  destruct (synthesize_fields _ _ _ _ _ _ _ _ _ Hs) as (Hn & _ & Ho & _).
  rewrite Hn, Ho. cbn [toString].
  split; [reflexivity | split; [reflexivity | split]].
  - apply (field_assignValue_same fields "operationId").
  - intros k Hk.
    apply (get_assignValue_other (VObj fields) "operationId" k _ Hk).
Qed.

Lemma X13_generated_operationId_witness :
  exists out c,
    generateRestfulComponent pascalAscii listPets "get" "/pets" [] VUndefined
                             VUndefined (Some verbAndRoute)
    = ([VStr "get/pets"], Ok (out, c))
    /\ componentName c = "GetPets"
    /\ (operation c)$."operationId" = VStr "get/pets".
Proof.
  eexists. eexists. split; [vm_compute; reflexivity |].
  destruct (X13_generated_operationId
              pascalAscii [("responses", VObj [])] "get" "/pets" [] VUndefined
              VUndefined verbAndRoute [VStr "get/pets"] _ _ eq_refl eq_refl)
    as (_ & Hn & Ho & _).
  split; [exact Hn | exact Ho].
Defined.

Lemma distinctIds_nil : distinctIds [].
Proof. intros before id after H. destruct before; discriminate H. Qed.

Lemma distinctIds_snoc (ids : list value) (x : value) :
  distinctIds ids -> existsb (sameValueZero x) ids = false ->
  distinctIds (ids ++ [x]).
Proof.
  intros Hd Hx before id after.
  induction after as [| z after0 _] using rev_ind; intros H.
  - apply app_inj_tail in H. destruct H as [-> ->]. exact Hx.
  - rewrite app_comm_cons, app_assoc in H. apply app_inj_tail in H.
    destruct H as [H _]. exact (Hd before id after0 H).
Qed.

Section Assembled.

Variable pascal : string -> string.
Variable specs : value.
Variable generator : option (string -> string -> string).

Lemma assembleVerb_assembled (verbs : value) (r : string) (acc acc' : assembly)
    (e : string * value) :
assembleVerb pascal specs verbs r generator acc e = Ok acc' ->
assembled pascal acc -> assembled pascal acc'.
Proof.
unfold assembleVerb. destruct e as [v op].
destruct (supportedVerb v); [| intros H; injection H as <-; auto].
destruct (generateRestfulComponent pascal op v r (operationIds acc)
            verbs$."parameters" specs$."components" generator)
  as [ids' [[out c] | |]] eqn:E; cbn [bind]; try discriminate.
apply generateRestfulComponent_Ok in E.
destruct E as (operationId & op' & _ & Hnew & -> & Hs).
destruct (synthesize_fields _ _ _ _ _ _ _ _ _ Hs) as (Hn & _).
intros H [Hd Hm]. injection H as <-. split; cbn [operationIds components].
- apply distinctIds_snoc; assumption.
- rewrite !map_app, Hm. cbn [map snd]. rewrite Hn. reflexivity.
Qed.

Lemma assembleRoute_assembled (acc acc' : assembly) (e : string * value) :
assembleRoute pascal specs generator acc e = Ok acc' ->
assembled pascal acc -> assembled pascal acc'.
Proof.
destruct e as [r verbs]. intros H Hacc.
destruct (assembleRoute_Ok _ _ _ _ _ _ _ H) as (ops & _ & Hf).
eapply (foldM_keeps _ (assembled pascal)); [| exact Hf | exact Hacc].
intros s x s'. apply assembleVerb_assembled.
Qed.

End Assembled.

(** X14: when the loop over the routes and verbs of a document succeeds,
    no recorded identifier is the same value as one recorded before it, and
    the components are, in order, those of the recorded identifiers: each is
    named by the PascalCase of its identifier, so there is one component per
    synthesized operation. *)
Theorem X14_assembled_operations
        (pascal : string -> string) (specs : value)
        (generator : option (string -> string -> string))
        (paths : list (string * value)) (text : string) (acc : assembly) :
  foldM (assembleRoute pascal specs generator) paths
        {| operationIds := []; output := text; components := [] |} = Ok acc ->
  distinctIds (operationIds acc)
  /\ map componentName (components acc)
     = map (fun id => pascal (toString id)) (operationIds acc).
Proof.
  intros H.
  eapply (foldM_keeps _ (assembled pascal)); [| exact H |].
  - intros s x s'. apply assembleRoute_assembled.
  - split; [exact distinctIds_nil | reflexivity].
Qed.

Lemma X14_assembled_operations_witness :
  exists acc,
    foldM (assembleRoute pascalAscii twoSpellings None)
          [("/pet", VObj [("get", getPetCamel)]);
           ("/pets", VObj [("get", getPetSnake)])]
          {| operationIds := []; output := EmptyString; components := [] |}
    = Ok acc
    /\ distinctIds (operationIds acc)
    /\ map componentName (components acc)
       = map (fun id => pascalAscii (toString id)) (operationIds acc).
Proof.
  eexists. split; [vm_compute; reflexivity |].
  apply (X14_assembled_operations pascalAscii twoSpellings None
           [("/pet", VObj [("get", getPetCamel)]);
            ("/pets", VObj [("get", getPetSnake)])] EmptyString).
  vm_compute. reflexivity.
Defined.

(** X15: the component of an operation that has no request body has the
    body type [any]. *)
Theorem X15_no_request_body_is_any
        (pascal : string -> string) (op : value) (v r : string)
        (ids : list value) (parameters schemasComponents : value)
        (generator : option (string -> string -> string))
        (ids' : list value) (out : string) (c : component) :
  truthy op$."requestBody" = false ->
  generateRestfulComponent pascal op v r ids parameters schemasComponents
                           generator = (ids', Ok (out, c)) ->
  body (typeNames c) = "any".
Proof.
  intros Hb H. apply generateRestfulComponent_Ok in H.
  destruct H as (operationId & op' & Hop & _ & _ & Hs).
  destruct (synthesize_fields _ _ _ _ _ _ _ _ _ Hs) as (_ & _ & _ & bt & Hbt & ->).
  rewrite (operationIdOf_other _ _ _ _ _ _ "requestBody" Hop) in Hbt
    by discriminate.
  unfold getResReqTypes in Hbt. cbn [mapM snd] in Hbt.
  unfold resReqType in Hbt. rewrite Hb in Hbt. cbn in Hbt.
  injection Hbt as <-. reflexivity.
Qed.

Lemma X15_no_request_body_is_any_witness :
  exists out c,
    generateRestfulComponent pascalAscii getPetCamel "get" "/pet" [] VUndefined
                             VUndefined None
    = ([VStr "getPet"], Ok (out, c))
    /\ body (typeNames c) = "any".
Proof.
  eexists. eexists. split; [vm_compute; reflexivity |].
  eapply (X15_no_request_body_is_any pascalAscii getPetCamel "get" "/pet" []
            VUndefined VUndefined None [VStr "getPet"]);
    [reflexivity | vm_compute; reflexivity].
Defined.

(** X16: whatever goes wrong while a path parameter is looked up and typed
    is reported as the parameter not being found: the callback fails with
    that error only, also when the parameter is declared and it is the type
    of its schema that cannot be resolved. *)
Theorem X16_path_parameter_errors_masked
        (pascal : string -> string) (operationId : value)
        (pathParams : list value) (p : string) :
  (forall e, paramType pascal operationId pathParams p = Throw e ->
             e = pathParamNotFound p operationId)
  /\ (forall i e,
         find (fun i => isStr i$."name" p) pathParams = Some i ->
         resolveValue pascal i$."schema" = Throw e ->
         paramType pascal operationId pathParams p
         = Throw (pathParamNotFound p operationId)).
Proof.
  unfold paramType. split.
  - intros e.
    destruct (find (fun i => isStr i$."name" p) pathParams) as [i |].
    + destruct (resolveValue pascal i$."schema"); cbn [bind]; intros H;
        try discriminate H; injection H as <-; reflexivity.
    + intros H. injection H as <-. reflexivity.
  - intros i e Hi Hr. rewrite Hi, Hr. reflexivity.
Qed.

Lemma X16_path_parameter_errors_masked_witness :
  resolveValue pascalAscii brokenIdParameter$."schema" = Throw missingItems
  /\ paramType pascalAscii (VStr "getPet") [brokenIdParameter] "id"
     = Throw (pathParamNotFound "id" (VStr "getPet")).
Proof.
  split; [reflexivity |].
  apply (proj2 (X16_path_parameter_errors_masked
                  pascalAscii (VStr "getPet") [brokenIdParameter] "id")
               brokenIdParameter missingItems);
    reflexivity.
Defined.

(* ================================================================== *)
(** ** Further properties: component definitions and the assembler *)
(* ================================================================== *)

(** X17: a component schema that is a reference is declared as an alias of
    the name the reference resolves to, with no doc comment, whatever else
    stands beside the reference. *)
Theorem X17_reference_schema_is_alias
        (pascal : string -> string) (name : string) (schema : value)
        (ref t : string) :
  schema$."$ref" = VStr ref ->
  ref <> EmptyString ->
  getRef pascal ref = Ok t ->
  schemaDefinition pascal (name, schema)
  = Ok ("export type " ++ pascal name ++ " = " ++ t ++ ";").
Proof.
  intros Href Hne Ht.
  assert (Hr : isReference schema = true).
  { unfold isReference. rewrite Href.
    destruct (field_isObject schema "$ref") as [fs ->];
      [rewrite Href; discriminate |].
    destruct ref; [contradiction Hne; reflexivity | reflexivity]. }
  unfold schemaDefinition, isPlainObjectSchema. rewrite Hr. cbn [bind].
  rewrite resolveValue_eq. unfold resolveValue_body. rewrite Hr, Href.
  cbn [getRefOf]. rewrite Ht. reflexivity.
Qed.

Lemma X17_reference_schema_is_alias_witness :
  schemaDefinition pascalAscii ("Animal", animalAlias)
  = Ok ("export type " ++ pascalAscii "Animal" ++ " = " ++ "Pet" ++ ";").
Proof.
  apply (X17_reference_schema_is_alias pascalAscii "Animal" animalAlias
           "#/components/schemas/Pet" "Pet");
    [reflexivity | discriminate | reflexivity].
Defined.

Lemma resReqType_void (pascal : string -> string) (node : value) :
  isReference node = false ->
  truthy node$."content" = false
  \/ (exists content, entries node$."content" = Ok content /\ noContent content) ->
  resReqType pascal node = Ok "void".
Proof.
  intros Href H. unfold resReqType. destruct (truthy node); [| reflexivity].
  cbn [negb]. rewrite Href. destruct H as [H | (content & Hc & Hn)].
  - rewrite H. reflexivity.
  - destruct (truthy node$."content"); [| reflexivity].
    rewrite Hc. cbn [bind]. rewrite (findContent_none _ Hn). reflexivity.
Qed.

(** X18: a response or request body component that is not a reference and
    has no content of a JSON or binary media type is declared as an alias
    of [void], after its doc comment. *)
Theorem X18_component_without_content_is_void
        (pascal : string -> string) (suffix name : string) (node : value)
        (doc : string) :
  isNullish node = false ->
  isReference node = false ->
  formatDescriptionOf node$."description" 0 = Ok doc ->
  truthy node$."content" = false
  \/ (exists content, entries node$."content" = Ok content /\ noContent content) ->
  bodyDefinition pascal suffix (name, node)
  = Ok (doc ++ "export type " ++ pascal name ++ suffix ++ " = " ++ "void" ++ ";").
Proof.
  intros Hn Href Hdoc Hc. unfold bodyDefinition, getProp.
  rewrite Href, Hn. cbn [bind]. rewrite Hdoc. cbn [bind].
  unfold getResReqTypes. cbn [mapM snd].
  rewrite (resReqType_void _ _ Href Hc). reflexivity.
Qed.

Lemma X18_component_without_content_is_void_witness :
  generateResponsesDefinition pascalAscii (VObj [("Deleted", noContentResponse)])
  = Ok (Str.nl
        ++ (formatDescription "Deleted" 0
            ++ "export type " ++ pascalAscii "Deleted" ++ "Response" ++ " = "
            ++ "void" ++ ";")
        ++ Str.nl).
Proof.
  unfold generateResponsesDefinition, bodiesDefinition.
  cbn [orEmptyObject Lodash.isEmpty entries bind mapM].
  rewrite (X18_component_without_content_is_void
             pascalAscii "Response" "Deleted" noContentResponse
             (formatDescription "Deleted" 0));
    [reflexivity | reflexivity | reflexivity | reflexivity
     | left; reflexivity].
Defined.

Lemma definitions_of_falsy (pascal : string -> string) (c : value)
      (k suffix : string) :
  truthy c = false ->
  generateSchemasDefinition pascal (andThen c c$.k) = Ok EmptyString
  /\ bodiesDefinition pascal suffix (andThen c c$.k) = Ok EmptyString.
Proof.
  intros H. unfold andThen. rewrite H.
  unfold generateSchemasDefinition, bodiesDefinition.
  destruct c; cbn in H |- *; try discriminate H; try rewrite H;
    split; reflexivity.
Qed.

(** X19: a document with no components and an empty table of paths gives
    the banner, the custom import and the wrapper applied to the empty
    text, and nothing else; a document with no components and no table of
    paths makes the importer fail with a TypeError. *)
Theorem X19_document_without_operations
        (pascal : string -> string) (specs : value) (customImport : string)
        (customGenerator : option (component -> string))
        (customGeneratorWrap : string -> string)
        (generator : option (string -> string -> string)) :
  isNullish specs = false ->
  truthy specs$."components" = false ->
  (specs$."paths" = VObj [] ->
   importOpenApi pascal specs customImport customGenerator customGeneratorWrap
                 generator
   = Ok ("/* Generated by oats-generator */" ++ Str.nl ++ "  " ++ Str.nl ++ "    "
         ++ (if Str.nonEmpty customImport
             then Str.nl ++ customImport ++ Str.nl else EmptyString)
         ++ Str.nl ++ Str.nl ++ customGeneratorWrap EmptyString))
  /\ (isNullish specs$."paths" = true ->
      importOpenApi pascal specs customImport customGenerator customGeneratorWrap
                    generator
      = Throw TypeError).
Proof.
  intros Hn Hc.
  assert (Hd : resolveDiscriminator specs = Ok specs).
  { unfold resolveDiscriminator, getProp. rewrite Hn. cbn [bind].
    unfold andThen. rewrite Hc, Hc. reflexivity. }
  destruct (definitions_of_falsy pascal _ "schemas" EmptyString Hc) as [Hs _].
  destruct (definitions_of_falsy pascal _ "requestBodies" "RequestBody" Hc)
    as [_ Hb].
  destruct (definitions_of_falsy pascal _ "responses" "Response" Hc) as [_ Hr].
  unfold importOpenApi, generateRequestBodiesDefinition,
    generateResponsesDefinition.
  rewrite Hd. cbn [bind]. rewrite Hs, Hb, Hr. cbn [bind].
  split; intros Hp.
  - rewrite Hp. cbn [entries bind foldM components output map append].
    destruct customGenerator; reflexivity.
  - destruct (specs$."paths"); try discriminate Hp; reflexivity.
Qed.

Lemma X19_document_without_operations_witness :
  importOpenApi pascalAscii emptyDocument EmptyString None (fun s => s) None
  = Ok ("/* Generated by oats-generator */" ++ Str.nl ++ "  " ++ Str.nl ++ "    "
        ++ EmptyString ++ Str.nl ++ Str.nl ++ EmptyString)
  /\ importOpenApi pascalAscii noPathsDocument EmptyString None (fun s => s) None
     = Throw TypeError.
Proof.
  split.
  - apply (proj1 (X19_document_without_operations
                    pascalAscii emptyDocument EmptyString None (fun s => s) None
                    eq_refl eq_refl)).
    reflexivity.
  - apply (proj2 (X19_document_without_operations
                    pascalAscii noPathsDocument EmptyString None (fun s => s) None
                    eq_refl eq_refl)).
    reflexivity.
Defined.

(* ================================================================== *)
(** ** Further properties: the discriminator propagator *)
(* ================================================================== *)

Lemma assoc_In_app (k : string) (s : value) (before rest : list (string * value)) :
  In (k, s) before -> In (k, assoc k (before ++ rest)) before.
Proof.
  induction before as [| [k' v'] r IH]; intros H; [contradiction H |].
  cbn [app assoc]. destruct (String.eqb k k') eqn:E.
  - apply String.eqb_eq in E. subst k'. left. reflexivity.
  - destruct H as [H | H].
    + injection H as -> ->. rewrite String.eqb_refl in E. discriminate E.
    + right. apply IH. exact H.
Qed.

Lemma assoc_app_fresh (k : string) (s : value) (before after : list (string * value)) :
  (forall x, ~ In (k, x) before) ->
  assoc k (before ++ (k, s) :: after) = s.
Proof.
  induction before as [| [k' v'] r IH]; intros H; cbn [app assoc].
  - rewrite String.eqb_refl. reflexivity.
  - destruct (String.eqb k k') eqn:E.
    + apply String.eqb_eq in E. subst k'.
      exfalso. apply (H v'). left. reflexivity.
    + apply IH. intros x Hx. apply (H x). right. exact Hx.
Qed.

Lemma forEachM_id {A : Type} (f : value -> A -> result value) (l : list A)
      (specs : value) :
  (forall x, In x l -> f specs x = Ok specs) -> forEachM f l specs = Ok specs.
Proof.
  induction l as [| x r IH]; intros H; cbn [forEachM]; [reflexivity |].
  rewrite (H x (or_introl eq_refl)). cbn [bind].
  apply IH. intros y Hy. apply H. right. exact Hy.
Qed.

Lemma forEachM_app_Throw {A : Type} (f : value -> A -> result value)
      (before after : list A) (x : A) (specs specs' : value) (e : exn) :
  forEachM f before specs = Ok specs' -> f specs' x = Throw e ->
  forEachM f (before ++ x :: after) specs = Throw e.
Proof.
  revert specs. induction before as [| y r IH]; intros specs H Hx;
    cbn [app forEachM] in *.
  - injection H as ->. rewrite Hx. reflexivity.
  - destruct (f specs y) as [s1 | |]; cbn [bind] in *; try discriminate H.
    exact (IH _ H Hx).
Qed.

Lemma propagateSchema_noMapping (specs : value) (key : string) (snapshot : value) :
  noMapping snapshot ->
  noMapping (Lodash.getOwn specs$."components"$."schemas" key) ->
  propagateSchema specs (key, snapshot) = Ok specs.
Proof.
  intros Hs Hc. unfold propagateSchema.
  match goal with
  | |- (if isReference ?x then _ else _) = _ =>
      assert (H : noMapping x) by (destruct (isObject snapshot); assumption);
      generalize dependent x; intros schema H
  end.
  destruct (isReference schema) eqn:Hr; [reflexivity |].
  destruct H as [H | [Hn H]]; [rewrite H in Hr; discriminate Hr |].
  unfold getProp. rewrite Hn. cbn [bind].
  destruct H as [H | H].
  - rewrite H. reflexivity.
  - destruct (truthy schema$."discriminator"); cbn [negb];
      [rewrite H |]; reflexivity.
Qed.

Lemma forEachM_inside (propertyName : value) (mapping : list (string * value))
      (specs : value) :
  (forall n r, In (n, r) mapping ->
               exists t, r = VStr ("#/components/schemas/" ++ t)) ->
  exists specs', forEachM (propagateMapping propertyName) mapping specs = Ok specs'.
Proof.
  revert specs. induction mapping as [| [n r] m IH]; intros specs H;
    cbn [forEachM].
  - eexists. reflexivity.
  - destruct (H n r (or_introl eq_refl)) as [t ->].
    rewrite propagateMapping_inside. cbn [bind].
    apply IH. intros n' r' Hin. apply (H n' r'). right. exact Hin.
Qed.

(** X20: the discriminator propagator returns the document as it is when
    the document has no component schemas, and when none of its component
    schemas has a discriminator with a mapping. *)
Theorem X20_resolveDiscriminator_without_mapping (specs : value) :
  isNullish specs = false ->
  let components := specs$."components" in
  (truthy (andThen components components$."schemas") = false ->
   resolveDiscriminator specs = Ok specs)
  /\ (forall schemas,
         components$."schemas" = VObj schemas ->
         (forall k s, In (k, s) schemas -> noMapping s) ->
         resolveDiscriminator specs = Ok specs).
Proof.
  intros Hn components. unfold resolveDiscriminator, getProp.
  rewrite Hn. cbn [bind]. fold components. split.
  - intros H. rewrite H. reflexivity.
  - intros schemas Hs Hall.
    destruct (field_isObject components "schemas") as [cs Hc];
      [rewrite Hs; discriminate |].
    unfold andThen. rewrite Hc at 1. cbn [truthy]. rewrite Hs.
    cbn [truthy entries bind]. apply forEachM_id. intros [k s] Hin.
    apply propagateSchema_noMapping; [exact (Hall k s Hin) |].
    fold components. rewrite Hs. cbn [Lodash.getOwn].
    apply (Hall k).
    pose proof (assoc_In_app k s schemas [] Hin) as Hfirst.
    rewrite app_nil_r in Hfirst. exact Hfirst.
Qed.

Lemma X20_resolveDiscriminator_without_mapping_witness :
  resolveDiscriminator twoSpellings = Ok twoSpellings
  /\ resolveDiscriminator dogStore = Ok dogStore.
Proof.
  split.
  - apply (proj1 (X20_resolveDiscriminator_without_mapping twoSpellings eq_refl)).
    reflexivity.
  - apply (proj2 (X20_resolveDiscriminator_without_mapping dogStore eq_refl)
                 [("Dog", dogSchema)] eq_refl).
    intros k s [H | []]. injection H as <- <-.
    right. split; [reflexivity | left; reflexivity].
Defined.

(** X21: a discriminator mapping that points outside the component schemas
    of the document stops the propagator, and with it the importer, with the
    error for such a mapping.  The schemas before the one with the mapping
    have no mapping, and the entries of the mapping before the offending one
    point inside the component schemas. *)
Theorem X21_mapping_outside_schemas_throws
        (pascal : string -> string) (specs : value)
        (before after : list (string * value)) (key : string) (schema : value)
        (inside rest : list (string * value)) (name ref : string)
        (customImport : string) (customGenerator : option (component -> string))
        (customGeneratorWrap : string -> string)
        (generator : option (string -> string -> string)) :
  specs$."components"$."schemas" = VObj (before ++ (key, schema) :: after) ->
  (forall k s, In (k, s) before -> noMapping s) ->
  (forall s, ~ In (key, s) before) ->
  isReference schema = false ->
  schema$."discriminator"$."mapping" = VObj (inside ++ (name, VStr ref) :: rest) ->
  (forall n r, In (n, r) inside ->
               exists t, r = VStr ("#/components/schemas/" ++ t)) ->
  Str.startsWith ref "#/components/schemas/" = false ->
  resolveDiscriminator specs = Throw mappingOutsideSchemas
  /\ importOpenApi pascal specs customImport customGenerator customGeneratorWrap
                   generator
     = Throw mappingOutsideSchemas.
Proof.
  intros Hs Hbefore Hfresh Href Hm Hinside Hout.
  assert (Hd : resolveDiscriminator specs = Throw mappingOutsideSchemas).
  { destruct (field_isObject specs$."components" "schemas") as [cs Hc];
      [rewrite Hs; discriminate |].
    destruct (field_isObject specs "components") as [top Ht];
      [rewrite Hc; discriminate |].
    destruct (field_isObject schema$."discriminator" "mapping") as [ds Hds];
      [rewrite Hm; discriminate |].
    destruct (field_isObject schema "discriminator") as [ss Hss];
      [rewrite Hds; discriminate |].
    unfold resolveDiscriminator, getProp. rewrite Ht at 1. cbn [isNullish bind].
    unfold andThen. rewrite Hc at 1. cbn [truthy]. rewrite Hs.
    cbn [truthy entries bind].
    apply (forEachM_app_Throw _ _ _ _ _ specs).
    - apply forEachM_id. intros [k s] Hin.
      apply propagateSchema_noMapping; [exact (Hbefore k s Hin) |].
      rewrite Hs. cbn [Lodash.getOwn]. apply (Hbefore k).
      apply (assoc_In_app k s). exact Hin.
    - assert (Hobj : isObject schema = true) by (rewrite Hss; reflexivity).
      assert (Hnn : isNullish schema = false) by (rewrite Hss; reflexivity).
      assert (Htd : truthy schema$."discriminator" = true)
        by (rewrite Hds; reflexivity).
      unfold propagateSchema. rewrite Hobj, Hs. cbn [Lodash.getOwn].
      rewrite (assoc_app_fresh _ _ _ _ Hfresh), Href.
      unfold getProp. rewrite Hnn. cbn [bind]. rewrite Htd. cbn [negb].
      rewrite Hm. cbn [truthy negb entries bind].
      destruct (forEachM_inside schema$."discriminator"$."propertyName"
                                inside specs Hinside) as [specs' Hok].
      apply (forEachM_app_Throw _ _ _ _ _ _ _ Hok).
      apply propagateMapping_outside. exact Hout. }
  split; [exact Hd |]. unfold importOpenApi. rewrite Hd. reflexivity.
Qed.

Lemma X21_mapping_outside_schemas_throws_witness :
  resolveDiscriminator otherFileStore = Throw mappingOutsideSchemas
  /\ importOpenApi pascalAscii otherFileStore EmptyString None (fun s => s) None
     = Throw mappingOutsideSchemas.
Proof.
  apply (X21_mapping_outside_schemas_throws
           pascalAscii otherFileStore [("Dog", dogSchema)] [] "Pet" petOfOtherFile
           [] [] "dog" "pets.yaml#/components/schemas/Dog"
           EmptyString None (fun s => s) None).
  - reflexivity.
  - intros k s [H | []]. injection H as <- <-.
    right. split; [reflexivity | left; reflexivity].
  - intros s [H | []]. discriminate H.
  - reflexivity.
  - reflexivity.
  - intros n r [].
  - reflexivity.
Defined.



(* ================================================================== *)
(** ** Further properties: texts and parameters *)
(* ================================================================== *)

Lemma lineTerminatorAt_closed (c : ascii) (r : string) :
  Str.lineTerminatorAt (String c r ++ "}") = Str.lineTerminatorAt (String c r).
Proof.
  assert (E1 : Ascii.eqb (ascii_of_nat 128) "}" = false) by reflexivity.
  assert (E2 : Ascii.eqb (ascii_of_nat 168) "}" = false) by reflexivity.
  assert (E3 : Ascii.eqb (ascii_of_nat 169) "}" = false) by reflexivity.
  unfold Str.lineTerminatorAt, Str.nl, Str.cr, Str.lineSeparator,
    Str.paragraphSeparator.
  destruct r as [| d [| e r']]; cbn [append Str.startsWith];
    rewrite ?E1, ?E2, ?E3, ?andb_false_r; reflexivity.
Qed.

Lemma matchBraced_append (inner : string) :
  oneLine inner = true -> matchBraced (inner ++ "}") = Some inner.
Proof.
  induction inner as [| c i IH]; intros H; [reflexivity |].
  cbn [oneLine] in H. apply andb_true_iff in H. destruct H as [Hc Hi].
  apply negb_true_iff in Hc. specialize (IH Hi).
  rewrite <- lineTerminatorAt_closed in Hc.
  cbn [append matchBraced] in *. destruct (i ++ "}") as [| d r] eqn:E.
  - destruct i; discriminate E.
  - rewrite Hc, IH. reflexivity.
Qed.

Lemma matchBraced_spec (s inner : string) :
  matchBraced s = Some inner -> s = inner ++ "}".
Proof.
  revert inner. induction s as [| c r IH]; intros inner; [discriminate |].
  cbn [matchBraced]. destruct r as [| d r'].
  - destruct (Ascii.eqb c "}") eqn:E; [| discriminate].
    apply Ascii.eqb_eq in E. subst c. intros H. injection H as <-. reflexivity.
  - destruct (Str.lineTerminatorAt (String c (String d r'))); [discriminate |].
    destruct (matchBraced (String d r')) as [i |]; [| discriminate].
    intros H. injection H as <-. rewrite (IH i eq_refl). reflexivity.
Qed.

(** X23: [reactPropsValueToObjectValue] takes the braces off a text that is
    an opening brace, a text with no line terminator (line feed, carriage
    return, U+2028, U+2029) and a closing brace, and returns every other
    text as it is: the result is the text itself or what its braces
    enclose. *)
Theorem X23_reactPropsValueToObjectValue (text : string) :
  (oneLine text = true ->
   reactPropsValueToObjectValue ("{" ++ text ++ "}") = text)
  /\ (reactPropsValueToObjectValue text = text
      \/ text = "{" ++ reactPropsValueToObjectValue text ++ "}").
Proof.
  split.
  - intros H. change ("{" ++ text ++ "}") with (String "{" (text ++ "}")).
    unfold reactPropsValueToObjectValue. rewrite Ascii.eqb_refl.
    rewrite (matchBraced_append _ H). reflexivity.
  - unfold reactPropsValueToObjectValue. destruct text as [| c r]; [left; reflexivity |].
    destruct (Ascii.eqb c "{") eqn:Hc; [| left; reflexivity].
    apply Ascii.eqb_eq in Hc. subst c.
    destruct (matchBraced r) as [inner |] eqn:E; [| left; reflexivity].
    right. rewrite (matchBraced_spec _ _ E). reflexivity.
Qed.

Lemma X23_reactPropsValueToObjectValue_witness :
  reactPropsValueToObjectValue
    ("{" ++ (" getConfig(" ++ Str.dq ++ "myVar" ++ Str.dq ++ ") ") ++ "}")
  = " getConfig(" ++ Str.dq ++ "myVar" ++ Str.dq ++ ") ".
Proof.
  apply (proj1 (X23_reactPropsValueToObjectValue
                  (" getConfig(" ++ Str.dq ++ "myVar" ++ Str.dq ++ ") "))).
  reflexivity.
Defined.

Lemma splitLines_singleLine (s : string) :
  singleLine s = true -> Str.splitLines s = [s].
Proof.
  unfold singleLine. induction s as [| c r IH]; intros H; [reflexivity |].
  cbn [Str.all] in H. apply andb_true_iff in H. destruct H as [Hc Hr].
  apply negb_true_iff in Hc. cbn [Str.splitLines]. rewrite Hc, (IH Hr).
  reflexivity.
Qed.

(** X24: the doc comment of a description of one line has three lines: the
    opening, the description after a star, and the closing, each indented
    by the tab size, and the indentation once more for what follows; an
    empty description has no comment at all. *)
Theorem X24_formatDescription_single_line (description : string) (tabSize : nat) :
  formatDescription EmptyString tabSize = EmptyString
  /\ (description <> EmptyString ->
      singleLine description = true ->
      formatDescription description tabSize
      = "/**" ++ Str.nl
        ++ Str.repeat " " tabSize ++ " * " ++ description ++ Str.nl
        ++ Str.repeat " " tabSize ++ " */" ++ Str.nl
        ++ Str.repeat " " tabSize).
Proof.
  split; [reflexivity |]. intros Hne Hs. unfold formatDescription.
  destruct description as [| c r]; [contradiction Hne; reflexivity |].
  cbn [Str.nonEmpty]. rewrite (splitLines_singleLine _ Hs).
  cbn [map Str.join String.concat]. rewrite !append_assoc. reflexivity.
Qed.

Lemma X24_formatDescription_single_line_witness :
  formatDescription "Deleted" 2
  = "/**" ++ Str.nl
    ++ Str.repeat " " 2 ++ " * " ++ "Deleted" ++ Str.nl
    ++ Str.repeat " " 2 ++ " */" ++ Str.nl
    ++ Str.repeat " " 2.
Proof.
  apply (proj2 (X24_formatDescription_single_line "Deleted" 2));
    [discriminate | reflexivity].
Defined.



(* ================================================================== *)
(** ** Further properties: record types *)
(* ================================================================== *)

Lemma propertyLine_indented (F : value -> result string) (item : value)
      (entry : string * value) (line : string) :
  propertyLine F item entry = Ok line -> Str.startsWith line "  " = true.
Proof.
  destruct entry as [key prop]. unfold propertyLine. intros H.
  repeat inv_bind H. injection H as <-. reflexivity.
Qed.

Lemma join_first_indented (sep line : string) (rest : list string) :
  Str.startsWith line "  " = true ->
  exists tail, Str.join sep (line :: rest) = String " " tail.
Proof.
  destruct line as [| c line]; [discriminate |]. cbn [Str.startsWith].
  intros H. apply andb_true_iff in H. destruct H as [Hc _].
  apply Ascii.eqb_eq in Hc. subst c. unfold Str.join. cbn [String.concat].
  destruct rest; eexists; reflexivity.
Qed.

(** X26: an inline object schema with properties and no additional
    properties is typed as a record: an opening brace, one line per
    property in the order of the document, and a closing brace.  A schema
    with at least one property is never taken for the empty record. *)
Theorem X26_record_type (pascal : string -> string) (item : value)
        (first : string * value) (others : list (string * value))
        (lines : list string) :
  isReference item = false ->
  truthy item$."allOf" = false ->
  truthy item$."oneOf" = false ->
  item$."properties" = VObj (first :: others) ->
  truthy item$."additionalProperties" = false ->
  mapM (propertyLine (resolveValue pascal) item) (first :: others) = Ok lines ->
  getObject pascal item
  = Ok ("{" ++ Str.nl ++ Str.join Str.nl lines ++ Str.nl ++ "}")
  /\ length lines = S (length others)
  /\ Forall (fun line => Str.startsWith line "  " = true) lines.
Proof.
  intros Href Hall Hone Hp Hap Hl.
  assert (Hlines : length lines = S (length others)
                   /\ Forall (fun line => Str.startsWith line "  " = true) lines).
  { assert (G : forall l ls,
               mapM (propertyLine (resolveValue pascal) item) l = Ok ls ->
               length ls = length l
               /\ Forall (fun line => Str.startsWith line "  " = true) ls).
    { induction l as [| e r IH]; intros ls H; cbn [mapM] in H.
      - injection H as <-. split; [reflexivity | constructor].
      - inv_bind H. inv_bind H. injection H as <-.
        destruct (IH _ eq_refl) as [Hn Hf]. split.
        + cbn [length]. rewrite Hn. reflexivity.
        + constructor; [exact (propertyLine_indented _ _ _ _ E) | exact Hf]. }
    exact (G _ _ Hl). }
  split; [| exact Hlines]. destruct Hlines as [Hn Hf].
  destruct lines as [| line rest]; [discriminate Hn |].
  inversion Hf as [| ? ? Hline _]; subst.
  destruct (join_first_indented Str.nl line rest Hline) as [tail Htail].
  rewrite getObject_eq. unfold getObject_body. cbv zeta.
  rewrite Href, Hall, Hone, Hp, Hap.
  cbn [truthy negb andb orb entries bind]. rewrite !andb_false_r.
  rewrite Hl. cbn [bind]. rewrite Htail. reflexivity.
Qed.

Lemma X26_record_type_witness :
  getObject pascalAscii dogSchema
  = Ok ("{" ++ Str.nl ++ Str.join Str.nl ["  petType?: string;"] ++ Str.nl ++ "}")
  /\ length ["  petType?: string;"] = 1
  /\ Forall (fun line => Str.startsWith line "  " = true) ["  petType?: string;"].
Proof.
  apply (X26_record_type pascalAscii dogSchema ("petType", petTypeProperty) []
           ["  petType?: string;"]);
    reflexivity.
Defined.
